(** * QuestQuiz backend: attempt lifecycle, mastery tracking and rewards

    A shallow embedding of the quiz-taking core of the backend:

    - the Mongoose schemas [Quiz], [Attempt], [Progress] and [GameState]
      become records;
    - the [GameState] methods [calculateLevel], [addXP] and [checkBadges]
      and the route helpers [getNextQuestion] and [updateGameState] become
      functions on those records;
    - the route handlers [POST /submit-answer] and
      [GET /adaptive/next/:attemptId] become functions from the database
      and the request to a response and a new database.

    JavaScript numbers.  Fields the program only counts with (numbers of
    answers, xp, levels, streaks, seconds, milliseconds) are integers [Z].
    Fields the program fills with the result of a division (score, mastery,
    accuracy) have type [number]: a rational, [NaN] or a signed infinity,
    so that [0 / 0] and [1 / 0] are what JavaScript makes of them.  In
    [Math.floor(Math.random() * n)] of [getNextQuestion] and in
    [Math.round(c / t * 100)] of [calculateTopicMastery] the rounding of
    the double decides the integer, and there the operations are rounded
    to the nearest double ([binary64]); elsewhere the quotients are kept
    exact.

    JavaScript strings.  What [toLowerCase], [toUpperCase] and [trim] do to
    a string is the business of the JavaScript engine (Unicode case mapping
    and white space): the three functions are the methods of the class
    [JsString], and every definition that calls one takes the engine as an
    argument.

    Mongoose.  [doc.save()] validates the document and rejects it when a
    [required] string is empty or when a [Number] path was assigned [NaN];
    the handlers then end in their [catch] branch.

    Effects.  [new Date()] and [Date.now] are read from a [Clock] record,
    one field per place the handler reads the time; [Math.random()] is an
    argument of the function that calls it. *)

From Stdlib Require Import ZArith QArith Qcanon Qround Lia Lqa Ascii String.
From stdpp Require Import base option list strings gmap numbers pretty.

Open Scope Z_scope.

(* ================================================================== *)
(** ** JavaScript numbers *)
(* ================================================================== *)

Module Number.

Inductive number : Type :=
| Finite (q : Qc)
| NaN
| Infinity (negative : bool).

Definition ofZ (z : Z) : number := Finite (Qc_of_Z z).

Definition isNeg (q : Qc) : bool := bool_decide (q < Qc_of_Z 0)%Qc.

(** [a * b] *)
Definition mul (a b : number) : number :=
  match a, b with
  | NaN, _ | _, NaN => NaN
  | Finite x, Finite y => Finite (x * y)%Qc
  | Finite x, Infinity n | Infinity n, Finite x =>
      if bool_decide (x = Qc_of_Z 0) then NaN else Infinity (xorb n (isNeg x))
  | Infinity n, Infinity m => Infinity (xorb n m)
  end.

(** [a / b].  Every zero of this program is a non-negative count, so the
    zero divisor is [+0]. *)
Definition div (a b : number) : number :=
  match a, b with
  | NaN, _ | _, NaN => NaN
  | Finite x, Finite y =>
      if bool_decide (y = Qc_of_Z 0)
      then (if bool_decide (x = Qc_of_Z 0) then NaN else Infinity (isNeg x))
      else Finite (x / y)%Qc
  | Finite _, Infinity _ => Finite (Qc_of_Z 0)
  | Infinity n, Finite y => Infinity (xorb n (isNeg y))
  | Infinity _, Infinity _ => NaN
  end.

(** [a < b] *)
Definition ltb (a b : number) : bool :=
  match a, b with
  | NaN, _ | _, NaN => false
  | Finite x, Finite y => bool_decide (x < y)%Qc
  | Infinity n, Finite _ => n
  | Finite _, Infinity m => negb m
  | Infinity n, Infinity m => n && negb m
  end.

(** [a <= b] *)
Definition leb (a b : number) : bool :=
  match a, b with
  | NaN, _ | _, NaN => false
  | Finite x, Finite y => bool_decide (x <= y)%Qc
  | Infinity n, Finite _ => n
  | Finite _, Infinity m => negb m
  | Infinity n, Infinity m => n || negb m
  end.

(** [a > b] and [a >= b] *)
Definition gtb (a b : number) : bool := ltb b a.
Definition geb (a b : number) : bool := leb b a.

(** [a === b] *)
Definition eqb (a b : number) : bool :=
  match a, b with
  | Finite x, Finite y => bool_decide (x = y)
  | Infinity n, Infinity m => Bool.eqb n m
  | _, _ => false
  end.

(** [Math.floor(a)], as an integer when [a] is finite.  JavaScript
    returns [NaN] and the infinities unchanged: they have no integer
    value. *)
Definition floor (a : number) : option Z :=
  match a with
  | Finite q => Some (Qfloor q)
  | _ => None
  end.

(** [Math.round(a)]: the nearest integer, halves upwards. *)
Definition round (a : number) : number :=
  match a with
  | Finite q => ofZ (Qfloor (q + Q2Qc (1 # 2))%Qc)
  | _ => a
  end.

(** [Number.isNaN(a)] *)
Definition isNaN (a : number) : bool :=
  match a with
  | NaN => true
  | _ => false
  end.

(** *** Doubles

    A finite double is a rational with a significand of 53 bits, and an
    arithmetic operation of JavaScript returns the double nearest to the
    exact result, ties to the even significand.  The range of the
    exponent is not modelled: the numbers of this program are far from
    overflow and from the subnormal range. *)

(** The integer nearest to [num / den], ties to even, for [0 < den]. *)
Definition nearestEven (num den : Z) : Z :=
  let q := num / den in
  let r := num mod den in
  if (den <? 2 * r) || ((2 * r =? den) && Z.odd q) then q + 1 else q.

(** [floor (log2 (p / q))] for positive [p] and [q]. *)
Definition exponent (p q : Z) : Z :=
  let e := Z.log2 p - Z.log2 q in
  if (if 0 <=? e then p <? q * 2 ^ e else p * 2 ^ (- e) <? q)
  then e - 1 else e.

(** The double nearest to [p / q] for positive [p] and [q]: with
    [2^e <= p / q < 2^(e+1)], the multiple of [2^(e-52)] nearest to
    [p / q]. *)
Definition nearestDouble (p q : Z) : Q :=
  let s := exponent p q - 52 in
  if 0 <=? s then inject_Z (nearestEven p (q * 2 ^ s) * 2 ^ s)
  else nearestEven (p * 2 ^ (- s)) q # Z.to_pos (2 ^ (- s)).

(** The double nearest to a rational. *)
Definition binary64 (x : Qc) : Qc :=
  match Qnum x with
  | Z0 => x
  | Zpos p => Q2Qc (nearestDouble (Zpos p) (Zpos (Qden x)))
  | Zneg p => (- Q2Qc (nearestDouble (Zpos p) (Zpos (Qden x))))%Qc
  end.

(** The rational is a double. *)
Definition isDouble (x : Qc) : Prop := binary64 x = x.

(** The result of an arithmetic operation, as JavaScript returns it. *)
Definition rounded (a : number) : number :=
  match a with
  | Finite q => Finite (binary64 q)
  | _ => a
  end.

End Number.

Import Number.

(* ================================================================== *)
(** ** Strings *)
(* ================================================================== *)

(** The string methods the program calls, as the JavaScript engine
    implements them. *)
Class JsString := {
  toLowerCase : string → string;   (* [String.prototype.toLowerCase] *)
  toUpperCase : string → string;   (* [String.prototype.toUpperCase] *)
  trim : string → string           (* [String.prototype.trim] *)
}.

(** What the three methods do on ASCII text: the engine of the sample
    data below. *)

Definition lower_ascii (c : ascii) : ascii :=
  let n := nat_of_ascii c in
  if (65 <=? n)%nat && (n <=? 90)%nat then ascii_of_nat (n + 32) else c.

Definition upper_ascii (c : ascii) : ascii :=
  let n := nat_of_ascii c in
  if (97 <=? n)%nat && (n <=? 122)%nat then ascii_of_nat (n - 32) else c.

Fixpoint map_string (f : ascii → ascii) (s : string) : string :=
  match s with
  | EmptyString => EmptyString
  | String c s' => String (f c) (map_string f s')
  end.

Definition is_space (c : ascii) : bool :=
  let n := nat_of_ascii c in
  (n =? 32)%nat || ((9 <=? n)%nat && (n <=? 13)%nat).

Fixpoint trimStart (s : string) : string :=
  match s with
  | EmptyString => EmptyString
  | String c s' => if is_space c then trimStart s' else s
  end.

Definition rev_string (s : string) : string :=
  string_of_list_ascii (rev (list_ascii_of_string s)).

Definition asciiStrings : JsString :=
  {| toLowerCase := map_string lower_ascii;
     toUpperCase := map_string upper_ascii;
     trim := λ s, rev_string (trimStart (rev_string (trimStart s))) |}.

(* ================================================================== *)
(** ** Data model: the Mongoose schemas *)
(* ================================================================== *)

(** Object ids are strings; dates are milliseconds since the epoch. *)
Abbreviation ObjectId := string.
Abbreviation Date := Z.

Inductive QuestionType := multiple_choice | true_false | short_answer.
Inductive Difficulty := easy | medium | hard.
Inductive Role := student | instructor.
Inductive Category := achievement | streak | mastery_badge | speed | accuracy.

Global Instance Difficulty_eq_dec : EqDecision Difficulty.
Proof. solve_decision. Defined.
Global Instance Role_eq_dec : EqDecision Role.
Proof. solve_decision. Defined.

Record User := { _id : ObjectId; role : Role }.

(** [questionSchema] *)
Module Question.
Record t := {
  questionId : string;
  text : string;
  type : QuestionType;
  correctAnswer : string;
  topic : string;
  difficulty : Difficulty;
  explanation : string;
  points : Z
}.
End Question.

(** [quizSchema]: the fields the attempt routes read. *)
Module Quiz.
Record t := {
  questions : list Question.t;
  topics : list string;            (* the [name] of each topic *)
  totalQuestions : Z;
  timeLimit : Z;                   (* in minutes *)
  isActive : bool;
  adaptiveMode : bool              (* [settings.adaptiveMode] *)
}.

(** The [pre('save')] hook: [totalQuestions = questions.length]. *)
Definition saved (q : t) : Prop :=
  totalQuestions q = Z.of_nat (length (questions q)).
End Quiz.

(** [answerSchema] *)
Module Answer.
Record t := {
  questionId : string;
  answer : string;
  isCorrect : bool;
  timeSpent : Z;                   (* in seconds *)
  timestamp : Date
}.

(** Validation of the subdocument: [questionId] and [answer] are
    [required], and Mongoose rejects the empty string for a required
    string. *)
Definition valid (a : t) : Prop := questionId a ≠ "" ∧ answer a ≠ "".

Global Instance valid_dec a : Decision (valid a).
Proof. unfold valid. apply _. Defined.
End Answer.

(** [attemptSchema] *)
Module Attempt.
Record t := {
  student : ObjectId;
  quiz : ObjectId;
  answers : list Answer.t;
  score : number;
  totalQuestions : Z;
  correctAnswers : Z;
  timeSpent : Z;                   (* total time in seconds *)
  completedAt : option Date;
  isCompleted : bool
}.

(** Validation of the document by [attempt.save()]: every answer of the
    array is validated, the stored ones too. *)
Definition valid (a : t) : Prop := Forall Answer.valid (answers a).

Global Instance valid_dec a : Decision (valid a).
Proof. unfold valid. apply _. Defined.
End Attempt.

(** An entry of [progressSchema.topicMastery] *)
Module TopicMastery.
Record t := {
  topic : string;
  mastery : number;                (* 0-100 percentage *)
  questionsAnswered : Z;
  correctAnswers : Z
}.
End TopicMastery.

(** [progressSchema] *)
Module Progress.
Record t := {
  student : ObjectId;
  quiz : ObjectId;
  attempts : list ObjectId;
  bestScore : number;
  totalAttempts : Z;
  lastAttempt : option Date;
  topicMastery : list TopicMastery.t;
  weakTopics : list string;
  strongTopics : list string
}.
End Progress.

(** [badgeSchema] (the [icon], an emoji, is left out) *)
Module Badge.
Record t := {
  id : string;
  name : string;
  description : string;
  unlockedAt : Date;
  category : Category
}.

(** Validation of the subdocument: the [required] strings. *)
Definition valid (b : t) : Prop :=
  id b ≠ "" ∧ name b ≠ "" ∧ description b ≠ "".

Global Instance valid_dec b : Decision (valid b).
Proof. unfold valid. apply _. Defined.
End Badge.

(** [levelSchema] *)
Module Level.
Record t := {
  level : Z;
  name : string;
  xpRequired : Z;
  unlockedAt : Date
}.

(** Validation of the subdocument: [level] has [min: 1] and [name] is
    [required]. *)
Definition valid (l : t) : Prop := 1 <= level l ∧ name l ≠ "".

Global Instance valid_dec l : Decision (valid l).
Proof. unfold valid. apply _. Defined.
End Level.

(** [gameStateSchema.streaks] *)
Module Streaks.
Record t := {
  current : Z;
  longest : Z;
  lastActivity : Date
}.
End Streaks.

(** [gameStateSchema.stats] *)
Module Stats.
Record t := {
  totalQuizzesCompleted : Z;
  totalQuestionsAnswered : Z;
  totalCorrectAnswers : Z;
  averageAccuracy : number;
  totalTimeSpent : Z;              (* in minutes *)
  fastestQuiz : option Z           (* in seconds; [null] at first *)
}.
End Stats.

(** [gameStateSchema] *)
Module GameState.
Record t := {
  student : ObjectId;
  xp : Z;
  level : Z;
  currentLevel : option Level.t;
  badges : list Badge.t;
  streaks : Streaks.t;
  stats : Stats.t
}.

(** [new GameState({ student })]: every other field takes its schema
    default; [lastActivity] defaults to [Date.now], read at [created]. *)
Definition create (student : ObjectId) (created : Date) : t :=
  {| student := student;
     xp := 0;
     level := 1;
     currentLevel := None;
     badges := [];
     streaks := {| Streaks.current := 0; Streaks.longest := 0;
                   Streaks.lastActivity := created |};
     stats := {| Stats.totalQuizzesCompleted := 0;
                 Stats.totalQuestionsAnswered := 0;
                 Stats.totalCorrectAnswers := 0;
                 Stats.averageAccuracy := ofZ 0;
                 Stats.totalTimeSpent := 0;
                 Stats.fastestQuiz := None |} |}.

(** Validation of the document by [gameState.save()]: the badges and the
    current level are validated, and [averageAccuracy], which
    [updateGameState] assigns, must not be [NaN] (the cast of the
    assignment to [Number] fails). *)
Definition valid (g : t) : Prop :=
  isNaN (Stats.averageAccuracy (stats g)) = false
  ∧ Forall Badge.valid (badges g)
  ∧ from_option Level.valid True (currentLevel g).

Global Instance valid_dec g : Decision (valid g).
Proof. unfold valid. destruct (currentLevel g); apply _. Defined.
End GameState.

(* ================================================================== *)
(** ** GameState methods *)
(* ================================================================== *)

(** The object [calculateLevel] returns. *)
Record LevelInfo := {
  li_level : Z;
  xpForCurrentLevel : Z;
  xpForNextLevel : Z;
  li_progress : number
}.

(** The loop of [calculateLevel]:
    [while (xp >= xpForNextLevel) { level++; xpForNextLevel += level * 50 }],
    run for at most [fuel] iterations; returns [(level, xpForNextLevel)]. *)
Fixpoint levelLoop (fuel : nat) (xp level next : Z) : Z * Z :=
  match fuel with
  | O => (level, next)
  | S fuel' =>
      if xp >=? next
      then let level' := level + 1 in
           levelLoop fuel' xp level' (next + level' * 50)
      else (level, next)
  end.

(** [gameStateSchema.methods.calculateLevel].  The threshold grows by at
    least 100 in every iteration, so [xp] iterations are enough for the
    loop to leave by its test ([calculateLevel_exit] below). *)
Definition calculateLevel (this : GameState.t) : LevelInfo :=
  let xp := GameState.xp this in
  let '(level, next) := levelLoop (Z.to_nat xp) xp 1 100 in
  {| li_level := level;
     xpForCurrentLevel := next - level * 50;
     xpForNextLevel := next;
     li_progress :=
       mul (div (ofZ (xp - (next - level * 50))) (ofZ (level * 50))) (ofZ 100) |}.

(** The object [addXP] returns; [newLevel] is present when [leveledUp]. *)
Record LevelResult := {
  leveledUp : bool;
  newLevel : option Z;
  lr_xpGained : Z;
  totalXP : Z;
  levelInfo : LevelInfo
}.

Definition set_xp (xp : Z) (g : GameState.t) : GameState.t :=
  {| GameState.student := GameState.student g; GameState.xp := xp;
     GameState.level := GameState.level g;
     GameState.currentLevel := GameState.currentLevel g;
     GameState.badges := GameState.badges g;
     GameState.streaks := GameState.streaks g;
     GameState.stats := GameState.stats g |}.

Definition set_level (level : Z) (g : GameState.t) : GameState.t :=
  {| GameState.student := GameState.student g; GameState.xp := GameState.xp g;
     GameState.level := level;
     GameState.currentLevel := GameState.currentLevel g;
     GameState.badges := GameState.badges g;
     GameState.streaks := GameState.streaks g;
     GameState.stats := GameState.stats g |}.

Definition set_currentLevel (l : Level.t) (g : GameState.t) : GameState.t :=
  {| GameState.student := GameState.student g; GameState.xp := GameState.xp g;
     GameState.level := GameState.level g;
     GameState.currentLevel := Some l;
     GameState.badges := GameState.badges g;
     GameState.streaks := GameState.streaks g;
     GameState.stats := GameState.stats g |}.

Definition set_badges (b : list Badge.t) (g : GameState.t) : GameState.t :=
  {| GameState.student := GameState.student g; GameState.xp := GameState.xp g;
     GameState.level := GameState.level g;
     GameState.currentLevel := GameState.currentLevel g;
     GameState.badges := b;
     GameState.streaks := GameState.streaks g;
     GameState.stats := GameState.stats g |}.

Definition set_streaks (s : Streaks.t) (g : GameState.t) : GameState.t :=
  {| GameState.student := GameState.student g; GameState.xp := GameState.xp g;
     GameState.level := GameState.level g;
     GameState.currentLevel := GameState.currentLevel g;
     GameState.badges := GameState.badges g;
     GameState.streaks := s;
     GameState.stats := GameState.stats g |}.

Definition set_stats (s : Stats.t) (g : GameState.t) : GameState.t :=
  {| GameState.student := GameState.student g; GameState.xp := GameState.xp g;
     GameState.level := GameState.level g;
     GameState.currentLevel := GameState.currentLevel g;
     GameState.badges := GameState.badges g;
     GameState.streaks := GameState.streaks g;
     GameState.stats := s |}.

(** [gameStateSchema.methods.addXP]; [unlocked] is the [new Date()] of a
    level-up. *)
Definition addXP (this : GameState.t) (amount : Z) (unlocked : Date)
  : GameState.t * LevelResult :=
  let oldLevel := GameState.level this in
  let this := set_xp (GameState.xp this + amount) this in
  let levelInfo := calculateLevel this in
  let this := set_level (li_level levelInfo) this in
  if GameState.level this >? oldLevel then
    let this :=
      set_currentLevel
        {| Level.level := GameState.level this;
           Level.name := "Level " +:+ pretty (GameState.level this);
           Level.xpRequired := xpForNextLevel levelInfo;
           Level.unlockedAt := unlocked |} this in
    (this, {| leveledUp := true; newLevel := Some (GameState.level this);
              lr_xpGained := amount; totalXP := GameState.xp this;
              levelInfo := levelInfo |})
  else
    (this, {| leveledUp := false; newLevel := None;
              lr_xpGained := amount; totalXP := GameState.xp this;
              levelInfo := levelInfo |}).

(** [this.badges.find(b => b.id === id)] finds a badge. *)
Definition hasBadge (this : GameState.t) (id : string) : bool :=
  bool_decide (is_Some (list_find (λ b, Badge.id b = id) (GameState.badges this))).

(** [gameStateSchema.methods.checkBadges]; [unlocked] is the [Date.now]
    default of [unlockedAt]. *)
Definition checkBadges (this : GameState.t) (unlocked : Date)
  : GameState.t * list Badge.t :=
  let firstQuiz :=
    if (Stats.totalQuizzesCompleted (GameState.stats this) =? 1)
       && negb (hasBadge this "first_quiz")
    then [ {| Badge.id := "first_quiz"; Badge.name := "First Steps";
              Badge.description := "Completed your first quiz!";
              Badge.unlockedAt := unlocked; Badge.category := achievement |} ]
    else [] in
  let perfectionist :=
    if eqb (Stats.averageAccuracy (GameState.stats this)) (ofZ 100)
       && negb (hasBadge this "perfectionist")
    then [ {| Badge.id := "perfectionist"; Badge.name := "Perfectionist";
              Badge.description := "Achieved 100% accuracy!";
              Badge.unlockedAt := unlocked; Badge.category := achievement |} ]
    else [] in
  let weekWarrior :=
    if (Streaks.current (GameState.streaks this) >=? 7)
       && negb (hasBadge this "week_warrior")
    then [ {| Badge.id := "week_warrior"; Badge.name := "Week Warrior";
              Badge.description := "7-day quiz streak!";
              Badge.unlockedAt := unlocked; Badge.category := streak |} ]
    else [] in
  let newBadges := firstQuiz ++ perfectionist ++ weekWarrior in
  (set_badges (GameState.badges this ++ newBadges) this, newBadges).

(* ================================================================== *)
(** ** The database and the clock *)
(* ================================================================== *)

(** The collections the attempt routes read and write.  [Progress] is
    looked up by [(student, quiz)], [GameState] by [student]. *)
Record Db := {
  attempts : gmap ObjectId Attempt.t;
  quizzes : gmap ObjectId Quiz.t;
  progress : gmap (ObjectId * ObjectId) Progress.t;
  gameStates : gmap ObjectId GameState.t
}.

Definition save_attempt (id : ObjectId) (a : Attempt.t) (db : Db) : Db :=
  {| attempts := <[id := a]> (attempts db); quizzes := quizzes db;
     progress := progress db; gameStates := gameStates db |}.

Definition save_progress (k : ObjectId * ObjectId) (p : Progress.t) (db : Db) : Db :=
  {| attempts := attempts db; quizzes := quizzes db;
     progress := <[k := p]> (progress db); gameStates := gameStates db |}.

Definition save_gameState (id : ObjectId) (g : GameState.t) (db : Db) : Db :=
  {| attempts := attempts db; quizzes := quizzes db;
     progress := progress db; gameStates := <[id := g]> (gameStates db) |}.

(** The instants a [POST /submit-answer] request reads, in program order. *)
Record Clock := {
  answeredAt : Date;     (* [timestamp: new Date()] of the answer *)
  completedAt : Date;    (* [attempt.completedAt = new Date()] *)
  createdAt : Date;      (* [Date.now] default of a new GameState *)
  levelUpAt : Date;      (* [unlockedAt: new Date()] in [addXP] *)
  now : Date;            (* [const now = new Date()] in [updateGameState] *)
  badgeAt : Date         (* [Date.now] default of a new badge *)
}.

(* ================================================================== *)
(** ** The Reward Engine: [updateGameState] *)
(* ================================================================== *)

(** What [updateGameState] returns when it does not fail. *)
Record Reward := {
  levelResult : LevelResult;
  newBadges : list Badge.t;
  xpGained : Z
}.

Definition millisecondsPerDay : Z := 1000 * 60 * 60 * 24.

(** The streak update of [updateGameState]. *)
Definition updateStreak (s : Streaks.t) (now : Date) : Streaks.t :=
  let lastActivity := Streaks.lastActivity s in
  let daysDiff := (now - lastActivity) / millisecondsPerDay in
  let current :=
    if daysDiff =? 1 then Streaks.current s + 1
    else if daysDiff >? 1 then 1
    else Streaks.current s in
  let longest :=
    if current >? Streaks.longest s then current else Streaks.longest s in
  {| Streaks.current := current; Streaks.longest := longest;
     Streaks.lastActivity := now |}.

(** The statistics update of [updateGameState]. *)
Definition updateStats (s : Stats.t) (attempt : Attempt.t) : Stats.t :=
  let totalQuizzesCompleted := Stats.totalQuizzesCompleted s + 1 in
  let totalQuestionsAnswered :=
    Stats.totalQuestionsAnswered s + Attempt.totalQuestions attempt in
  let totalCorrectAnswers :=
    Stats.totalCorrectAnswers s + Attempt.correctAnswers attempt in
  {| Stats.totalQuizzesCompleted := totalQuizzesCompleted;
     Stats.totalQuestionsAnswered := totalQuestionsAnswered;
     Stats.totalCorrectAnswers := totalCorrectAnswers;
     Stats.averageAccuracy :=
       mul (div (ofZ totalCorrectAnswers) (ofZ totalQuestionsAnswered)) (ofZ 100);
     Stats.totalTimeSpent := Stats.totalTimeSpent s + Attempt.timeSpent attempt / 60;
     Stats.fastestQuiz :=
       match Stats.fastestQuiz s with
       | None => Some (Attempt.timeSpent attempt)
       | Some fastest =>
           if (fastest =? 0) || (Attempt.timeSpent attempt <? fastest)
           then Some (Attempt.timeSpent attempt) else Some fastest
       end |}.

(** [baseXP + accuracyBonus + speedBonus]; [None] when the score is not
    finite, so that the sum is [NaN] or infinite and the xp stops being an
    integer. *)
Definition rewardXP (attempt : Attempt.t) (quiz : Quiz.t) : option Z :=
  let baseXP := 50 in
  accuracyFloor ← floor (div (Attempt.score attempt) (ofZ 10));
  let accuracyBonus := accuracyFloor * 10 in
  let speedBonus :=
    if Attempt.timeSpent attempt <? Quiz.timeLimit quiz * 30 then 20 else 0 in
  Some (baseXP + accuracyBonus + speedBonus).

(** [GameState.findOne({ student: userId })], or a new state. *)
Definition findOrCreate (db : Db) (userId : ObjectId) (clk : Clock) : GameState.t :=
  match gameStates db !! userId with
  | Some gameState => gameState
  | None => GameState.create userId (createdAt clk)
  end.

(** [updateGameState(userId, attempt, quiz)].  The state is found or
    created, updated and saved.  When [gameState.save()] rejects the
    document the function ends in its [catch] branch: nothing is saved and
    the result is [null].  A score that is not finite is outside the
    integers of the model (the xp becomes [NaN] or infinite); the model
    ends like the [catch] branch there too. *)
Definition updateGameState (db : Db) (userId : ObjectId)
    (attempt : Attempt.t) (quiz : Quiz.t) (clk : Clock) : Db * option Reward :=
  let gameState := findOrCreate db userId clk in
  match rewardXP attempt quiz with
  | None => (db, None)
  | Some totalXP =>
      let '(gameState, levelResult) := addXP gameState totalXP (levelUpAt clk) in
      let gameState :=
        set_stats (updateStats (GameState.stats gameState) attempt) gameState in
      let gameState :=
        set_streaks (updateStreak (GameState.streaks gameState) (now clk)) gameState in
      let '(gameState, newBadges) := checkBadges gameState (badgeAt clk) in
      if bool_decide (GameState.valid gameState) then
        (save_gameState userId gameState db,
         Some {| levelResult := levelResult; newBadges := newBadges;
                 xpGained := totalXP |})
      else (db, None)
  end.

(* ================================================================== *)
(** ** Question selection *)
(* ================================================================== *)

(** [attempt.answers.find(a => a.questionId === q.questionId)] finds an
    answer. *)
Definition isAnswered (attempt : Attempt.t) (q : Question.t) : bool :=
  bool_decide (is_Some
    (list_find (λ a, Answer.questionId a = Question.questionId q)
               (Attempt.answers attempt))).

(** [xs[i]] for a number [i]: [undefined] out of range. *)
Definition at_index {A} (xs : list A) (i : Z) : option A :=
  if i <? 0 then None else xs !! Z.to_nat i.

(** [getNextQuestion(quiz, attempt, progress)]; [random] is the value of
    [Math.random()], a double in [0, 1).  The index of the fallback is the
    floor of the product as JavaScript computes it, the double nearest to
    [random * length].  [null] and [undefined] are [None]. *)
Definition getNextQuestion (quiz : Quiz.t) (attempt : Attempt.t)
    (progress : option Progress.t) (random : Qc) : option Question.t :=
  let weakTopicQuestions :=
    match progress with
    | Some progress =>
        if (0 <? length (Progress.weakTopics progress))%nat then
          filter (λ q, bool_decide (Question.topic q ∈ Progress.weakTopics progress)
                       && negb (isAnswered attempt q))
                 (Quiz.questions quiz)
        else []
    | None => []
    end in
  if (0 <? length weakTopicQuestions)%nat then head weakTopicQuestions
  else
    let unansweredQuestions :=
      filter (λ q, negb (isAnswered attempt q)) (Quiz.questions quiz) in
    if (0 <? length unansweredQuestions)%nat then
      at_index unansweredQuestions
        (Qfloor (binary64
           (random * Qc_of_Z (Z.of_nat (length unansweredQuestions)))%Qc))
    else None.

(* ================================================================== *)
(** ** [POST /submit-answer] *)
(* ================================================================== *)

(** [req.body] *)
Record SubmitBody := {
  attemptId : ObjectId;
  questionId : string;
  answer : string;
  timeSpent : option Z             (* [undefined] when absent *)
}.

Inductive Response :=
| Failure (status : Z) (message : string)
| QuizCompleted (score : number) (correctAnswers totalQuestions timeSpent : Z)
| AnswerSubmitted (isCorrect : bool) (correctAnswer explanation : string)
    (nextQuestion : option Question.t) (questionNumber : Z) (timeRemaining : Z).

(** The correctness rule. *)
Definition checkAnswer `{!JsString} (question : Question.t) (answer : string)
  : bool :=
  match Question.type question with
  | multiple_choice | true_false =>
      bool_decide (answer = Question.correctAnswer question)
  | short_answer =>
      bool_decide (trim (toLowerCase answer)
                   = trim (toLowerCase (Question.correctAnswer question)))
  end.

(** [attempt.answers.push(answerData); attempt.timeSpent += timeSpent || 0;
    if (isCorrect) attempt.correctAnswers += 1]. *)
Definition recordAnswer (attempt : Attempt.t) (body : SubmitBody)
    (isCorrect : bool) (timestamp : Date) : Attempt.t :=
  let answerData :=
    {| Answer.questionId := questionId body;
       Answer.answer := answer body;
       Answer.isCorrect := isCorrect;
       Answer.timeSpent := default 0 (timeSpent body);
       Answer.timestamp := timestamp |} in
  {| Attempt.student := Attempt.student attempt;
     Attempt.quiz := Attempt.quiz attempt;
     Attempt.answers := Attempt.answers attempt ++ [answerData];
     Attempt.score := Attempt.score attempt;
     Attempt.totalQuestions := Attempt.totalQuestions attempt;
     Attempt.correctAnswers :=
       if isCorrect then Attempt.correctAnswers attempt + 1
       else Attempt.correctAnswers attempt;
     Attempt.timeSpent := Attempt.timeSpent attempt + default 0 (timeSpent body);
     Attempt.completedAt := Attempt.completedAt attempt;
     Attempt.isCompleted := Attempt.isCompleted attempt |}.

(** The update of one [topicMastery] entry. *)
Definition answerTopic (isCorrect : bool) (tm : TopicMastery.t) : TopicMastery.t :=
  let questionsAnswered := TopicMastery.questionsAnswered tm + 1 in
  let correctAnswers :=
    if isCorrect then TopicMastery.correctAnswers tm + 1
    else TopicMastery.correctAnswers tm in
  {| TopicMastery.topic := TopicMastery.topic tm;
     TopicMastery.mastery :=
       mul (div (ofZ correctAnswers) (ofZ questionsAnswered)) (ofZ 100);
     TopicMastery.questionsAnswered := questionsAnswered;
     TopicMastery.correctAnswers := correctAnswers |}.

Definition set_topicMastery (l : list TopicMastery.t) (p : Progress.t) : Progress.t :=
  {| Progress.student := Progress.student p; Progress.quiz := Progress.quiz p;
     Progress.attempts := Progress.attempts p;
     Progress.bestScore := Progress.bestScore p;
     Progress.totalAttempts := Progress.totalAttempts p;
     Progress.lastAttempt := Progress.lastAttempt p;
     Progress.topicMastery := l;
     Progress.weakTopics := Progress.weakTopics p;
     Progress.strongTopics := Progress.strongTopics p |}.

(** "Update topic mastery": [findIndex] the entry of the question's topic
    and update it in place; nothing happens when there is none. *)
Definition updateTopicMastery (question : Question.t) (isCorrect : bool)
    (progress : Progress.t) : Progress.t :=
  match list_find (λ tm, TopicMastery.topic tm = Question.topic question)
                  (Progress.topicMastery progress) with
  | Some (topicIndex, tm) =>
      set_topicMastery
        (<[topicIndex := answerTopic isCorrect tm]> (Progress.topicMastery progress))
        progress
  | None => progress
  end.

(** The [mastery] that "Update topic mastery" assigns is [NaN]: the cast
    of the assignment fails, and [progress.save()] will reject the
    document. *)
Definition masteryCastFails (question : Question.t) (isCorrect : bool)
    (progress : Progress.t) : bool :=
  match list_find (λ tm, TopicMastery.topic tm = Question.topic question)
                  (Progress.topicMastery progress) with
  | Some (_, tm) => isNaN (TopicMastery.mastery (answerTopic isCorrect tm))
  | None => false
  end.

(** "Calculate final score": the attempt is completed. *)
Definition completeAttempt (attempt : Attempt.t) (quiz : Quiz.t)
    (completed : Date) : Attempt.t :=
  {| Attempt.student := Attempt.student attempt;
     Attempt.quiz := Attempt.quiz attempt;
     Attempt.answers := Attempt.answers attempt;
     Attempt.score :=
       mul (div (ofZ (Attempt.correctAnswers attempt))
                (ofZ (Quiz.totalQuestions quiz))) (ofZ 100);
     Attempt.totalQuestions := Attempt.totalQuestions attempt;
     Attempt.correctAnswers := Attempt.correctAnswers attempt;
     Attempt.timeSpent := Attempt.timeSpent attempt;
     Attempt.completedAt := Some completed;
     Attempt.isCompleted := true |}.

(** "Update progress" of the completion branch: best score, weak and
    strong topics. *)
Definition finalizeProgress (attempt : Attempt.t) (progress : Progress.t)
  : Progress.t :=
  {| Progress.student := Progress.student progress;
     Progress.quiz := Progress.quiz progress;
     Progress.attempts := Progress.attempts progress;
     Progress.bestScore :=
       if gtb (Attempt.score attempt) (Progress.bestScore progress)
       then Attempt.score attempt else Progress.bestScore progress;
     Progress.totalAttempts := Progress.totalAttempts progress;
     Progress.lastAttempt := Progress.lastAttempt progress;
     Progress.topicMastery := Progress.topicMastery progress;
     Progress.weakTopics :=
       TopicMastery.topic <$>
         filter (λ tm, ltb (TopicMastery.mastery tm) (ofZ 70)
                       && (TopicMastery.questionsAnswered tm >? 0))
                (Progress.topicMastery progress);
     Progress.strongTopics :=
       TopicMastery.topic <$>
         filter (λ tm, geb (TopicMastery.mastery tm) (ofZ 80)
                       && (TopicMastery.questionsAnswered tm >? 0))
                (Progress.topicMastery progress) |}.

(** The handler.  The [catch] branch answers 500; it is reached when the
    quiz of the attempt does not exist ([quiz.questions] of [null]) and
    when a [save()] rejects its document: the first [attempt.save()] when
    an answer of the attempt has an empty [questionId] or [answer], the
    second one when the score assigned is [NaN], and [progress.save()]
    when the mastery assigned was [NaN].  What was saved before stays
    saved.  The progress document updated by "Update topic mastery" is
    saved in the completion branch only. *)
Definition submitAnswer `{!JsString} (db : Db) (user : User)
    (body : SubmitBody) (clk : Clock) (random : Qc) : Response * Db :=
  if negb (bool_decide (role user = student)) then
    (Failure 403 "Only students can submit answers", db)
  else
  match attempts db !! attemptId body with
  | None => (Failure 404 "Quiz attempt not found", db)
  | Some attempt =>
  if negb (bool_decide (Attempt.student attempt = _id user)) then
    (Failure 403 "Access denied", db)
  else
  match quizzes db !! Attempt.quiz attempt with
  | None => (Failure 500 "Error submitting answer", db)
  | Some quiz =>
  match list_find (λ q, Question.questionId q = questionId body)
                  (Quiz.questions quiz) with
  | None => (Failure 404 "Question not found", db)
  | Some (_, question) =>
      let isCorrect := checkAnswer question (answer body) in
      let attempt := recordAnswer attempt body isCorrect (answeredAt clk) in
      if negb (bool_decide (Attempt.valid attempt)) then
        (Failure 500 "Error submitting answer", db)
      else
      let db := save_attempt (attemptId body) attempt db in
      let key := (_id user, Attempt.quiz attempt) in
      let found := progress db !! key in
      let progress := updateTopicMastery question isCorrect <$> found in
      let castFails :=
        from_option (masteryCastFails question isCorrect) false found in
      if Z.of_nat (length (Attempt.answers attempt)) >=? Quiz.totalQuestions quiz
      then
        let attempt := completeAttempt attempt quiz (completedAt clk) in
        if isNaN (Attempt.score attempt) then
          (Failure 500 "Error submitting answer", db)
        else
        let db := save_attempt (attemptId body) attempt db in
        let saved :=
          match progress with
          | Some progress =>
              if castFails then None
              else Some (save_progress key (finalizeProgress attempt progress) db)
          | None => Some db
          end in
        match saved with
        | None => (Failure 500 "Error submitting answer", db)
        | Some db =>
            let db := fst (updateGameState db (_id user) attempt quiz clk) in
            (QuizCompleted (Attempt.score attempt) (Attempt.correctAnswers attempt)
               (Quiz.totalQuestions quiz) (Attempt.timeSpent attempt), db)
        end
      else
        let nextQuestion := getNextQuestion quiz attempt progress random in
        let questionNumber := Z.of_nat (length (Attempt.answers attempt)) + 1 in
        (AnswerSubmitted isCorrect (Question.correctAnswer question)
           (Question.explanation question) nextQuestion questionNumber
           (Quiz.timeLimit quiz * 60 - Attempt.timeSpent attempt), db)
  end end end.

(* ================================================================== *)
(** ** [GET /adaptive/next/:attemptId] *)
(* ================================================================== *)

Record Performance := { perf_accuracy : number; perf_difficulty : Difficulty }.

Inductive AdaptiveResponse :=
| AdaptiveFailure (status : Z) (message : string)
| NextQuestion (question : option Question.t) (questionNumber : Z)
    (performance : option Performance)
| QuizComplete (performance : Performance).

(** The literals [0.8] and [0.6]. *)
Definition lit_0_8 : number := Finite (Q2Qc (8 # 10)).
Definition lit_0_6 : number := Finite (Q2Qc (6 # 10)).

(** "Determine next difficulty based on performance" *)
Definition nextDifficulty (currentAccuracy : number) : Difficulty :=
  if geb currentAccuracy lit_0_8 then hard
  else if geb currentAccuracy lit_0_6 then medium
  else easy.

(** [correctAnswers / answeredQuestions] of the attempt. *)
Definition currentAccuracy (attempt : Attempt.t) : number :=
  let answeredQuestions := length (Attempt.answers attempt) in
  let correctAnswers :=
    length (filter (λ a, Answer.isCorrect a = true) (Attempt.answers attempt)) in
  div (ofZ (Z.of_nat correctAnswers)) (ofZ (Z.of_nat answeredQuestions)).

(** The handler; [attempt.quiz] is populated from the quiz collection, and
    a missing quiz ends in the [catch] branch. *)
Definition adaptiveNext (db : Db) (user : User) (attemptId : ObjectId)
  : AdaptiveResponse :=
  if negb (bool_decide (role user = student)) then
    AdaptiveFailure 403 "Only students can take adaptive quizzes"
  else
  match attempts db !! attemptId with
  | None => AdaptiveFailure 404 "Attempt not found"
  | Some attempt =>
  if negb (bool_decide (Attempt.student attempt = _id user)) then
    AdaptiveFailure 403 "Access denied"
  else
  match quizzes db !! Attempt.quiz attempt with
  | None => AdaptiveFailure 500 "Error getting next question"
  | Some quiz =>
  if negb (Quiz.adaptiveMode quiz) then
    AdaptiveFailure 400 "This quiz is not in adaptive mode"
  else
    let answeredQuestions := Z.of_nat (length (Attempt.answers attempt)) in
    if answeredQuestions =? 0 then
      let easyQuestion :=
        snd <$> list_find (λ q, Question.difficulty q = easy) (Quiz.questions quiz) in
      NextQuestion easyQuestion (answeredQuestions + 1) None
    else
      let accuracy := currentAccuracy attempt in
      let difficulty := nextDifficulty accuracy in
      let performance :=
        {| perf_accuracy := accuracy; perf_difficulty := difficulty |} in
      let availableQuestions :=
        filter (λ q, bool_decide (Question.difficulty q = difficulty)
                     && negb (isAnswered attempt q))
               (Quiz.questions quiz) in
      match availableQuestions with
      | [] =>
          let allRemainingQuestions :=
            filter (λ q, negb (isAnswered attempt q)) (Quiz.questions quiz) in
          match allRemainingQuestions with
          | [] => QuizComplete performance
          | nextQuestion :: _ =>
              NextQuestion (Some nextQuestion) (answeredQuestions + 1) (Some performance)
          end
      | nextQuestion :: _ =>
          NextQuestion (Some nextQuestion) (answeredQuestions + 1) (Some performance)
      end
  end end.

(* ================================================================== *)
(** ** [POST /start/:quizId]: the documents it creates *)
(* ================================================================== *)

(** [new Progress({ ... })]: zero mastery for every topic of the quiz. *)
Definition newProgress (student quizId : ObjectId) (quiz : Quiz.t) : Progress.t :=
  {| Progress.student := student;
     Progress.quiz := quizId;
     Progress.attempts := [];
     Progress.bestScore := ofZ 0;
     Progress.totalAttempts := 0;
     Progress.lastAttempt := None;
     Progress.topicMastery :=
       (λ name, {| TopicMastery.topic := name;
                   TopicMastery.mastery := ofZ 0;
                   TopicMastery.questionsAnswered := 0;
                   TopicMastery.correctAnswers := 0 |}) <$> Quiz.topics quiz;
     Progress.weakTopics := [];
     Progress.strongTopics := [] |}.

(** [new Attempt({ ... })] *)
Definition newAttempt (student quizId : ObjectId) (quiz : Quiz.t) : Attempt.t :=
  {| Attempt.student := student;
     Attempt.quiz := quizId;
     Attempt.answers := [];
     Attempt.score := ofZ 0;
     Attempt.totalQuestions := Quiz.totalQuestions quiz;
     Attempt.correctAnswers := 0;
     Attempt.timeSpent := 0;
     Attempt.completedAt := None;
     Attempt.isCompleted := false |}.

(* ================================================================== *)
(** ** A sample quiz: three easy, three medium and three hard questions *)
(* ================================================================== *)

Definition mkQuestion (id topic : string) (d : Difficulty) : Question.t :=
  {| Question.questionId := id; Question.text := "?";
     Question.type := multiple_choice; Question.correctAnswer := "yes";
     Question.topic := topic; Question.difficulty := d;
     Question.explanation := ""; Question.points := 10 |}.

Definition sampleQuiz : Quiz.t :=
  {| Quiz.questions :=
       [ mkQuestion "e1" "A" easy; mkQuestion "h1" "A" hard;
         mkQuestion "m1" "B" medium; mkQuestion "e2" "B" easy;
         mkQuestion "e3" "C" easy; mkQuestion "m2" "C" medium;
         mkQuestion "m3" "A" medium; mkQuestion "h2" "B" hard;
         mkQuestion "h3" "C" hard ];
     Quiz.topics := ["A"; "B"; "C"];
     Quiz.totalQuestions := 9;
     Quiz.timeLimit := 30;
     Quiz.isActive := true;
     Quiz.adaptiveMode := true |}.

Definition alice : User := {| _id := "alice"; role := student |}.

Definition sampleClock : Clock :=
  {| answeredAt := 1000; completedAt := 1001; createdAt := 1002;
     levelUpAt := 1003; now := 1004; badgeAt := 1005 |}.

Definition mkBody (q a : string) (t : Z) : SubmitBody :=
  {| attemptId := "att1"; questionId := q; answer := a; timeSpent := Some t |}.

Definition sampleDb : Db :=
  {| attempts := {[ "att1" := newAttempt "alice" "quiz1" sampleQuiz ]};
     quizzes := {[ "quiz1" := sampleQuiz ]};
     progress := {[ ("alice", "quiz1") := newProgress "alice" "quiz1" sampleQuiz ]};
     gameStates := ∅ |}.

(* ================================================================== *)
(** ** Vocabulary of the statements *)
(* ================================================================== *)

(** The calendar day (UTC) of an instant, as a day number. *)
Definition calendarDay (t : Date) : Z := t / millisecondsPerDay.

(** The speed bonus of [updateGameState]. *)
Definition speedBonus (attempt : Attempt.t) (quiz : Quiz.t) : Z :=
  if Attempt.timeSpent attempt <? Quiz.timeLimit quiz * 30 then 20 else 0.

(** The game state [updateGameState] saves after adding [totalXP]. *)
Definition rewarded (g : GameState.t) (totalXP : Z) (attempt : Attempt.t)
    (clk : Clock) : GameState.t :=
  let g := fst (addXP g totalXP (levelUpAt clk)) in
  let g := set_stats (updateStats (GameState.stats g) attempt) g in
  let g := set_streaks (updateStreak (GameState.streaks g) (now clk)) g in
  fst (checkBadges g (badgeAt clk)).

(** [gameState.save()] accepts the state [updateGameState] computes for
    the student: the attempt has questions, and the state found, if there
    is one, is as Mongoose has saved it, with a number of questions
    answered that is not negative. *)
Definition rewardable (db : Db) (userId : ObjectId) (attempt : Attempt.t)
  : Prop :=
  0 < Attempt.totalQuestions attempt
  ∧ ∀ g, gameStates db !! userId = Some g →
         Forall Badge.valid (GameState.badges g)
         ∧ from_option Level.valid True (GameState.currentLevel g)
         ∧ 0 <= Stats.totalQuestionsAnswered (GameState.stats g).

(** The streak rule in the words of the specification: the calendar date of
    the completion against the calendar date of the last activity. *)
Definition calendarStreakRule (s : Streaks.t) (now : Date) (s' : Streaks.t) : Prop :=
  let gap := calendarDay now - calendarDay (Streaks.lastActivity s) in
  (gap = 1 → Streaks.current s' = Streaks.current s + 1)
  ∧ (gap > 1 → Streaks.current s' = 1)
  ∧ (gap = 0 → Streaks.current s' = Streaks.current s)
  ∧ Streaks.longest s' = Z.max (Streaks.longest s) (Streaks.current s')
  ∧ Streaks.lastActivity s' = now.

(* ================================================================== *)
(** ** More sample data *)
(* ================================================================== *)

(** A quiz of one question and two topics: one answer completes it. *)
Definition tinyQuiz : Quiz.t :=
  {| Quiz.questions := [ mkQuestion "q1" "A" easy ];
     Quiz.topics := ["A"; "B"];
     Quiz.totalQuestions := 1;
     Quiz.timeLimit := 30;
     Quiz.isActive := true;
     Quiz.adaptiveMode := true |}.

(** Alice played three days in a row; her last activity was on
    1 January 1970 at 23:00 UTC. *)
Definition aliceState : GameState.t :=
  {| GameState.student := "alice";
     GameState.xp := 0;
     GameState.level := 1;
     GameState.currentLevel := None;
     GameState.badges := [];
     GameState.streaks :=
       {| Streaks.current := 3; Streaks.longest := 5;
          Streaks.lastActivity := 23 * 60 * 60 * 1000 |};
     GameState.stats :=
       {| Stats.totalQuizzesCompleted := 3;
          Stats.totalQuestionsAnswered := 3;
          Stats.totalCorrectAnswers := 3;
          Stats.averageAccuracy := ofZ 100;
          Stats.totalTimeSpent := 3;
          Stats.fastestQuiz := Some 60 |} |}.

Definition tinyDb (states : gmap ObjectId GameState.t) : Db :=
  {| attempts := {[ "att1" := newAttempt "alice" "quiz1" tinyQuiz ]};
     quizzes := {[ "quiz1" := tinyQuiz ]};
     progress := {[ ("alice", "quiz1") := newProgress "alice" "quiz1" tinyQuiz ]};
     gameStates := states |}.

(** A request handled on 2 January 1970 at 01:00 UTC. *)
Definition nextMorning : Clock :=
  let t := 25 * 60 * 60 * 1000 in
  {| answeredAt := t; completedAt := t + 1; createdAt := t + 2;
     levelUpAt := t + 3; now := t + 4; badgeAt := t + 5 |}.

(** The attempt after "Add answer to attempt". *)
Definition answeredAttempt `{!JsString} (attempt : Attempt.t)
    (body : SubmitBody) (question : Question.t) (clk : Clock) : Attempt.t :=
  recordAnswer attempt body (checkAnswer question (answer body)) (answeredAt clk).

(** The attempt the completion branch saves. *)
Definition completedAttempt `{!JsString} (attempt : Attempt.t)
    (body : SubmitBody) (question : Question.t) (quiz : Quiz.t) (clk : Clock)
  : Attempt.t :=
  completeAttempt (answeredAttempt attempt body question clk) quiz (completedAt clk).

(** The request passes every check of the handler: a student's own
    attempt, on an existing quiz, for a question of that quiz. *)
Definition accepted (db : Db) (user : User) (body : SubmitBody)
    (attempt : Attempt.t) (quiz : Quiz.t) (question : Question.t) : Prop :=
  role user = student
  ∧ attempts db !! attemptId body = Some attempt
  ∧ Attempt.student attempt = _id user
  ∧ quizzes db !! Attempt.quiz attempt = Some quiz
  ∧ ∃ i, list_find (λ q, Question.questionId q = questionId body)
                   (Quiz.questions quiz) = Some (i, question).

(** The attempt with the answer of the request passes the validation of
    [attempt.save()]: the answers stored are valid, and the [questionId]
    and the [answer] of the request are not empty. *)
Definition storable (attempt : Attempt.t) (body : SubmitBody) : Prop :=
  Attempt.valid attempt ∧ questionId body ≠ "" ∧ answer body ≠ "".

(** The topic counters of the progress record of the request, when there
    is one, are counts: none is negative. *)
Definition counting (db : Db) (user : User) (attempt : Attempt.t) : Prop :=
  ∀ p tm,
    progress db !! (_id user, Attempt.quiz attempt) = Some p →
    tm ∈ Progress.topicMastery p →
    0 <= TopicMastery.questionsAnswered tm.


(** Resubmission in the words of the specification: a second answer to a
    question already answered fails and changes nothing in the attempt. *)
Definition rejectsResubmission `{!JsString} (db : Db) (user : User)
    (body : SubmitBody) (clk : Clock) (random : Qc) : Prop :=
  ∀ attempt,
    attempts db !! attemptId body = Some attempt →
    Attempt.isCompleted attempt = false →
    is_Some (list_find (λ a, Answer.questionId a = questionId body)
                       (Attempt.answers attempt)) →
    (∃ status message,
       fst (submitAnswer db user body clk random) = Failure status message)
    ∧ ∃ attempt',
        attempts (snd (submitAnswer db user body clk random)) !! attemptId body
        = Some attempt'
        ∧ Attempt.answers attempt' = Attempt.answers attempt
        ∧ Attempt.correctAnswers attempt' = Attempt.correctAnswers attempt
        ∧ Attempt.timeSpent attempt' = Attempt.timeSpent attempt.

(** A quiz of three questions, and Alice's attempt after a right and a
    wrong answer. *)
Definition threeQuiz : Quiz.t :=
  {| Quiz.questions :=
       [ mkQuestion "q1" "A" easy; mkQuestion "q2" "A" medium;
         mkQuestion "q3" "B" hard ];
     Quiz.topics := ["A"; "B"];
     Quiz.totalQuestions := 3;
     Quiz.timeLimit := 30;
     Quiz.isActive := true;
     Quiz.adaptiveMode := true |}.

Definition threeDb : Db :=
  {| attempts := {[ "att1" := newAttempt "alice" "quiz1" threeQuiz ]};
     quizzes := {[ "quiz1" := threeQuiz ]};
     progress := {[ ("alice", "quiz1") := newProgress "alice" "quiz1" threeQuiz ]};
     gameStates := ∅ |}.

(** Adaptive selection in the words of the specification: the question
    selected has the target difficulty of the rolling accuracy whenever an
    unanswered question of that difficulty exists. *)
Definition selectsTargetDifficulty (quiz : Quiz.t) (attempt : Attempt.t)
    (next : option Question.t) : Prop :=
  let target := nextDifficulty (currentAccuracy attempt) in
  ∀ q, q ∈ Quiz.questions quiz → Question.difficulty q = target →
       isAnswered attempt q = false →
       ∃ q', next = Some q' ∧ Question.difficulty q' = target.

(** Determinism in the words of the specification: the same quiz, attempt
    and progress give the same question, whatever [Math.random()] draws
    (a double in [0, 1)). *)
Definition selectionIsDeterministic (quiz : Quiz.t) (attempt : Attempt.t)
    (progress : option Progress.t) : Prop :=
  ∀ random1 random2 : Qc,
    (Qc_of_Z 0 <= random1)%Qc ∧ (random1 < Qc_of_Z 1)%Qc → isDouble random1 →
    (Qc_of_Z 0 <= random2)%Qc ∧ (random2 < Qc_of_Z 1)%Qc → isDouble random2 →
    getNextQuestion quiz attempt progress random1
    = getNextQuestion quiz attempt progress random2.

(* ================================================================== *)
(** ** Progress records the routes produce *)
(* ================================================================== *)

(** [POST /start/:quizId] on an existing record:
    [progress.attempts.push(attempt._id); progress.totalAttempts += 1;
     progress.lastAttempt = new Date()]. *)
Definition startProgress (attemptId : ObjectId) (started : Date)
    (p : Progress.t) : Progress.t :=
  {| Progress.student := Progress.student p; Progress.quiz := Progress.quiz p;
     Progress.attempts := Progress.attempts p ++ [attemptId];
     Progress.bestScore := Progress.bestScore p;
     Progress.totalAttempts := Progress.totalAttempts p + 1;
     Progress.lastAttempt := Some started;
     Progress.topicMastery := Progress.topicMastery p;
     Progress.weakTopics := Progress.weakTopics p;
     Progress.strongTopics := Progress.strongTopics p |}.

(** The records saved in the [Progress] collection: [/start] creates a
    record and saves it again with the new attempt; [/submit-answer] saves
    it in its completion branch. *)
Inductive reachable : Progress.t → Prop :=
| reachable_new student quizId quiz :
    reachable (newProgress student quizId quiz)
| reachable_start p attemptId started :
    reachable p → reachable (startProgress attemptId started p)
| reachable_completed p attempt question isCorrect :
    reachable p →
    reachable (finalizeProgress attempt (updateTopicMastery question isCorrect p)).

(** The mastery of an entry computed in one shot from its counters. *)
Definition masteryFromCounters (tm : TopicMastery.t) : number :=
  mul (div (ofZ (TopicMastery.correctAnswers tm))
           (ofZ (TopicMastery.questionsAnswered tm))) (ofZ 100).

(** The mastery rule in the words of the specification: every entry holds
    the quotient of its counters. *)
Definition masteryIsQuotient (p : Progress.t) : Prop :=
  ∀ tm, tm ∈ Progress.topicMastery p →
        TopicMastery.mastery tm = masteryFromCounters tm.

(** An entry is as it was seeded, or holds the quotient of its counters. *)
Definition consistent (tm : TopicMastery.t) : Prop :=
  (TopicMastery.questionsAnswered tm = 0
   ∧ TopicMastery.correctAnswers tm = 0
   ∧ TopicMastery.mastery tm = ofZ 0)
  ∨ (0 < TopicMastery.questionsAnswered tm
     ∧ TopicMastery.mastery tm = masteryFromCounters tm).

(** Of the entries with one topic name only the first is ever answered. *)
Definition answeredFirst (l : list TopicMastery.t) : Prop :=
  ∀ i j tmi tmj,
    (i < j)%nat → l !! i = Some tmi → l !! j = Some tmj →
    TopicMastery.topic tmi = TopicMastery.topic tmj →
    TopicMastery.questionsAnswered tmj = 0.


(* ================================================================== *)
(** ** Further vocabulary *)
(* ================================================================== *)

(** The xp a student needs to leave level [level]:
    [100 + 50 * (2 + ... + level)]. *)
Definition threshold (level : Z) : Z := 25 * level * (level + 1) + 50.

(** The seconds of a list of answers. *)
Definition secondsOf (answers : list Answer.t) : Z :=
  foldr (λ a total, Answer.timeSpent a + total) 0 answers.

(** The counters of an attempt agree with its answer records. *)
Definition counted (attempt : Attempt.t) : Prop :=
  Attempt.correctAnswers attempt
  = Z.of_nat (length (filter (λ a, Answer.isCorrect a = true)
                        (Attempt.answers attempt)))
  ∧ Attempt.timeSpent attempt = secondsOf (Attempt.answers attempt).

(** The questions answered, and answered right, over all topic entries. *)
Definition answeredIn (l : list TopicMastery.t) : Z :=
  foldr (λ tm total, TopicMastery.questionsAnswered tm + total) 0 l.

Definition correctIn (l : list TopicMastery.t) : Z :=
  foldr (λ tm total, TopicMastery.correctAnswers tm + total) 0 l.

(** The attempts the routes produce: [/start] creates an attempt,
    [/submit-answer] records an answer that passes validation, and
    completes with a score that is a number. *)
Inductive played : Attempt.t → Prop :=
| played_new student quizId quiz :
    played (newAttempt student quizId quiz)
| played_answer attempt body isCorrect timestamp :
    played attempt → questionId body ≠ "" → answer body ≠ "" →
    played (recordAnswer attempt body isCorrect timestamp)
| played_complete attempt quiz completed :
    played attempt →
    isNaN (Attempt.score (completeAttempt attempt quiz completed)) = false →
    played (completeAttempt attempt quiz completed).

(** A student's requests to [POST /submit-answer], one after the other. *)
Definition submitAll `{!JsString} (db : Db) (user : User) (clk : Clock)
    (random : Qc) (bodies : list SubmitBody) : Db :=
  foldl (λ db body, snd (submitAnswer db user body clk random)) db bodies.

(* ================================================================== *)
(** ** Classes: the schema and the membership routes *)
(* ================================================================== *)

(** An entry of [classSchema.students] *)
Module Member.
Record t := {
  student : ObjectId;
  joinedAt : Date;
  isActive : bool
}.
End Member.

(** [classSchema.settings] *)
Module ClassSettings.
Record t := {
  allowStudentJoin : bool;
  maxStudents : Z;
  requireApproval : bool
}.
End ClassSettings.

(** [classSchema.stats] *)
Module ClassStats.
Record t := {
  totalStudents : Z;
  activeStudents : Z;
  totalQuizzes : Z
}.
End ClassStats.

(** [classSchema] *)
Module Class.
Record t := {
  name : string;
  description : string;
  code : string;
  instructor : ObjectId;
  students : list Member.t;
  quizzes : list ObjectId;
  settings : ClassSettings.t;
  stats : ClassStats.t;
  isActive : bool
}.

Definition set_students (l : list Member.t) (c : t) : t :=
  {| name := name c; description := description c; code := code c;
     instructor := instructor c; students := l; quizzes := quizzes c;
     settings := settings c; stats := stats c; isActive := isActive c |}.

(** [classSchema.methods.updateStats] *)
Definition updateStats (this : t) : t :=
  {| name := name this; description := description this; code := code this;
     instructor := instructor this; students := students this;
     quizzes := quizzes this; settings := settings this;
     stats :=
       {| ClassStats.totalStudents := Z.of_nat (length (students this));
          ClassStats.activeStudents :=
            Z.of_nat (length (filter (λ s, Member.isActive s = true)
                                (students this)));
          ClassStats.totalQuizzes := Z.of_nat (length (quizzes this)) |};
     isActive := isActive this |}.
End Class.

(** An entry of the [enrolledClasses] of a user. *)
Module Enrollment.
Record t := {
  class : ObjectId;
  joinedAt : Date;
  isActive : bool
}.
End Enrollment.

(** Modelled from the spec: the [User] schema is not among the source
    files.  An account is a user with the two lists the class routes read
    and write, [enrolledClasses] (entries [{ class, joinedAt, isActive }])
    and [createdClasses]. *)
Record Account := {
  user : User;
  enrolledClasses : list Enrollment.t;
  createdClasses : list ObjectId
}.

Definition set_enrolledClasses (l : list Enrollment.t) (a : Account) : Account :=
  {| user := user a; enrolledClasses := l; createdClasses := createdClasses a |}.

(** The [Class] collection, in its natural order, with the [_id] of each
    document, and the [User] collection. *)
Record ClassDb := {
  classes : list (ObjectId * Class.t);
  accounts : gmap ObjectId Account
}.

(** [Class.findById(id)] *)
Definition findClassById (id : ObjectId) (db : ClassDb)
  : option (ObjectId * Class.t) :=
  snd <$> list_find (λ e, e.1 = id) (classes db).

(** [doc.save()] of a class: the [pre('save')] hook updates the stats, and
    the document replaces the one with its [_id]. *)
Definition saveClass (id : ObjectId) (c : Class.t) (db : ClassDb) : ClassDb :=
  {| classes :=
       (λ e, if bool_decide (e.1 = id) then (id, Class.updateStats c) else e)
         <$> classes db;
     accounts := accounts db |}.

(** [user.save()] *)
Definition saveAccount (a : Account) (db : ClassDb) : ClassDb :=
  {| classes := classes db;
     accounts := <[_id (user a) := a]> (accounts db) |}.

Inductive ClassResponse :=
| ClassFailure (status : Z) (message : string)
| ClassJoined (id : ObjectId) (name code description : string)
    (instructor : ObjectId) (joinedAt : Date)
| ClassOk (message : string).

(** The instants [POST /join] reads. *)
Record JoinClock := {
  memberAt : Date;        (* [joinedAt] of the class entry *)
  enrolledAt : Date;      (* [joinedAt] of the user entry *)
  answeredJoinAt : Date   (* [joinedAt] of the response *)
}.

(** [POST /join]; [classCode] is [req.body.classCode], [account] is
    [req.user]. *)
Definition joinClass `{!JsString} (db : ClassDb) (account : Account)
    (classCode : option string) (clk : JoinClock) : ClassResponse * ClassDb :=
  if negb (bool_decide (role (user account) = student)) then
    (ClassFailure 403 "Only students can join classes", db)
  else
  match classCode with
  | None | Some EmptyString => (ClassFailure 400 "Class code is required", db)
  | Some classCode =>
  match list_find (λ e, Class.code e.2 = toUpperCase classCode
                        ∧ Class.isActive e.2 = true
                        ∧ ClassSettings.allowStudentJoin (Class.settings e.2) = true)
                  (classes db) with
  | None =>
      (ClassFailure 404 "Invalid class code or class not accepting new students", db)
  | Some (_, (classId, classToJoin)) =>
      if bool_decide (is_Some
           (list_find (λ s, Member.student s = _id (user account))
                      (Class.students classToJoin)))
      then (ClassFailure 400 "You are already enrolled in this class", db)
      else if Z.of_nat (length (Class.students classToJoin))
              >=? ClassSettings.maxStudents (Class.settings classToJoin)
      then (ClassFailure 400 "Class has reached maximum capacity", db)
      else
        let classToJoin :=
          Class.set_students
            (Class.students classToJoin
             ++ [ {| Member.student := _id (user account);
                     Member.joinedAt := memberAt clk;
                     Member.isActive := true |} ])
            classToJoin in
        let db := saveClass classId classToJoin db in
        let account :=
          set_enrolledClasses
            (enrolledClasses account
             ++ [ {| Enrollment.class := classId;
                     Enrollment.joinedAt := enrolledAt clk;
                     Enrollment.isActive := true |} ])
            account in
        let db := saveAccount account db in
        (ClassJoined classId (Class.name classToJoin) (Class.code classToJoin)
           (Class.description classToJoin) (Class.instructor classToJoin)
           (answeredJoinAt clk), db)
  end end.

(** [DELETE /:classId/leave] *)
Definition leaveClass (db : ClassDb) (account : Account) (classId : ObjectId)
  : ClassResponse * ClassDb :=
  if negb (bool_decide (role (user account) = student)) then
    (ClassFailure 403 "Only students can leave classes", db)
  else
  match findClassById classId db with
  | None => (ClassFailure 404 "Class not found", db)
  | Some (_, classToLeave) =>
      let classToLeave :=
        Class.set_students
          (filter (λ s, Member.student s ≠ _id (user account))
                  (Class.students classToLeave))
          classToLeave in
      let db := saveClass classId classToLeave db in
      let account :=
        set_enrolledClasses
          (filter (λ ec, Enrollment.class ec ≠ classId) (enrolledClasses account))
          account in
      let db := saveAccount account db in
      (ClassOk "Successfully left the class", db)
  end.

(** [DELETE /:classId/students/:studentId] *)
Definition removeStudent (db : ClassDb) (account : Account)
    (classId studentId : ObjectId) : ClassResponse * ClassDb :=
  if negb (bool_decide (role (user account) = instructor)) then
    (ClassFailure 403 "Only instructors can remove students", db)
  else
  match findClassById classId db with
  | None => (ClassFailure 404 "Class not found or access denied", db)
  | Some (_, classToUpdate) =>
      if negb (bool_decide (Class.instructor classToUpdate = _id (user account)))
      then (ClassFailure 404 "Class not found or access denied", db)
      else
        let classToUpdate :=
          Class.set_students
            (filter (λ s, Member.student s ≠ studentId)
                    (Class.students classToUpdate))
            classToUpdate in
        let db := saveClass classId classToUpdate db in
        let db :=
          match accounts db !! studentId with
          | Some removed =>
              saveAccount
                (set_enrolledClasses
                   (filter (λ ec, Enrollment.class ec ≠ classId)
                           (enrolledClasses removed))
                   removed) db
          | None => db
          end in
        (ClassOk "Student removed from class successfully", db)
  end.

(* ================================================================== *)
(** ** Analytics helpers (routes/analytics.js, routes/progress.js) *)
(* ================================================================== *)

(** [a + b] *)
Definition plus (a b : number) : number :=
  match a, b with
  | NaN, _ | _, NaN => NaN
  | Finite x, Finite y => Finite (x + y)%Qc
  | Finite _, Infinity m => Infinity m
  | Infinity n, Finite _ => Infinity n
  | Infinity n, Infinity m => if Bool.eqb n m then Infinity n else NaN
  end.

(** The object [calculateScoreDistribution] returns, one field per key. *)
Module Distribution.
Record t := {
  d0_20 : Z;
  d21_40 : Z;
  d41_60 : Z;
  d61_80 : Z;
  d81_100 : Z
}.
End Distribution.

(** The body of the [forEach] of [calculateScoreDistribution]. *)
Definition countScore (distribution : Distribution.t) (record : Progress.t)
  : Distribution.t :=
  let score := Progress.bestScore record in
  let '(Distribution.Build_t a b c d e) := distribution in
  if leb score (ofZ 20) then Distribution.Build_t (a + 1) b c d e
  else if leb score (ofZ 40) then Distribution.Build_t a (b + 1) c d e
  else if leb score (ofZ 60) then Distribution.Build_t a b (c + 1) d e
  else if leb score (ofZ 80) then Distribution.Build_t a b c (d + 1) e
  else Distribution.Build_t a b c d (e + 1).

(** [calculateScoreDistribution] *)
Definition calculateScoreDistribution (progressRecords : list Progress.t)
  : Distribution.t :=
  foldl countScore (Distribution.Build_t 0 0 0 0 0) progressRecords.

(** A JavaScript [Map] with string keys: the entries in insertion order,
    one per key. *)
Definition JsMap (V : Type) : Type := list (string * V).

(** [map.has(k)] *)
Definition map_has {V} (k : string) (m : JsMap V) : bool :=
  bool_decide (k ∈ m.*1).

(** [if (map.has(k)) { update map.get(k) in place } else map.set(k, v)] *)
Definition upsert {V} (k : string) (v : V) (update : V → V) (m : JsMap V)
  : JsMap V :=
  if map_has k m
  then (λ e, if bool_decide (e.1 = k) then (e.1, update e.2) else e) <$> m
  else m ++ [(k, v)].

(** The values of the [topicMap] of [calculateTopicMastery]. *)
Module TopicTotals.
Record t := {
  topic : string;
  totalQuestions : Z;
  correctAnswers : Z;
  students : Z
}.
End TopicTotals.

(** The entries [calculateTopicMastery] returns. *)
Module TopicSummary.
Record t := {
  topic : string;
  mastery : number;
  totalQuestions : Z;
  students : Z
}.
End TopicSummary.

(** The body of the inner [forEach] of [calculateTopicMastery]. *)
Definition addTopicTotals (topicMap : JsMap TopicTotals.t)
    (topic : TopicMastery.t) : JsMap TopicTotals.t :=
  upsert (TopicMastery.topic topic)
    {| TopicTotals.topic := TopicMastery.topic topic;
       TopicTotals.totalQuestions := TopicMastery.questionsAnswered topic;
       TopicTotals.correctAnswers := TopicMastery.correctAnswers topic;
       TopicTotals.students := 1 |}
    (λ existing,
       {| TopicTotals.topic := TopicTotals.topic existing;
          TopicTotals.totalQuestions :=
            TopicTotals.totalQuestions existing
            + TopicMastery.questionsAnswered topic;
          TopicTotals.correctAnswers :=
            TopicTotals.correctAnswers existing
            + TopicMastery.correctAnswers topic;
          TopicTotals.students := TopicTotals.students existing + 1 |})
    topicMap.

Definition topicTotals (progressRecords : list Progress.t)
  : JsMap TopicTotals.t :=
  foldl (λ topicMap record,
           foldl addTopicTotals topicMap (Progress.topicMastery record))
        [] progressRecords.

(** [calculateTopicMastery]; [Math.round] is taken of the doubles the
    quotient and the product are. *)
Definition calculateTopicMastery (progressRecords : list Progress.t)
  : list TopicSummary.t :=
  (λ e,
     let topic := e.2 in
     {| TopicSummary.topic := TopicTotals.topic topic;
        TopicSummary.mastery :=
          if TopicTotals.totalQuestions topic >? 0
          then round (rounded
                 (mul (rounded (div (ofZ (TopicTotals.correctAnswers topic))
                                    (ofZ (TopicTotals.totalQuestions topic))))
                      (ofZ 100)))
          else ofZ 0;
        TopicSummary.totalQuestions := TopicTotals.totalQuestions topic;
        TopicSummary.students := TopicTotals.students topic |})
  <$> topicTotals progressRecords.

(** The body of the inner [forEach] of [calculateOverallMastery]; a value
    of [allTopics] is the pair [(questionsAnswered, correctAnswers)]. *)
Definition addTopicCounts (allTopics : JsMap (Z * Z)) (topic : TopicMastery.t)
  : JsMap (Z * Z) :=
  upsert (TopicMastery.topic topic)
    (TopicMastery.questionsAnswered topic, TopicMastery.correctAnswers topic)
    (λ existing,
       (existing.1 + TopicMastery.questionsAnswered topic,
        existing.2 + TopicMastery.correctAnswers topic))
    allTopics.

(** [calculateOverallMastery] *)
Definition calculateOverallMastery (progressRecords : list Progress.t)
  : number :=
  if (length progressRecords =? 0)%nat then ofZ 0 else
  let allTopics :=
    foldl (λ allTopics record,
             foldl addTopicCounts allTopics (Progress.topicMastery record))
          [] progressRecords in
  let topicMasteries :=
    (λ e, let topic := e.2 in
          if topic.1 >? 0
          then mul (div (ofZ topic.2) (ofZ topic.1)) (ofZ 100)
          else ofZ 0) <$> allTopics in
  if (0 <? length topicMasteries)%nat
  then div (foldl plus (ofZ 0) topicMasteries)
           (ofZ (Z.of_nat (length topicMasteries)))
  else ofZ 0.

(** The topic entries of the records, in the order the two nested
    [forEach] visit them. *)
Definition topicEntries (progressRecords : list Progress.t)
  : list TopicMastery.t :=
  concat (Progress.topicMastery <$> progressRecords).

(* ================================================================== *)
(** ** Sample data for the class routes and the analytics *)
(* ================================================================== *)

(** Carol teaches a class of at most two students; Dave is enrolled, Bob
    is not. *)
Definition sampleClass : Class.t :=
  {| Class.name := "Algebra"; Class.description := "";
     Class.code := "ABC123"; Class.instructor := "carol";
     Class.students :=
       [ {| Member.student := "dave"; Member.joinedAt := 10;
            Member.isActive := true |} ];
     Class.quizzes := [];
     Class.settings :=
       {| ClassSettings.allowStudentJoin := true;
          ClassSettings.maxStudents := 2;
          ClassSettings.requireApproval := false |};
     Class.stats :=
       {| ClassStats.totalStudents := 1; ClassStats.activeStudents := 1;
          ClassStats.totalQuizzes := 0 |};
     Class.isActive := true |}.

Definition bob : Account :=
  {| user := {| _id := "bob"; role := student |};
     enrolledClasses := []; createdClasses := [] |}.

Definition carol : Account :=
  {| user := {| _id := "carol"; role := instructor |};
     enrolledClasses := []; createdClasses := ["class1"] |}.

Definition dave : Account :=
  {| user := {| _id := "dave"; role := student |};
     enrolledClasses :=
       [ {| Enrollment.class := "class1"; Enrollment.joinedAt := 10;
            Enrollment.isActive := true |} ];
     createdClasses := [] |}.

Definition sampleClasses : ClassDb :=
  {| classes := [("class1", sampleClass)];
     accounts := {[ "bob" := bob; "carol" := carol; "dave" := dave ]} |}.

Definition joinClock : JoinClock :=
  {| memberAt := 2000; enrolledAt := 2001; answeredJoinAt := 2002 |}.

(** Two progress records: topic A answered 3 times, 2 right, then twice,
    both right; topic B never answered. *)
Definition mkProgress (student quiz : ObjectId) (bestScore : number)
    (topicMastery : list TopicMastery.t) : Progress.t :=
  {| Progress.student := student; Progress.quiz := quiz;
     Progress.attempts := []; Progress.bestScore := bestScore;
     Progress.totalAttempts := 1; Progress.lastAttempt := None;
     Progress.topicMastery := topicMastery;
     Progress.weakTopics := []; Progress.strongTopics := [] |}.

Definition sampleRecords : list Progress.t :=
  [ mkProgress "alice" "quiz1" (ofZ 67)
      [ {| TopicMastery.topic := "A"; TopicMastery.mastery := ofZ 67;
           TopicMastery.questionsAnswered := 3;
           TopicMastery.correctAnswers := 2 |};
        {| TopicMastery.topic := "B"; TopicMastery.mastery := ofZ 0;
           TopicMastery.questionsAnswered := 0;
           TopicMastery.correctAnswers := 0 |} ];
    mkProgress "alice" "quiz2" (ofZ 100)
      [ {| TopicMastery.topic := "A"; TopicMastery.mastery := ofZ 100;
           TopicMastery.questionsAnswered := 2;
           TopicMastery.correctAnswers := 2 |} ] ].

(** Two progress records with 23 right answers out of 40 on topic A
    between them: [23 / 40 * 100] is [57.49999999999999] in doubles. *)
Definition roundingRecords : list Progress.t :=
  [ mkProgress "alice" "quiz1" (ofZ 60)
      [ {| TopicMastery.topic := "A"; TopicMastery.mastery := ofZ 60;
           TopicMastery.questionsAnswered := 20;
           TopicMastery.correctAnswers := 12 |} ];
    mkProgress "bob" "quiz1" (ofZ 55)
      [ {| TopicMastery.topic := "A"; TopicMastery.mastery := ofZ 55;
           TopicMastery.questionsAnswered := 20;
           TopicMastery.correctAnswers := 11 |} ] ].

(** A quiz that counts 0 questions although it has one, and Alice's new
    attempt at it. *)
Definition emptyQuiz : Quiz.t :=
  {| Quiz.questions := [ mkQuestion "q1" "A" easy ];
     Quiz.topics := ["A"];
     Quiz.totalQuestions := 0;
     Quiz.timeLimit := 30;
     Quiz.isActive := true;
     Quiz.adaptiveMode := false |}.

Definition emptyDb : Db :=
  {| attempts := {[ "att1" := newAttempt "alice" "quiz1" emptyQuiz ]};
     quizzes := {[ "quiz1" := emptyQuiz ]};
     progress := ∅;
     gameStates := ∅ |}.

(** A draw of [Math.random()] whose product with 9 is [8] in doubles, and
    just below 8 exactly. *)
Definition lateDraw : Qc := Q2Qc (8006399337547548 # 9007199254740992).

(** *** Sample data computed by the handlers, on the ASCII engine *)

Section Samples.
Local Existing Instance asciiStrings.

Definition twoAnswered : Db :=
  let db := snd (submitAnswer threeDb alice (mkBody "q1" "yes" 10)
                   sampleClock (Qc_of_Z 0)) in
  snd (submitAnswer db alice (mkBody "q2" "no" 10) sampleClock (Qc_of_Z 0)).

(** The sample database after Alice's wrong answer to its first question. *)
Definition oneAnswered : Db :=
  snd (submitAnswer sampleDb alice (mkBody "e1" "no" 5) sampleClock (Qc_of_Z 0)).


(** Alice's attempts in the sample databases. *)
Definition oneAnsweredAttempt : Attempt.t :=
  answeredAttempt (newAttempt "alice" "quiz1" sampleQuiz)
    (mkBody "e1" "no" 5) (mkQuestion "e1" "A" easy) sampleClock.

Definition twoAnsweredAttempt : Attempt.t :=
  answeredAttempt
    (answeredAttempt (newAttempt "alice" "quiz1" threeQuiz)
       (mkBody "q1" "yes" 10) (mkQuestion "q1" "A" easy) sampleClock)
    (mkBody "q2" "no" 10) (mkQuestion "q2" "A" medium) sampleClock.

(** Alice's attempt at the one-question quiz, completed with the right
    answer in five seconds. *)
Definition perfectAttempt : Attempt.t :=
  completedAttempt (newAttempt "alice" "quiz1" tinyQuiz)
    (mkBody "q1" "yes" 5) (mkQuestion "q1" "A" easy) tinyQuiz sampleClock.

(** The one-question quiz after Alice's right answer: her attempt is
    completed. *)
Definition tinyCompleted : Db :=
  snd (submitAnswer (tinyDb ∅) alice (mkBody "q1" "yes" 5) sampleClock
         (Qc_of_Z 0)).

End Samples.
(* ================================================================== *)
(** ** Doubles *)
(* ================================================================== *)

Lemma nearestEven_bounds num den :
  0 < den →
  2 * num - den <= 2 * den * nearestEven num den <= 2 * num + den.
Proof.
  intros Hden. unfold nearestEven.
  pose proof (Z.div_mod num den ltac:(lia)) as Hdiv.
  pose proof (Z.mod_pos_bound num den Hden) as Hmod.
  destruct (Z.ltb_spec den (2 * (num mod den)));
    destruct (Z.eqb_spec (2 * (num mod den)) den);
    destruct (Z.odd (num / den)); cbn [orb andb]; nia.
Qed.

Lemma nearestEven_nonneg num den : 0 <= num → 0 < den → 0 <= nearestEven num den.
Proof.
  intros Hnum Hden. unfold nearestEven.
  pose proof (Z.div_pos num den Hnum Hden).
  destruct (_ || _); lia.
Qed.

Lemma pow2_succ n : 0 <= n → 2 ^ (n + 1) = 2 * 2 ^ n.
Proof. intros Hn. by rewrite Z.add_1_r, Z.pow_succ_r. Qed.

Lemma pow2_pos n : 0 <= n → 0 < 2 ^ n.
Proof. intros Hn. by apply Z.pow_pos_nonneg. Qed.

Lemma exponent_spec p q :
  0 < p → 0 < q →
  (0 <= exponent p q → q * 2 ^ exponent p q <= p < q * 2 ^ (exponent p q + 1))
  ∧ (exponent p q < 0 →
     q <= p * 2 ^ (- exponent p q) ∧ p * 2 ^ (- exponent p q - 1) < q).
Proof.
  intros Hp Hq. unfold exponent.
  destruct (Z.log2_spec p Hp) as [Hp1 Hp2].
  destruct (Z.log2_spec q Hq) as [Hq1 Hq2].
  pose proof (Z.log2_nonneg p) as Ha. pose proof (Z.log2_nonneg q) as Hb.
  set (a := Z.log2 p) in *. set (b := Z.log2 q) in *.
  rewrite Z.pow_succ_r in Hp2, Hq2 by done.
  destruct (Z.leb_spec 0 (a - b)) as [He|He].
  - assert (Hab : 2 ^ a = 2 ^ b * 2 ^ (a - b))
      by (rewrite <- Z.pow_add_r by lia; f_equal; lia).
    assert (0 < 2 ^ (a - b)) by (apply Z.pow_pos_nonneg; lia).
    assert (0 < 2 ^ b) by (apply Z.pow_pos_nonneg; lia).
    destruct (Z.ltb_spec p (q * 2 ^ (a - b))) as [Hlt|Hge].
    + split.
      * intros HE.
        assert (Hpow : 2 ^ (a - b) = 2 * 2 ^ (a - b - 1))
          by (rewrite <- Z.pow_succ_r by lia; f_equal; lia).
        replace (a - b - 1 + 1) with (a - b) by lia.
        assert (0 < 2 ^ (a - b - 1)) by (apply Z.pow_pos_nonneg; lia).
        nia.
      * intros HE. assert (a - b = 0) as Heq by lia. rewrite Heq in *.
        change (- (0 - 1)) with 1. change (- (0 - 1) - 1) with 0.
        rewrite Z.pow_0_r in *. rewrite Z.pow_1_r. lia.
    + split; [|lia]. intros _.
      rewrite pow2_succ by lia. nia.
  - assert (Hab : 2 ^ b = 2 ^ a * 2 ^ (- (a - b)))
      by (rewrite <- Z.pow_add_r by lia; f_equal; lia).
    assert (0 < 2 ^ (- (a - b))) by (apply Z.pow_pos_nonneg; lia).
    assert (0 < 2 ^ a) by (apply Z.pow_pos_nonneg; lia).
    destruct (Z.ltb_spec (p * 2 ^ (- (a - b))) q) as [Hlt|Hge].
    + split; [lia|]. intros _.
      replace (- (a - b - 1)) with (Z.succ (- (a - b))) by lia.
      replace (Z.succ (- (a - b)) - 1) with (- (a - b)) by lia.
      rewrite Z.pow_succ_r by lia. nia.
    + split; [lia|]. intros _. split; [lia|].
      assert (Hpow : 2 ^ (- (a - b)) = 2 * 2 ^ (- (a - b) - 1))
        by (rewrite <- Z.pow_succ_r by lia; f_equal; lia).
      assert (0 < 2 ^ (- (a - b) - 1)) by (apply Z.pow_pos_nonneg; lia).
      nia.
Qed.

Lemma pow2_split a b : 0 <= a → 0 <= b → 2 ^ (a + b) = 2 ^ a * 2 ^ b.
Proof. intros. by apply Z.pow_add_r. Qed.

Lemma nearestDouble_nonneg p q : 0 < p → 0 < q → (0 <= nearestDouble p q)%Q.
Proof.
  intros Hp Hq. unfold nearestDouble.
  destruct (Z.leb_spec 0 (exponent p q - 52)) as [Hs|Hs].
  - pose proof (pow2_pos _ Hs) as Hpow.
    pose proof (nearestEven_nonneg p (q * 2 ^ (exponent p q - 52))
                  (Z.lt_le_incl _ _ Hp) (Z.mul_pos_pos _ _ Hq Hpow)).
    unfold Qle. cbn [Qnum Qden inject_Z]. nia.
  - pose proof (pow2_pos (- (exponent p q - 52)) ltac:(lia)) as Hpow.
    pose proof (nearestEven_nonneg (p * 2 ^ (- (exponent p q - 52))) q
                  (Z.lt_le_incl _ _ (Z.mul_pos_pos _ _ Hp Hpow)) Hq).
    unfold Qle. cbn [Qnum Qden]. lia.
Qed.

(** The relative error of rounding is at most [2^-53]. *)
Lemma nearestDouble_upper p q :
  0 < p → 0 < q →
  (nearestDouble p q
   <= (p * 9007199254740993) # Z.to_pos (q * 9007199254740992))%Q.
Proof.
  intros Hp Hq. unfold nearestDouble.
  destruct (exponent_spec p q Hp Hq) as [Hpos Hneg].
  set (E := exponent p q) in *.
  change 9007199254740992 with (2 * 2 ^ 52).
  change 9007199254740993 with (2 * 2 ^ 52 + 1).
  assert (0 < 2 ^ 52) by done.
  destruct (Z.leb_spec 0 (E - 52)) as [Hs|Hs].
  - pose proof (pow2_pos _ Hs) as Hpow.
    destruct (nearestEven_bounds p (q * 2 ^ (E - 52)) ltac:(nia)) as [_ Hup].
    destruct (Hpos ltac:(lia)) as [Hlow _].
    replace E with ((E - 52) + 52) in Hlow at 1 by lia.
    rewrite pow2_split in Hlow by lia.
    unfold Qle. cbn [Qnum Qden inject_Z]. rewrite Z2Pos.id by nia.
    nia.
  - pose proof (pow2_pos (- (E - 52)) ltac:(lia)) as Hpow.
    destruct (nearestEven_bounds (p * 2 ^ (- (E - 52))) q Hq) as [_ Hup].
    assert (Hq52 : q * 2 ^ 52 <= p * 2 ^ (- (E - 52))).
    { destruct (Z.leb_spec 0 E) as [HE|HE].
      - destruct (Hpos HE) as [Hlow _].
        assert (2 ^ 52 = 2 ^ E * 2 ^ (- (E - 52))) as ->
          by (rewrite <- pow2_split by lia; f_equal; lia).
        pose proof (pow2_pos E HE). nia.
      - destruct (Hneg HE) as [Hlow _].
        assert (2 ^ (- (E - 52)) = 2 ^ (- E) * 2 ^ 52) as ->
          by (rewrite <- pow2_split by lia; f_equal; lia).
        nia. }
    unfold Qle. cbn [Qnum Qden]. rewrite !Z2Pos.id by nia.
    nia.
Qed.

Lemma Qc_of_pos (x : Qc) p : Qnum x = Z.pos p → (this x == Z.pos p # Qden x)%Q.
Proof. intros Hp. destruct x as [[n d] Hc]. cbn in *. by subst. Qed.

Lemma Qc_nonneg_num (x : Qc) : (Q2Qc 0 <= x)%Qc → 0 <= Qnum x.
Proof.
  destruct x as [[n d] Hc]. unfold Qcle, Qle. cbn [this Qnum Qden].
  change (Qnum (Q2Qc 0)) with 0. change (QDen (Q2Qc 0)) with 1. lia.
Qed.

Lemma Qc_zero_num (x : Qc) : Qnum x = 0 → x = Q2Qc 0.
Proof.
  intros Hnum. apply Qc_is_canon. destruct x as [[n d] Hc].
  cbn [this Qnum] in *. subst. unfold Qeq. cbn [Qnum Qden].
  change (Qnum (Q2Qc 0)) with 0. lia.
Qed.

Lemma binary64_nonneg (x : Qc) : (Q2Qc 0 <= x)%Qc → (Q2Qc 0 <= binary64 x)%Qc.
Proof.
  intros Hx. unfold binary64.
  destruct (Qnum x) as [|p|p] eqn:Hnum; [done| |].
  - unfold Qcle. cbn [this Q2Qc]. rewrite !Qred_correct.
    by apply nearestDouble_nonneg.
  - apply Qc_nonneg_num in Hx. lia.
Qed.

Lemma binary64_upper (x : Qc) :
  (Q2Qc 0 <= x)%Qc →
  (binary64 x <= x * Q2Qc (9007199254740993 # 9007199254740992))%Qc.
Proof.
  intros Hx. unfold binary64.
  destruct (Qnum x) as [|p|p] eqn:Hnum.
  - by rewrite (Qc_zero_num x Hnum).
  - destruct x as [[n d] Hc]. cbn [this Qnum Qden] in *. subst n.
    unfold Qcle, Qcmult. cbn [this Q2Qc]. rewrite !Qred_correct.
    eapply Qle_trans; [by apply nearestDouble_upper|].
    unfold Qle, Qmult. cbn [Qnum Qden]. rewrite Z2Pos.id by lia.
    lia.
  - apply Qc_nonneg_num in Hx. lia.
Qed.

(** A double below 1 is at most [1 - 2^-53]. *)
Lemma double_below_one (r : Qc) :
  (Q2Qc 0 <= r)%Qc → (r < Q2Qc 1)%Qc → isDouble r →
  (r <= Q2Qc (9007199254740991 # 9007199254740992))%Qc.
Proof.
  intros Hr0 Hr1 Hd. unfold isDouble, binary64 in Hd.
  destruct (Qnum r) as [|p|p] eqn:Hnum.
  - by rewrite (Qc_zero_num r Hnum).
  - assert (Heq : (nearestDouble (Z.pos p) (Z.pos (Qden r)) == this r)%Q).
    { rewrite <- Hd at 2. cbn [this Q2Qc]. by rewrite Qred_correct. }
    destruct r as [[n d] Hc]. cbn [this Qnum Qden] in *. subst n.
    assert (Hlt : Z.pos p < Z.pos d).
    { unfold Qclt, Qlt in Hr1. cbn [this Qnum Qden] in Hr1.
      change (Qnum (Q2Qc 1)) with 1 in Hr1.
      change (QDen (Q2Qc 1)) with 1 in Hr1. lia. }
    destruct (exponent_spec (Z.pos p) (Z.pos d) ltac:(done) ltac:(done))
      as [Hpos Hneg].
    unfold nearestDouble in Heq.
    set (E := exponent (Z.pos p) (Z.pos d)) in *.
    assert (HE : E < 0).
    { destruct (Z.ltb_spec E 0) as [|HE]; [done|].
      destruct (Hpos HE) as [Hlow _]. pose proof (pow2_pos E HE). nia. }
    destruct (Hneg HE) as [Hlow Hup].
    destruct (Z.leb_spec 0 (E - 52)) as [Hs|Hs]; [lia|].
    unfold Qcle. cbn [this Q2Qc]. rewrite Qred_correct.
    unfold Qle. cbn [Qnum Qden].
    destruct (Z.eq_dec E (-1)) as [HE1|HE1].
    + rewrite HE1 in Heq. change (- (-1 - 52)) with 53 in Heq.
      unfold Qeq in Heq. cbn [Qnum Qden] in Heq.
      change (Z.pos (Z.to_pos (2 ^ 53))) with 9007199254740992 in Heq.
      set (M := nearestEven _ _) in *.
      change 9007199254740991 with (9007199254740992 - 1).
      set (K := 9007199254740992) in *.
      assert (M < K) by (apply (Z.mul_lt_mono_pos_r (Z.pos d)); lia).
      nia.
    + assert (Hpow : 2 ^ (- E - 1) = 2 * 2 ^ (- E - 2))
        by (rewrite <- Z.pow_succ_r by lia; f_equal; lia).
      pose proof (pow2_pos (- E - 2) ltac:(lia)). nia.
  - apply Qc_nonneg_num in Hr0. lia.
Qed.

(** [Math.floor(random * n)] is an index below [n]. *)
Lemma random_index (random : Qc) (len : nat) :
  (0 < len)%nat →
  (Qc_of_Z 0 <= random)%Qc ∧ (random < Qc_of_Z 1)%Qc →
  isDouble random →
  0 <= Qfloor (binary64 (random * Qc_of_Z (Z.of_nat len))%Qc) < Z.of_nat len.
Proof.
  intros Hlen [Hr0 Hr1] Hd.
  pose proof (double_below_one random Hr0 Hr1 Hd) as Hr.
  set (n := Z.of_nat len). assert (Hn : 0 < n) by lia.
  assert (Hx0 : (Q2Qc 0 <= random * Qc_of_Z n)%Qc).
  { unfold Qcle, Qcmult in *. cbn [this Q2Qc Qc_of_Z] in *.
    rewrite !Qred_correct in *. apply Qmult_le_0_compat; [done|].
    unfold Qle. cbn. lia. }
  pose proof (binary64_nonneg _ Hx0) as Hb0.
  pose proof (binary64_upper _ Hx0) as Hb1.
  set (y := binary64 (random * Qc_of_Z n)) in *.
  unfold Qcle, Qcmult in *. cbn [this Q2Qc Qc_of_Z] in *.
  rewrite !Qred_correct in *.
  split.
  - change 0 with (Qfloor 0). by apply Qfloor_resp_le.
  - assert (Hy : (this y < inject_Z n)%Q).
    { assert (Hn' : (0 < inject_Z n)%Q) by (unfold Qlt; cbn; lia).
      set (r := this random) in *. set (m := inject_Z n) in *.
      assert (Hrm : (r * m <= (9007199254740991 # 9007199254740992) * m)%Q)
        by (apply Qmult_le_compat_r; [done|by apply Qlt_le_weak]).
      lra. }
    pose proof (Qfloor_le (this y)) as Hfloor.
    assert (Hlt : (inject_Z (Qfloor (this y)) < inject_Z n)%Q)
      by (eapply Qle_lt_trans; done).
    by rewrite <- Zlt_Qlt in Hlt.
Qed.


(* ================================================================== *)
(** ** Numbers *)
(* ================================================================== *)

#[local] Arguments Qcmult : simpl never.
#[local] Arguments Qcdiv : simpl never.
#[local] Arguments Qcplus : simpl never.
#[local] Arguments Qc_of_Z : simpl never.
#[local] Arguments Q2Qc : simpl never.

Section Engine.

(** The JavaScript engine: every theorem of this section holds whatever
    its string methods do. *)
Context {engine : JsString}.

Lemma div_ofZ (q : Qc) (z : Z) :
  z ≠ 0 → div (Finite q) (ofZ z) = Finite (q / Qc_of_Z z)%Qc.
Proof.
  intros Hz. unfold div, ofZ.
  rewrite bool_decide_false; [done|].
  intros H. by apply Z2Qc_inj in H.
Qed.

(* ================================================================== *)
(** ** Levels *)
(* ================================================================== *)

Section LevelLoop.

Variable xp : Z.

(** The level never decreases along the loop. *)
Lemma levelLoop_level_ge fuel level next :
  level <= fst (levelLoop fuel xp level next).
Proof.
  revert level next; induction fuel as [|fuel IH]; intros level next; simpl.
  - lia.
  - destruct (xp >=? next); simpl; [|lia].
    specialize (IH (level + 1) (next + (level + 1) * 50)). lia.
Qed.

(** With enough fuel the loop ends because its test fails. *)
Lemma levelLoop_exit fuel level next :
  1 <= level → xp - next < Z.of_nat fuel →
  xp < snd (levelLoop fuel xp level next).
Proof.
  revert level next; induction fuel as [|fuel IH]; intros level next Hl Hf; simpl.
  - lia.
  - destruct (Z.geb_spec xp next) as [Hge|Hlt]; simpl; [|lia].
    apply IH; lia.
Qed.

(** Once the test fails, more fuel changes nothing. *)
Lemma levelLoop_fuel fuel fuel' level next :
  1 <= level → xp - next < Z.of_nat fuel → (fuel <= fuel')%nat →
  levelLoop fuel' xp level next = levelLoop fuel xp level next.
Proof.
  revert fuel' level next; induction fuel as [|fuel IH];
    intros fuel' level next Hl Hf Hle.
  - destruct fuel' as [|fuel']; simpl; [done|].
    destruct (Z.geb_spec xp next); [lia|done].
  - destruct fuel' as [|fuel']; [lia|]. simpl.
    destruct (Z.geb_spec xp next); [|done].
    apply IH; lia.
Qed.

(** The threshold is the one of the level returned:
    [100 + 50 * (2 + ... + level)]. *)
Lemma levelLoop_threshold fuel level next :
  next = 25 * level * (level + 1) + 50 →
  snd (levelLoop fuel xp level next)
  = 25 * fst (levelLoop fuel xp level next)
       * (fst (levelLoop fuel xp level next) + 1) + 50.
Proof.
  revert level next; induction fuel as [|fuel IH]; intros level next Hn; simpl.
  - done.
  - destruct (xp >=? next); simpl; [|done].
    apply IH. lia.
Qed.

End LevelLoop.

(** A larger xp runs the loop at least as far. *)
Lemma levelLoop_mono fuel1 fuel2 xp1 xp2 level next :
  xp1 <= xp2 → (fuel1 <= fuel2)%nat →
  fst (levelLoop fuel1 xp1 level next) <= fst (levelLoop fuel2 xp2 level next).
Proof.
  revert fuel2 level next; induction fuel1 as [|fuel1 IH];
    intros fuel2 level next Hxp Hf; simpl.
  - apply levelLoop_level_ge.
  - destruct (Z.geb_spec xp1 next) as [Hge|Hlt]; simpl.
    + destruct fuel2 as [|fuel2]; [lia|]. simpl.
      destruct (Z.geb_spec xp2 next); [|lia].
      apply IH; lia.
    + apply levelLoop_level_ge.
Qed.

Lemma calculateLevel_level (g : GameState.t) :
  li_level (calculateLevel g)
  = fst (levelLoop (Z.to_nat (GameState.xp g)) (GameState.xp g) 1 100).
Proof.
  unfold calculateLevel.
  by destruct (levelLoop _ _ _ _).
Qed.

Lemma calculateLevel_next (g : GameState.t) :
  xpForNextLevel (calculateLevel g)
  = snd (levelLoop (Z.to_nat (GameState.xp g)) (GameState.xp g) 1 100).
Proof.
  unfold calculateLevel.
  by destruct (levelLoop _ _ _ _).
Qed.

(** [calculateLevel] returns by leaving its loop: the xp is below the next
    threshold, and the level is at least 1. *)
Lemma calculateLevel_exit (g : GameState.t) :
  GameState.xp g < xpForNextLevel (calculateLevel g)
  ∧ 1 <= li_level (calculateLevel g).
Proof.
  rewrite calculateLevel_next, calculateLevel_level. split.
  - apply levelLoop_exit; lia.
  - apply levelLoop_level_ge.
Qed.

(** [calculateLevel] reads [this.xp] only. *)
Lemma calculateLevel_xp (g1 g2 : GameState.t) :
  GameState.xp g1 = GameState.xp g2 → calculateLevel g1 = calculateLevel g2.
Proof.
  unfold calculateLevel. by intros ->.
Qed.

Lemma calculateLevel_mono (g1 g2 : GameState.t) :
  GameState.xp g1 <= GameState.xp g2 →
  li_level (calculateLevel g1) <= li_level (calculateLevel g2).
Proof.
  intros Hxp. rewrite !calculateLevel_level.
  apply levelLoop_mono; lia.
Qed.

Lemma addXP_xp g amount t :
  GameState.xp (fst (addXP g amount t)) = GameState.xp g + amount.
Proof.
  unfold addXP. by destruct (_ >? _).
Qed.

Lemma addXP_level g amount t :
  GameState.level (fst (addXP g amount t))
  = li_level (calculateLevel (set_xp (GameState.xp g + amount) g)).
Proof.
  unfold addXP. by destruct (_ >? _).
Qed.

Lemma addXP_streaks g amount t :
  GameState.streaks (fst (addXP g amount t)) = GameState.streaks g.
Proof.
  unfold addXP. by destruct (_ >? _).
Qed.

Lemma addXP_stats g amount t :
  GameState.stats (fst (addXP g amount t)) = GameState.stats g.
Proof.
  unfold addXP. by destruct (_ >? _).
Qed.

(** C5. The level is a function of the xp alone, it never decreases when
    the xp grows, and [addXP] stores the level recomputed from the new xp
    total whatever level was stored before.  [calculateLevel] called on two
    states with the same xp returns the same result; the loop it runs ends
    by its own test. *)
Theorem level_is_a_monotone_function_of_xp (g1 g2 : GameState.t) :
  (GameState.xp g1 = GameState.xp g2 → calculateLevel g1 = calculateLevel g2)
  ∧ (GameState.xp g1 <= GameState.xp g2 →
     li_level (calculateLevel g1) <= li_level (calculateLevel g2))
  ∧ GameState.xp g1 < xpForNextLevel (calculateLevel g1)
  ∧ (∀ amount t,
       let g1' := fst (addXP g1 amount t) in
       GameState.xp g1' = GameState.xp g1 + amount
       ∧ GameState.level g1' = li_level (calculateLevel g1')
       ∧ (GameState.xp g2 = GameState.xp g1 →
          GameState.level (fst (addXP g2 amount t)) = GameState.level g1')).
Proof.
  split; [apply calculateLevel_xp|].
  split; [apply calculateLevel_mono|].
  split; [apply calculateLevel_exit|].
  intros amount t g1'. subst g1'.
  split; [apply addXP_xp|].
  split.
  - rewrite addXP_level. f_equal. apply calculateLevel_xp.
    by rewrite addXP_xp.
  - intros Hxp. rewrite !addXP_level. f_equal. apply calculateLevel_xp.
    simpl. by rewrite Hxp.
Qed.

(* ================================================================== *)
(** ** The Reward Engine *)
(* ================================================================== *)

Lemma rewardXP_finite attempt quiz (q : Qc) :
  Attempt.score attempt = Finite q →
  rewardXP attempt quiz
  = Some (50 + Qfloor (q / Qc_of_Z 10)%Qc * 10 + speedBonus attempt quiz).
Proof.
  intros Hs. unfold rewardXP, speedBonus.
  by rewrite Hs, div_ofZ.
Qed.

(** What [updateGameState] does with the xp [rewardXP] computes: it saves
    the rewarded state when the state is valid, and nothing otherwise. *)
Lemma updateGameState_cases db userId attempt quiz clk totalXP :
  rewardXP attempt quiz = Some totalXP →
  let g := findOrCreate db userId clk in
  let g' := rewarded g totalXP attempt clk in
  updateGameState db userId attempt quiz clk
  = if bool_decide (GameState.valid g')
    then (save_gameState userId g' db,
          Some {| levelResult := snd (addXP g totalXP (levelUpAt clk));
                  newBadges :=
                    snd (checkBadges
                           (set_streaks
                              (updateStreak
                                 (GameState.streaks (fst (addXP g totalXP (levelUpAt clk))))
                                 (now clk))
                              (set_stats
                                 (updateStats
                                    (GameState.stats (fst (addXP g totalXP (levelUpAt clk))))
                                    attempt)
                                 (fst (addXP g totalXP (levelUpAt clk)))))
                           (badgeAt clk));
                  xpGained := totalXP |})
    else (db, None).
Proof.
  intros Hxp g g'. subst g g'. unfold updateGameState, rewarded.
  rewrite Hxp.
  destruct (addXP _ _ _) as [g1 lr]. cbn [fst snd].
  by destruct (checkBadges _ _) as [g2 nb].
Qed.

(** The reward [updateGameState] returns is the xp [rewardXP] computes. *)
Lemma updateGameState_reward db userId attempt quiz clk reward :
  snd (updateGameState db userId attempt quiz clk) = Some reward →
  rewardXP attempt quiz = Some (xpGained reward).
Proof.
  destruct (rewardXP attempt quiz) as [totalXP|] eqn:Hxp.
  - rewrite (updateGameState_cases _ _ _ _ _ _ Hxp). cbv zeta.
    case_bool_decide; [|done]. by intros [= <-].
  - unfold updateGameState. by rewrite Hxp.
Qed.

Lemma checkBadges_fields g t :
  GameState.xp (fst (checkBadges g t)) = GameState.xp g
  ∧ GameState.level (fst (checkBadges g t)) = GameState.level g
  ∧ GameState.streaks (fst (checkBadges g t)) = GameState.streaks g
  ∧ GameState.stats (fst (checkBadges g t)) = GameState.stats g.
Proof. done. Qed.

Lemma rewarded_xp g totalXP attempt clk :
  GameState.xp (rewarded g totalXP attempt clk) = GameState.xp g + totalXP.
Proof. unfold rewarded. simpl. apply addXP_xp. Qed.

Lemma rewarded_level g totalXP attempt clk :
  GameState.level (rewarded g totalXP attempt clk)
  = li_level (calculateLevel (rewarded g totalXP attempt clk)).
Proof.
  unfold rewarded. simpl. rewrite addXP_level.
  f_equal. apply calculateLevel_xp. simpl. by rewrite addXP_xp.
Qed.

Lemma rewarded_streaks g totalXP attempt clk :
  GameState.streaks (rewarded g totalXP attempt clk)
  = updateStreak (GameState.streaks g) (now clk).
Proof. unfold rewarded. simpl. by rewrite addXP_streaks. Qed.

Lemma rewarded_stats g totalXP attempt clk :
  GameState.stats (rewarded g totalXP attempt clk)
  = updateStats (GameState.stats g) attempt.
Proof. unfold rewarded. simpl. by rewrite addXP_stats. Qed.

(** The level [addXP] stores on a level-up is valid. *)
Lemma addXP_currentLevel g amount t :
  from_option Level.valid True (GameState.currentLevel g) →
  from_option Level.valid True
    (GameState.currentLevel (fst (addXP g amount t))).
Proof.
  intros Hvalid. unfold addXP. cbn [set_level GameState.level].
  destruct (_ >? _); cbn [fst set_currentLevel GameState.currentLevel
                          from_option set_level set_xp]; [|done].
  split; [|done]. cbn [Level.level].
  apply (calculateLevel_exit (set_xp (GameState.xp g + amount) g)).
Qed.

Lemma addXP_badges g amount t :
  GameState.badges (fst (addXP g amount t)) = GameState.badges g.
Proof.
  unfold addXP. by destruct (_ >? _).
Qed.

(** A quotient of integers by an integer that is not 0, times 100, is a
    number. *)
Lemma percentage_not_NaN (c t : Z) :
  t ≠ 0 → isNaN (mul (div (ofZ c) (ofZ t)) (ofZ 100)) = false.
Proof.
  intros Ht. unfold ofZ at 1. by rewrite div_ofZ.
Qed.

(** The state [updateGameState] computes is valid when the state it
    starts from has valid badges and level and the questions answered do
    not add up to 0. *)
Lemma rewarded_valid g totalXP attempt clk :
  Forall Badge.valid (GameState.badges g) →
  from_option Level.valid True (GameState.currentLevel g) →
  Stats.totalQuestionsAnswered (GameState.stats g)
    + Attempt.totalQuestions attempt ≠ 0 →
  GameState.valid (rewarded g totalXP attempt clk).
Proof.
  intros Hbadges Hlevel Htotal. unfold GameState.valid. split; [|split].
  - rewrite rewarded_stats. cbn [updateStats Stats.averageAccuracy].
    by apply percentage_not_NaN.
  - unfold rewarded. cbv zeta. unfold checkBadges. cbv zeta.
    cbn [fst set_badges GameState.badges set_streaks set_stats].
    rewrite addXP_badges. apply Forall_app. split; [done|].
    repeat (apply Forall_app; split);
      match goal with
      | |- context [if ?b then _ else _] => destruct b
      end; repeat constructor; done.
  - unfold rewarded. cbv zeta. unfold checkBadges. cbv zeta.
    cbn [fst set_badges GameState.currentLevel set_streaks set_stats].
    by apply addXP_currentLevel.
Qed.

(** The state [updateGameState] starts from is the state stored, or a new
    one. *)
Lemma findOrCreate_lookup db userId clk :
  findOrCreate db userId clk
  = default (GameState.create userId (createdAt clk)) (gameStates db !! userId).
Proof. unfold findOrCreate. by destruct (gameStates db !! userId). Qed.

Lemma rewardable_valid db userId attempt clk totalXP :
  rewardable db userId attempt →
  GameState.valid (rewarded (findOrCreate db userId clk) totalXP attempt clk).
Proof.
  intros [Hpos Hstored]. unfold findOrCreate.
  destruct (gameStates db !! userId) as [g|] eqn:Hg.
  - destruct (Hstored g eq_refl) as (Hbadges & Hlevel & Htotal).
    apply rewarded_valid; [done|done|lia].
  - apply rewarded_valid; [by constructor|done|]. cbn. lia.
Qed.

(** With a finite score and a state that [save()] accepts,
    [updateGameState] saves the rewarded state and returns the reward. *)
Lemma updateGameState_finite db userId attempt quiz clk (q : Qc) :
  Attempt.score attempt = Finite q →
  rewardable db userId attempt →
  ∃ reward,
    updateGameState db userId attempt quiz clk
    = (save_gameState userId
         (rewarded (findOrCreate db userId clk)
            (50 + Qfloor (q / Qc_of_Z 10)%Qc * 10 + speedBonus attempt quiz)
            attempt clk) db,
       Some reward)
    ∧ xpGained reward
      = 50 + Qfloor (q / Qc_of_Z 10)%Qc * 10 + speedBonus attempt quiz
    ∧ levelResult reward
      = snd (addXP (findOrCreate db userId clk) (xpGained reward) (levelUpAt clk)).
Proof.
  intros Hs Hok.
  rewrite (updateGameState_cases _ _ _ _ _ _ (rewardXP_finite _ quiz _ Hs)).
  cbv zeta. rewrite bool_decide_true by by apply rewardable_valid.
  by eexists.
Qed.

Lemma updateGameState_saved db userId attempt quiz clk (q : Qc) :
  Attempt.score attempt = Finite q →
  rewardable db userId attempt →
  gameStates (fst (updateGameState db userId attempt quiz clk)) !! userId
  = Some (rewarded (findOrCreate db userId clk)
            (50 + Qfloor (q / Qc_of_Z 10)%Qc * 10 + speedBonus attempt quiz)
            attempt clk).
Proof.
  intros Hs Hok.
  destruct (updateGameState_finite db userId attempt quiz clk q Hs Hok)
    as (reward & -> & _).
  cbn [fst save_gameState gameStates]. apply lookup_insert_eq.
Qed.

(** When [save()] rejects the state nothing is stored and the result is
    [null]. *)
Lemma updateGameState_rejected db userId attempt quiz clk totalXP :
  rewardXP attempt quiz = Some totalXP →
  ¬ GameState.valid (rewarded (findOrCreate db userId clk) totalXP attempt clk) →
  updateGameState db userId attempt quiz clk = (db, None).
Proof.
  intros Hxp Hinvalid. rewrite (updateGameState_cases _ _ _ _ _ _ Hxp).
  cbv zeta. by rewrite bool_decide_false.
Qed.

(** C4. For an attempt with a finite score [q] whose state [save()]
    accepts, the Reward Engine returns a reward and stores the state of
    the student.  The reward is [50 + floor(q / 10) * 10 + speedBonus] xp,
    where the speed bonus is 20 when the seconds spent are strictly below
    thirty times the time limit in minutes and 0 otherwise; any other
    call that returns a reward for the same score, time spent and time
    limit returns the same amount; the amount is added to the xp stored
    for the student (0 when no state is stored) and the level stored is
    the level of the new xp.  A student at 0 xp who scores 100 in less
    than half the time limit gains 170 xp and is at level 2. *)
Theorem reward_experience db userId attempt quiz clk (q : Qc) :
  Attempt.score attempt = Finite q →
  rewardable db userId attempt →
  let xp := from_option GameState.xp 0 (gameStates db !! userId) in
  ∃ g' reward,
    snd (updateGameState db userId attempt quiz clk) = Some reward
    ∧ gameStates (fst (updateGameState db userId attempt quiz clk)) !! userId
      = Some g'
    ∧ xpGained reward
      = 50 + Qfloor (q / Qc_of_Z 10)%Qc * 10
        + (if Attempt.timeSpent attempt <? Quiz.timeLimit quiz * 30
           then 20 else 0)
    ∧ (∀ db2 userId2 attempt2 quiz2 clk2 reward2,
         Attempt.score attempt2 = Attempt.score attempt →
         Attempt.timeSpent attempt2 = Attempt.timeSpent attempt →
         Quiz.timeLimit quiz2 = Quiz.timeLimit quiz →
         snd (updateGameState db2 userId2 attempt2 quiz2 clk2) = Some reward2 →
         xpGained reward2 = xpGained reward)
    ∧ GameState.xp g' = xp + xpGained reward
    ∧ GameState.level g' = li_level (calculateLevel g')
    ∧ (xp = 0 → q = Qc_of_Z 100 →
       Attempt.timeSpent attempt < Quiz.timeLimit quiz * 30 →
       xpGained reward = 170 ∧ GameState.xp g' = 170 ∧ GameState.level g' = 2).
Proof.
  intros Hs Hok xp.
  destruct (updateGameState_finite db userId attempt quiz clk q Hs Hok)
    as (reward & Hup & Hxp & _).
  set (g := findOrCreate db userId clk) in *.
  assert (Hg : GameState.xp g = xp).
  { subst g xp. unfold findOrCreate. by destruct (gameStates db !! userId). }
  exists (rewarded g (50 + Qfloor (q / Qc_of_Z 10)%Qc * 10
                      + speedBonus attempt quiz) attempt clk), reward.
  split; [by rewrite Hup|].
  split; [rewrite Hup; apply lookup_insert_eq|].
  split; [exact Hxp|].
  split.
  { intros db2 u2 a2 q2 clk2 reward2 Ha Ht Hl Hreward2.
    apply updateGameState_reward in Hreward2.
    rewrite (rewardXP_finite a2 q2 q) in Hreward2 by congruence.
    injection Hreward2 as <-. rewrite Hxp.
    unfold speedBonus. by rewrite Ht, Hl. }
  split; [by rewrite rewarded_xp, Hxp, Hg|].
  split; [apply rewarded_level|].
  intros Hg0 -> Hfast.
  assert (Hgain : xpGained reward = 170).
  { rewrite Hxp. unfold speedBonus.
    destruct (Z.ltb_spec (Attempt.timeSpent attempt) (Quiz.timeLimit quiz * 30));
      [|lia].
    by vm_compute. }
  split; [exact Hgain|].
  assert (Hx : GameState.xp
                 (rewarded g (50 + Qfloor (Qc_of_Z 100 / Qc_of_Z 10)%Qc * 10
                              + speedBonus attempt quiz) attempt clk) = 170).
  { rewrite rewarded_xp, Hg, Hg0. rewrite <- Hxp, Hgain. done. }
  split; [exact Hx|].
  rewrite rewarded_level, calculateLevel_level, Hx. by vm_compute.
Qed.

(* ================================================================== *)
(** ** Streaks *)
(* ================================================================== *)

Section Streak.

Variables (s : Streaks.t) (now : Date).

Let elapsed := now - Streaks.lastActivity s.

Lemma updateStreak_one_day :
  millisecondsPerDay <= elapsed < 2 * millisecondsPerDay →
  Streaks.current (updateStreak s now) = Streaks.current s + 1.
Proof.
  intros H. unfold updateStreak. cbn [Streaks.current].
  replace ((now - Streaks.lastActivity s) / millisecondsPerDay) with 1; [done|].
  unfold elapsed, millisecondsPerDay in *.
  apply Z.div_unique with (r := now - Streaks.lastActivity s - 86400000); lia.
Qed.

Lemma updateStreak_more_days :
  2 * millisecondsPerDay <= elapsed →
  Streaks.current (updateStreak s now) = 1.
Proof.
  intros H. unfold updateStreak. cbn [Streaks.current].
  assert (2 <= (now - Streaks.lastActivity s) / millisecondsPerDay).
  { apply Z.div_le_lower_bound; unfold elapsed, millisecondsPerDay in *; lia. }
  destruct (Z.eqb_spec ((now - Streaks.lastActivity s) / millisecondsPerDay) 1);
    [lia|].
  destruct (Z.gtb_spec ((now - Streaks.lastActivity s) / millisecondsPerDay) 1);
    [done|lia].
Qed.

Lemma updateStreak_same_day :
  elapsed < millisecondsPerDay →
  Streaks.current (updateStreak s now) = Streaks.current s.
Proof.
  intros H. unfold updateStreak. cbn [Streaks.current].
  assert ((now - Streaks.lastActivity s) / millisecondsPerDay < 1).
  { apply Z.div_lt_upper_bound; unfold elapsed, millisecondsPerDay in *; lia. }
  destruct (Z.eqb_spec ((now - Streaks.lastActivity s) / millisecondsPerDay) 1);
    [lia|].
  destruct (Z.gtb_spec ((now - Streaks.lastActivity s) / millisecondsPerDay) 1);
    [lia|done].
Qed.

Lemma updateStreak_longest :
  Streaks.longest (updateStreak s now)
  = Z.max (Streaks.longest s) (Streaks.current (updateStreak s now)).
Proof.
  unfold updateStreak. cbn [Streaks.current Streaks.longest].
  rewrite (Z.gtb_ltb _ (Streaks.longest s)).
  destruct (Z.ltb_spec (Streaks.longest s)
    (if (now - Streaks.lastActivity s) / millisecondsPerDay =? 1
     then Streaks.current s + 1
     else if (now - Streaks.lastActivity s) / millisecondsPerDay >? 1
          then 1 else Streaks.current s)); lia.
Qed.

(** The streak changes only after at least one whole day. *)
Lemma updateStreak_changes :
  Streaks.current (updateStreak s now) ≠ Streaks.current s →
  millisecondsPerDay <= elapsed.
Proof.
  intros Hne. destruct (Z.le_gt_cases millisecondsPerDay elapsed); [done|].
  by rewrite updateStreak_same_day in Hne by lia.
Qed.

End Streak.

(** C6, as the code has it.  For an attempt with a finite score whose
    state [save()] accepts, the streak update measures the time elapsed
    between the last activity stored for the student (the creation instant
    when no state is stored) and the completion in whole periods of 24
    hours: exactly one whole period increments the current streak by 1,
    two or more reset it to 1, less than one leaves it unchanged; the
    longest streak becomes the maximum of itself and the current streak,
    and the last activity becomes the completion instant. *)
Theorem streak_counts_elapsed_days db userId attempt quiz clk (q : Qc) :
  Attempt.score attempt = Finite q →
  rewardable db userId attempt →
  let s :=
    from_option GameState.streaks
      (GameState.streaks (GameState.create userId (createdAt clk)))
      (gameStates db !! userId) in
  let elapsed := now clk - Streaks.lastActivity s in
  ∃ g',
    gameStates (fst (updateGameState db userId attempt quiz clk)) !! userId
    = Some g'
    ∧ (millisecondsPerDay <= elapsed < 2 * millisecondsPerDay →
       Streaks.current (GameState.streaks g') = Streaks.current s + 1)
    ∧ (2 * millisecondsPerDay <= elapsed →
       Streaks.current (GameState.streaks g') = 1)
    ∧ (elapsed < millisecondsPerDay →
       Streaks.current (GameState.streaks g') = Streaks.current s)
    ∧ Streaks.longest (GameState.streaks g')
      = Z.max (Streaks.longest s) (Streaks.current (GameState.streaks g'))
    ∧ Streaks.lastActivity (GameState.streaks g') = now clk.
Proof.
  intros Hs Hok s elapsed.
  eexists. split; [by apply updateGameState_saved|].
  rewrite rewarded_streaks.
  assert (Hfound : GameState.streaks (findOrCreate db userId clk) = s).
  { subst s. unfold findOrCreate. by destruct (gameStates db !! userId). }
  rewrite Hfound.
  split; [apply updateStreak_one_day|].
  split; [apply updateStreak_more_days|].
  split; [apply updateStreak_same_day|].
  split; [apply updateStreak_longest|done].
Qed.

(** C10. For an attempt with a finite score whose state [save()] accepts:
    when [updateGameState] creates the game state and less than a day
    passes between the creation and the streak update, the first completed
    attempt leaves the current streak at 0.  A current streak of 0 becomes
    positive (it becomes 1) only by a completion at least one whole day
    after the last activity, hence on a later calendar day. *)
Theorem first_completion_keeps_streak_at_zero db userId attempt quiz clk (q : Qc) :
  Attempt.score attempt = Finite q →
  rewardable db userId attempt →
  ∃ g',
    gameStates (fst (updateGameState db userId attempt quiz clk)) !! userId
    = Some g'
    ∧ (gameStates db !! userId = None →
       now clk - createdAt clk < millisecondsPerDay →
       Streaks.current (GameState.streaks g') = 0)
    ∧ (∀ g, gameStates db !! userId = Some g →
         Streaks.current (GameState.streaks g) = 0 →
         0 < Streaks.current (GameState.streaks g') →
         Streaks.current (GameState.streaks g') = 1
         ∧ millisecondsPerDay
           <= now clk - Streaks.lastActivity (GameState.streaks g)
         ∧ calendarDay (Streaks.lastActivity (GameState.streaks g))
           < calendarDay (now clk)).
Proof.
  intros Hs Hok.
  eexists. split; [by apply updateGameState_saved|].
  rewrite rewarded_streaks. unfold findOrCreate. split.
  - intros -> Hlt. by rewrite updateStreak_same_day.
  - intros g -> H0 Hpos.
    assert (Hday : millisecondsPerDay
                   <= now clk - Streaks.lastActivity (GameState.streaks g)).
    { apply updateStreak_changes. lia. }
    split; [|split; [done|]].
    + destruct (Z.le_gt_cases (2 * millisecondsPerDay)
                  (now clk - Streaks.lastActivity (GameState.streaks g))).
      * by apply updateStreak_more_days.
      * rewrite updateStreak_one_day by lia. lia.
    + unfold calendarDay, millisecondsPerDay in *.
      set (last := Streaks.lastActivity (GameState.streaks g)) in *.
      assert (H : (last + 1 * 86400000) / 86400000 <= now clk / 86400000)
        by (apply Z.div_le_mono; lia).
      rewrite Z.div_add in H by lia.
      change (1000 * 60 * 60 * 24) with 86400000. lia.
Qed.

(* ================================================================== *)
(** ** The submit-answer handler *)
(* ================================================================== *)

Lemma updateGameState_attempts db userId attempt quiz clk :
  attempts (fst (updateGameState db userId attempt quiz clk)) = attempts db
  ∧ progress (fst (updateGameState db userId attempt quiz clk)) = progress db
  ∧ quizzes (fst (updateGameState db userId attempt quiz clk)) = quizzes db.
Proof.
  unfold updateGameState.
  destruct (rewardXP attempt quiz); [|done].
  destruct (addXP _ _ _). destruct (checkBadges _ _).
  by case_bool_decide.
Qed.

(** [updateGameState] reads the game states only. *)
Lemma updateGameState_gameStates db1 db2 userId attempt quiz clk :
  gameStates db1 = gameStates db2 →
  gameStates (fst (updateGameState db1 userId attempt quiz clk))
  = gameStates (fst (updateGameState db2 userId attempt quiz clk)).
Proof.
  intros Hg. unfold updateGameState, findOrCreate. rewrite Hg.
  destruct (rewardXP attempt quiz); [|done].
  destruct (addXP _ _ _). destruct (checkBadges _ _).
  case_bool_decide; cbn [fst save_gameState gameStates]; by rewrite Hg.
Qed.

Lemma updateGameState_others db userId attempt quiz clk other :
  other ≠ userId →
  gameStates (fst (updateGameState db userId attempt quiz clk)) !! other
  = gameStates db !! other.
Proof.
  intros Hne. unfold updateGameState.
  destruct (rewardXP attempt quiz); [|done].
  destruct (addXP _ _ _). destruct (checkBadges _ _).
  case_bool_decide; [|done].
  cbn [fst save_gameState gameStates]. by rewrite lookup_insert_ne.
Qed.

Lemma recordAnswer_length attempt body isCorrect t :
  Z.of_nat (length (Attempt.answers (recordAnswer attempt body isCorrect t)))
  = Z.of_nat (length (Attempt.answers attempt)) + 1.
Proof. cbn [recordAnswer Attempt.answers]. rewrite length_app. simpl. lia. Qed.

(** The attempt with the answer recorded is valid exactly when the
    attempt is valid and the strings of the request are not empty. *)
Lemma recordAnswer_valid attempt body isCorrect t :
  Attempt.valid (recordAnswer attempt body isCorrect t) ↔ storable attempt body.
Proof.
  unfold storable, Attempt.valid. cbn [recordAnswer Attempt.answers].
  rewrite Forall_app, Forall_singleton. done.
Qed.

(** The mastery assigned to a topic entry with a count that is not
    negative is a number. *)
Lemma masteryCastFails_counts question isCorrect p :
  (∀ tm, tm ∈ Progress.topicMastery p →
         0 <= TopicMastery.questionsAnswered tm) →
  masteryCastFails question isCorrect p = false.
Proof.
  intros Hcounts. unfold masteryCastFails.
  destruct (list_find _ _) as [[i tm]|] eqn:Hfind; [|done].
  apply list_find_Some in Hfind as (Hi & _).
  apply list_elem_of_lookup_2, Hcounts in Hi.
  cbn [answerTopic TopicMastery.mastery]. apply percentage_not_NaN. lia.
Qed.

Section Accepted.

Context (db : Db) (user : User) (body : SubmitBody) (clk : Clock) (random : Qc).
Context (attempt : Attempt.t) (quiz : Quiz.t) (question : Question.t).
Hypothesis Hacc : accepted db user body attempt quiz question.

Let key := (_id user, Attempt.quiz attempt).
Let isCorrect := checkAnswer question (answer body).
Let attempt1 := answeredAttempt attempt body question clk.
Let attempt2 := completedAttempt attempt body question quiz clk.
Let db1 := save_attempt (attemptId body) attempt1 db.
Let db2 := save_attempt (attemptId body) attempt2 db1.
Let failure := Failure 500 "Error submitting answer".

(** The handler on an accepted request, save by save. *)
Lemma submitAnswer_accepted :
  submitAnswer db user body clk random
  = if negb (bool_decide (storable attempt body)) then (failure, db)
    else if Z.of_nat (length (Attempt.answers attempt)) + 1
            >=? Quiz.totalQuestions quiz
    then
      if isNaN (Attempt.score attempt2) then (failure, db1)
      else
        match progress db !! key with
        | Some p =>
            if masteryCastFails question isCorrect p then (failure, db2)
            else
              (QuizCompleted (Attempt.score attempt2)
                 (Attempt.correctAnswers attempt2)
                 (Quiz.totalQuestions quiz) (Attempt.timeSpent attempt2),
               fst (updateGameState
                      (save_progress key
                         (finalizeProgress attempt2
                            (updateTopicMastery question isCorrect p)) db2)
                      (_id user) attempt2 quiz clk))
        | None =>
            (QuizCompleted (Attempt.score attempt2)
               (Attempt.correctAnswers attempt2)
               (Quiz.totalQuestions quiz) (Attempt.timeSpent attempt2),
             fst (updateGameState db2 (_id user) attempt2 quiz clk))
        end
    else
      (AnswerSubmitted isCorrect (Question.correctAnswer question)
         (Question.explanation question)
         (getNextQuestion quiz attempt1
            (updateTopicMastery question isCorrect <$> progress db !! key) random)
         (Z.of_nat (length (Attempt.answers attempt)) + 1 + 1)
         (Quiz.timeLimit quiz * 60 - Attempt.timeSpent attempt1),
       db1).
Proof.
  destruct Hacc as (Hrole & Hatt & Hown & Hquiz & i & Hq).
  unfold submitAnswer.
  rewrite bool_decide_true by done. cbn [negb]. rewrite Hatt.
  rewrite bool_decide_true by done. cbn [negb]. rewrite Hquiz, Hq.
  cbv zeta. rewrite recordAnswer_length.
  rewrite (bool_decide_ext _ _ (recordAnswer_valid _ _ _ _)).
  case_bool_decide; cbn [negb]; [|done].
  cbn [save_attempt progress recordAnswer Attempt.quiz].
  subst key attempt1 attempt2 isCorrect db1 db2 failure.
  unfold completedAttempt, answeredAttempt.
  destruct (_ >=? _); [|done].
  destruct (isNaN _); [done|].
  destruct (progress db !! (_id user, Attempt.quiz attempt)) as [p|];
    cbn [fmap option_fmap option_map from_option]; [|done].
  by destruct (masteryCastFails _ _ p).
Qed.

(** The score of the completed attempt is a number when the quiz does not
    count 0 questions. *)
Lemma completedAttempt_score_number :
  Quiz.totalQuestions quiz ≠ 0 → isNaN (Attempt.score attempt2) = false.
Proof.
  intros Htotal. subst attempt2. unfold completedAttempt, completeAttempt.
  cbn [Attempt.score]. by apply percentage_not_NaN.
Qed.

Lemma counting_cast p :
  counting db user attempt → progress db !! key = Some p →
  masteryCastFails question isCorrect p = false.
Proof.
  intros Hcount Hp. apply masteryCastFails_counts.
  intros tm Htm. by apply (Hcount p tm).
Qed.

(** An attempt that does not validate: nothing is stored. *)
Lemma submitAnswer_rejected :
  ¬ storable attempt body →
  submitAnswer db user body clk random = (failure, db).
Proof.
  intros Hinvalid. rewrite submitAnswer_accepted.
  by rewrite bool_decide_false.
Qed.

(** The last answer: the completion branch. *)
Lemma submitAnswer_completes :
  storable attempt body →
  counting db user attempt →
  Quiz.totalQuestions quiz ≠ 0 →
  Quiz.totalQuestions quiz <= Z.of_nat (length (Attempt.answers attempt)) + 1 →
  submitAnswer db user body clk random
  = (QuizCompleted (Attempt.score attempt2) (Attempt.correctAnswers attempt2)
       (Quiz.totalQuestions quiz) (Attempt.timeSpent attempt2),
     fst (updateGameState
            (match progress db !! key with
             | Some p =>
                 save_progress key
                   (finalizeProgress attempt2
                      (updateTopicMastery question isCorrect p)) db2
             | None => db2
             end)
            (_id user) attempt2 quiz clk)).
Proof.
  intros Hvalid Hcount Htotal Hlast. rewrite submitAnswer_accepted.
  rewrite bool_decide_true by done. cbn [negb].
  destruct (Z.geb_spec (Z.of_nat (length (Attempt.answers attempt)) + 1)
              (Quiz.totalQuestions quiz)); [|lia].
  rewrite completedAttempt_score_number by done.
  destruct (progress db !! key) as [p|] eqn:Hp; [|done].
  by rewrite (counting_cast p Hcount Hp).
Qed.

(** Any earlier answer: only the attempt is saved. *)
Lemma submitAnswer_continues :
  storable attempt body →
  Z.of_nat (length (Attempt.answers attempt)) + 1 < Quiz.totalQuestions quiz →
  submitAnswer db user body clk random
  = (AnswerSubmitted isCorrect (Question.correctAnswer question)
       (Question.explanation question)
       (getNextQuestion quiz attempt1
          (updateTopicMastery question isCorrect <$> progress db !! key) random)
       (Z.of_nat (length (Attempt.answers attempt)) + 1 + 1)
       (Quiz.timeLimit quiz * 60 - Attempt.timeSpent attempt1),
     db1).
Proof.
  intros Hvalid Hmore. rewrite submitAnswer_accepted.
  rewrite bool_decide_true by done. cbn [negb].
  by destruct (Z.geb_spec (Z.of_nat (length (Attempt.answers attempt)) + 1)
                 (Quiz.totalQuestions quiz)); [lia|].
Qed.

(** The attempt stored after the request. *)
Lemma submitAnswer_attempt :
  attempts (snd (submitAnswer db user body clk random)) !! attemptId body
  = Some (if bool_decide (storable attempt body)
          then if (Z.of_nat (length (Attempt.answers attempt)) + 1
                   >=? Quiz.totalQuestions quiz)
                  && negb (isNaN (Attempt.score attempt2))
               then attempt2 else attempt1
          else attempt).
Proof.
  rewrite submitAnswer_accepted.
  case_bool_decide; cbn [negb snd].
  2: { by destruct Hacc as (_ & -> & _). }
  destruct (_ >=? _); cbn [andb snd].
  2: { apply lookup_insert_eq. }
  destruct (isNaN _); cbn [negb snd]; [apply lookup_insert_eq|].
  destruct (progress db !! key) as [p|].
  - destruct (masteryCastFails _ _ _); cbn [snd].
    + apply lookup_insert_eq.
    + rewrite (proj1 (updateGameState_attempts _ _ _ _ _)).
      apply lookup_insert_eq.
  - cbn [snd]. rewrite (proj1 (updateGameState_attempts _ _ _ _ _)).
    apply lookup_insert_eq.
Qed.

(** The progress record is saved in the completion branch only, and only
    when all three documents validate. *)
Lemma submitAnswer_progress k :
  progress (snd (submitAnswer db user body clk random)) !! k
  = if bool_decide (k = key)
       && (Z.of_nat (length (Attempt.answers attempt)) + 1
           >=? Quiz.totalQuestions quiz)
       && bool_decide (storable attempt body)
       && negb (isNaN (Attempt.score attempt2))
       && negb (from_option (masteryCastFails question isCorrect) false
                  (progress db !! k))
    then finalizeProgress attempt2 <$>
           (updateTopicMastery question isCorrect <$> progress db !! k)
    else progress db !! k.
Proof.
  rewrite submitAnswer_accepted.
  case_bool_decide as Hvalid; cbn [negb snd].
  2: { by rewrite andb_false_r. }
  rewrite andb_true_r.
  destruct (_ >=? _); cbn [snd].
  2: { by rewrite andb_false_r. }
  rewrite andb_true_r.
  destruct (isNaN _); cbn [negb snd].
  { by rewrite andb_false_r. }
  rewrite andb_true_r.
  case_bool_decide as Hk; cbn [andb].
  - subst k. destruct (progress db !! key) as [p|] eqn:Hp;
      cbn [from_option fmap option_fmap option_map].
    + destruct (masteryCastFails _ _ _); cbn [negb snd]; [done|].
      rewrite (proj1 (proj2 (updateGameState_attempts _ _ _ _ _))).
      apply lookup_insert_eq.
    + cbn [snd]. by rewrite (proj1 (proj2 (updateGameState_attempts _ _ _ _ _))).
  - destruct (progress db !! key) as [p|].
    + destruct (masteryCastFails _ _ _); cbn [snd]; [done|].
      rewrite (proj1 (proj2 (updateGameState_attempts _ _ _ _ _))).
      cbn [save_progress progress]. by rewrite lookup_insert_ne.
    + cbn [snd]. by rewrite (proj1 (proj2 (updateGameState_attempts _ _ _ _ _))).
Qed.

(** The completion branch rewards the completed attempt. *)
Lemma submitAnswer_rewards :
  storable attempt body →
  counting db user attempt →
  Quiz.totalQuestions quiz ≠ 0 →
  Quiz.totalQuestions quiz <= Z.of_nat (length (Attempt.answers attempt)) + 1 →
  gameStates (snd (submitAnswer db user body clk random))
  = gameStates (fst (updateGameState db (_id user) attempt2 quiz clk)).
Proof.
  intros Hvalid Hcount Htotal Hlast.
  rewrite submitAnswer_completes by done. cbn [snd].
  apply updateGameState_gameStates.
  by destruct (progress db !! key).
Qed.

(** The game states after the request: those of the database, or those
    [updateGameState] leaves. *)
Lemma submitAnswer_gameStates :
  gameStates (snd (submitAnswer db user body clk random)) = gameStates db
  ∨ gameStates (snd (submitAnswer db user body clk random))
    = gameStates (fst (updateGameState db (_id user) attempt2 quiz clk)).
Proof.
  rewrite submitAnswer_accepted.
  case_bool_decide; cbn [negb snd]; [|by left].
  destruct (_ >=? _); cbn [snd]; [|by left].
  destruct (isNaN _); cbn [snd]; [by left|].
  destruct (progress db !! key) as [p|].
  - destruct (masteryCastFails _ _ _); cbn [snd]; [by left|].
    right. by apply updateGameState_gameStates.
  - right. by apply updateGameState_gameStates.
Qed.

(** A saved quiz with the question in it has a positive number of
    questions, so the score of the completed attempt is finite. *)
Lemma completedAttempt_score_finite :
  Quiz.saved quiz → ∃ q : Qc, Attempt.score attempt2 = Finite q.
Proof.
  intros Hsaved. destruct Hacc as (_ & _ & _ & _ & i & Hq).
  apply list_find_Some in Hq as (Hi & _).
  apply lookup_lt_Some in Hi. unfold Quiz.saved in Hsaved.
  subst attempt2. unfold completedAttempt, completeAttempt.
  cbn [Attempt.score]. unfold ofZ at 1.
  rewrite div_ofZ by lia. by eexists.
Qed.

End Accepted.


(** C2, as the code has it.  A second answer to a question already
    answered in the attempt is accepted like the first: when the attempt
    can store the answer (the quiz not counting 0 questions, the topic
    counts stored not negative) the handler does not fail, and it saves
    the attempt with one more answer record, the time spent added, and one
    more correct answer when the answer is right. *)
Theorem resubmission_is_recorded
    db user body clk random attempt quiz question :
  accepted db user body attempt quiz question →
  storable attempt body →
  counting db user attempt →
  Quiz.totalQuestions quiz ≠ 0 →
  is_Some (list_find (λ a, Answer.questionId a = questionId body)
                     (Attempt.answers attempt)) →
  (∀ status message,
     fst (submitAnswer db user body clk random) ≠ Failure status message)
  ∧ ∃ attempt',
      attempts (snd (submitAnswer db user body clk random)) !! attemptId body
      = Some attempt'
      ∧ Attempt.answers attempt'
        = Attempt.answers attempt
          ++ [ {| Answer.questionId := questionId body;
                  Answer.answer := answer body;
                  Answer.isCorrect := checkAnswer question (answer body);
                  Answer.timeSpent := default 0 (timeSpent body);
                  Answer.timestamp := answeredAt clk |} ]
      ∧ Attempt.correctAnswers attempt'
        = Attempt.correctAnswers attempt
          + (if checkAnswer question (answer body) then 1 else 0)
      ∧ Attempt.timeSpent attempt'
        = Attempt.timeSpent attempt + default 0 (timeSpent body).
Proof.
  intros Hacc Hvalid Hcount Htotal _. split.
  - intros status message.
    destruct (Z.le_gt_cases (Quiz.totalQuestions quiz)
                (Z.of_nat (length (Attempt.answers attempt)) + 1)).
    + by rewrite (submitAnswer_completes _ _ _ _ _ _ _ _ Hacc) by done.
    + by rewrite (submitAnswer_continues _ _ _ _ _ _ _ _ Hacc) by (done || lia).
  - rewrite (submitAnswer_attempt _ _ _ _ _ _ _ _ Hacc).
    rewrite bool_decide_true by done.
    eexists. split; [done|].
    destruct (_ && _); cbn;
      (split; [done|]); (split; [|done]);
      destruct (checkAnswer question (answer body)); lia.
Qed.

(* ================================================================== *)
(** ** Question selection *)
(* ================================================================== *)

Section Filter.

Context {A : Type} (P : A → Prop) `{!∀ x, Decision (P x)}.

(** [filter] keeps the original order: its head is the first match. *)
Lemma filter_first (l : list A) i x :
  l !! i = Some x → P x →
  (∀ j y, (j < i)%nat → l !! j = Some y → ¬ P y) →
  head (filter P l) = Some x.
Proof.
  revert i. induction l as [|a l IH]; intros i Hi HP Hmin; [done|].
  destruct i as [|i].
  - simplify_eq/=. by rewrite filter_cons_True.
  - rewrite filter_cons_False.
    + apply (IH i); [done|done|].
      intros j y Hj Hy. apply (Hmin (S j) y); [lia|done].
    + apply (Hmin 0%nat a); [lia|done].
Qed.

Lemma filter_none (l : list A) :
  (∀ x, x ∈ l → ¬ P x) → filter P l = [].
Proof.
  induction l as [|a l IH]; intros Hl; [done|].
  rewrite filter_cons_False.
  - apply IH. intros x Hx. apply Hl. by right.
  - apply Hl. by left.
Qed.

End Filter.

(** Comparing a quotient of two counts with a fraction. *)
Lemma Qc_fraction_le (a : Z) (b : positive) (c n : Z) :
  0 < n →
  (Q2Qc (a # b) <= Qc_of_Z c / Qc_of_Z n)%Qc ↔ a * n <= Z.pos b * c.
Proof.
  intros Hn. unfold Qcle, Qcdiv, Qcmult, Qcinv, Q2Qc, Qc_of_Z. cbn [this].
  rewrite !Qred_correct.
  destruct n as [|p|p]; [lia| |lia].
  change (inject_Z c * / inject_Z (Z.pos p))%Q
    with (inject_Z c / inject_Z (Z.pos p))%Q.
  rewrite <- Qmake_Qdiv. unfold Qle. cbn [Qnum Qden]. lia.
Qed.

Lemma currentAccuracy_finite attempt :
  Attempt.answers attempt ≠ [] →
  currentAccuracy attempt
  = Finite (Qc_of_Z (Z.of_nat (length (filter (λ a, Answer.isCorrect a = true)
                                         (Attempt.answers attempt))))
            / Qc_of_Z (Z.of_nat (length (Attempt.answers attempt))))%Qc.
Proof.
  intros Hne. unfold currentAccuracy. apply div_ofZ.
  destruct (Attempt.answers attempt); [done|]. simpl. lia.
Qed.

(** The thresholds [0.8] and [0.6] on the counts. *)
Lemma nextDifficulty_counts attempt :
  Attempt.answers attempt ≠ [] →
  let n := Z.of_nat (length (Attempt.answers attempt)) in
  let c := Z.of_nat (length (filter (λ a, Answer.isCorrect a = true)
                               (Attempt.answers attempt))) in
  nextDifficulty (currentAccuracy attempt)
  = if 4 * n <=? 5 * c then hard
    else if 3 * n <=? 5 * c then medium else easy.
Proof.
  intros Hne n c. rewrite currentAccuracy_finite by done. fold n c.
  assert (Hn : 0 < n).
  { subst n. destruct (Attempt.answers attempt); [done|]. simpl. lia. }
  unfold nextDifficulty, geb, leb, lit_0_8, lit_0_6.
  destruct (Z.leb_spec (4 * n) (5 * c)).
  - rewrite bool_decide_true; [done|]. apply Qc_fraction_le; lia.
  - rewrite bool_decide_false; [|rewrite Qc_fraction_le by done; lia].
    destruct (Z.leb_spec (3 * n) (5 * c)).
    + rewrite bool_decide_true; [done|]. apply Qc_fraction_le; lia.
    + rewrite bool_decide_false; [done|]. rewrite Qc_fraction_le by done; lia.
Qed.

(** C3, as the code has it.  On [GET /adaptive/next/:attemptId], for an
    adaptive quiz and an attempt with [n >= 1] answers of which [c] are
    right, the target difficulty is hard when [c / n >= 0.8], medium when
    [c / n >= 0.6] and easy otherwise; so it is easy after one wrong answer
    and medium at two right answers out of three.  The route answers with
    the first unanswered question of the target difficulty in the order of
    the quiz; when there is none, with the first unanswered question of any
    difficulty; when every question is answered, with [quizComplete].  (The
    question returned by [POST /submit-answer] is chosen by
    [getNextQuestion], which does not look at the difficulty.) *)
Theorem adaptive_route_selects_target_difficulty
    db user attemptId attempt quiz :
  role user = student →
  attempts db !! attemptId = Some attempt →
  Attempt.student attempt = _id user →
  quizzes db !! Attempt.quiz attempt = Some quiz →
  Quiz.adaptiveMode quiz = true →
  Attempt.answers attempt ≠ [] →
  let n := Z.of_nat (length (Attempt.answers attempt)) in
  let c := Z.of_nat (length (filter (λ a, Answer.isCorrect a = true)
                               (Attempt.answers attempt))) in
  let target := nextDifficulty (currentAccuracy attempt) in
  let performance :=
    {| perf_accuracy := currentAccuracy attempt; perf_difficulty := target |} in
  let questions := Quiz.questions quiz in
  target = (if 4 * n <=? 5 * c then hard
            else if 3 * n <=? 5 * c then medium else easy)
  ∧ (n = 1 → c = 0 → target = easy)
  ∧ (n = 3 → c = 2 → target = medium)
  ∧ (∀ i q,
       questions !! i = Some q →
       Question.difficulty q = target → isAnswered attempt q = false →
       (∀ j q', (j < i)%nat → questions !! j = Some q' →
          ¬ (Question.difficulty q' = target ∧ isAnswered attempt q' = false)) →
       adaptiveNext db user attemptId
       = NextQuestion (Some q) (n + 1) (Some performance))
  ∧ ((∀ q, q ∈ questions → isAnswered attempt q = false →
        Question.difficulty q ≠ target) →
     ∀ i q,
       questions !! i = Some q → isAnswered attempt q = false →
       (∀ j q', (j < i)%nat → questions !! j = Some q' →
          isAnswered attempt q' = true) →
       adaptiveNext db user attemptId
       = NextQuestion (Some q) (n + 1) (Some performance))
  ∧ ((∀ q, q ∈ questions → isAnswered attempt q = true) →
     adaptiveNext db user attemptId = QuizComplete performance).
Proof.
  intros Hrole Hatt Hown Hquiz Hmode Hne n c target performance questions.
  assert (Htarget : target = (if 4 * n <=? 5 * c then hard
                              else if 3 * n <=? 5 * c then medium else easy))
    by (by apply nextDifficulty_counts).
  split; [exact Htarget|].
  split; [by intros Hn Hc; rewrite Htarget, Hn, Hc|].
  split; [by intros Hn Hc; rewrite Htarget, Hn, Hc|].
  assert (Hroute :
    adaptiveNext db user attemptId
    = match filter (λ q, bool_decide (Question.difficulty q = target)
                         && negb (isAnswered attempt q)) questions with
      | [] =>
          match filter (λ q, negb (isAnswered attempt q)) questions with
          | [] => QuizComplete performance
          | nextQuestion :: _ =>
              NextQuestion (Some nextQuestion) (n + 1) (Some performance)
          end
      | nextQuestion :: _ =>
          NextQuestion (Some nextQuestion) (n + 1) (Some performance)
      end).
  { unfold adaptiveNext.
    rewrite bool_decide_true by done. cbn [negb]. rewrite Hatt.
    rewrite bool_decide_true by done. cbn [negb]. rewrite Hquiz, Hmode.
    cbn [negb]. fold n.
    destruct (Z.eqb_spec n 0) as [Hn0|_]; [|done].
    subst n. destruct (Attempt.answers attempt); [done|]. simpl in Hn0. lia. }
  rewrite Hroute. clear Hroute.
  split; [|split].
  - intros i q Hi Hd Hun Hmin.
    assert (Hhead : head (filter (λ q, bool_decide (Question.difficulty q = target)
                                       && negb (isAnswered attempt q)) questions)
                    = Some q).
    { apply (filter_first _ _ i); [done| |].
      - rewrite Hun. by rewrite bool_decide_true.
      - intros j q' Hj Hq' HP. apply (Hmin j q' Hj Hq').
        apply andb_True in HP as [Hd' Hun'].
        apply bool_decide_unpack in Hd'. by destruct (isAnswered attempt q'). }
    by destruct (filter _ questions); simplify_eq/=.
  - intros Hnone i q Hi Hun Hmin.
    rewrite filter_none.
    + assert (Hhead : head (filter (λ q, negb (isAnswered attempt q)) questions)
                      = Some q).
      { apply (filter_first _ _ i); [done|by rewrite Hun|].
        intros j q' Hj Hq' HP. rewrite (Hmin j q' Hj Hq') in HP. done. }
      by destruct (filter _ questions); simplify_eq/=.
    + intros q' Hq' HP. apply andb_True in HP as [Hd' Hun'].
      apply bool_decide_unpack in Hd'.
      apply (Hnone q' Hq'); [by destruct (isAnswered attempt q')|done].
  - intros Hall.
    rewrite !filter_none; [done| |].
    + intros q Hq HP. by rewrite (Hall q Hq) in HP.
    + intros q Hq HP. apply andb_True in HP as [_ HP].
      by rewrite (Hall q Hq) in HP.
Qed.

(** C9, as the code has it.  [getNextQuestion] returns the first unanswered
    question of a weak topic in the order of the quiz, whatever the draw,
    when there is one.  Otherwise it returns the unanswered question at
    index [Math.floor(random * count)], the product being the double
    nearest to the exact one (the exact one when that is a double): an
    unanswered question of the quiz chosen by the draw, and [null] only
    when every question is answered. *)
Theorem selection_is_determined_by_the_draw quiz attempt progress :
  let questions := Quiz.questions quiz in
  let unanswered := filter (λ q, negb (isAnswered attempt q)) questions in
  let weak q :=
    ∃ p, progress = Some p ∧ Question.topic q ∈ Progress.weakTopics p in
  (∀ i q,
     questions !! i = Some q → weak q → isAnswered attempt q = false →
     (∀ j q', (j < i)%nat → questions !! j = Some q' →
        ¬ (weak q' ∧ isAnswered attempt q' = false)) →
     ∀ random, getNextQuestion quiz attempt progress random = Some q)
  ∧ ((∀ q, q ∈ questions → weak q → isAnswered attempt q = true) →
     ∀ random,
       (Qc_of_Z 0 <= random)%Qc ∧ (random < Qc_of_Z 1)%Qc →
       isDouble random →
       let product := (random * Qc_of_Z (Z.of_nat (length unanswered)))%Qc in
       getNextQuestion quiz attempt progress random
       = unanswered !! Z.to_nat (Qfloor (binary64 product))
       ∧ (isDouble product →
          getNextQuestion quiz attempt progress random
          = unanswered !! Z.to_nat (Qfloor product))
       ∧ (unanswered = [] → getNextQuestion quiz attempt progress random = None)
       ∧ (unanswered ≠ [] →
          ∃ q, getNextQuestion quiz attempt progress random = Some q
               ∧ q ∈ questions ∧ isAnswered attempt q = false)).
Proof.
  intros questions unanswered weak. split.
  - intros i q Hi (p & -> & Hweak) Hun Hmin random.
    unfold getNextQuestion. fold questions.
    assert (Hlen : (0 <? length (Progress.weakTopics p))%nat = true).
    { apply Nat.ltb_lt. destruct (Progress.weakTopics p); [set_solver|simpl; lia]. }
    rewrite Hlen.
    assert (Hhead :
      head (filter (λ q, bool_decide (Question.topic q ∈ Progress.weakTopics p)
                         && negb (isAnswered attempt q)) questions) = Some q).
    { apply (filter_first _ _ i); [done| |].
      - rewrite Hun. by rewrite bool_decide_true.
      - intros j q' Hj Hq' HP. apply (Hmin j q' Hj Hq').
        apply andb_True in HP as [Hw Hun'].
        apply bool_decide_unpack in Hw. split; [by exists p|].
        by destruct (isAnswered attempt q'). }
    cbv zeta.
    destruct (filter (λ q, bool_decide (Question.topic q ∈ Progress.weakTopics p)
                           && negb (isAnswered attempt q)) questions)
      as [|q0 rest]; by simplify_eq/=.
  - intros Hnone random Hrandom Hdouble product.
    assert (Hget : getNextQuestion quiz attempt progress random
                   = if (0 <? length unanswered)%nat
                     then at_index unanswered (Qfloor (binary64 product))
                     else None).
    { unfold getNextQuestion. fold questions. fold unanswered.
      destruct progress as [p|]; [|done].
      destruct (0 <? length (Progress.weakTopics p))%nat; [|done].
      rewrite filter_none; [done|].
      intros q Hq HP. apply andb_True in HP as [Hw Hun].
      apply bool_decide_unpack in Hw.
      rewrite (Hnone q Hq) in Hun; [done|by exists p]. }
    rewrite Hget. clear Hget.
    destruct unanswered as [|q0 rest] eqn:Hu.
    { split; [done|]. split; [done|]. split; [done|]. by intros []. }
    rewrite <- Hu in *.
    assert (Hlen : (0 < length unanswered)%nat) by (rewrite Hu; simpl; lia).
    rewrite (proj2 (Nat.ltb_lt _ _) Hlen).
    assert (Hidx : 0 <= Qfloor (binary64 product) < Z.of_nat (length unanswered)).
    { subst product. rewrite <- Hu. by apply random_index. }
    unfold at_index.
    destruct (Z.ltb_spec (Qfloor (binary64 product)) 0); [lia|].
    split; [done|]. split; [by intros ->|]. split; [by rewrite Hu|].
    intros _.
    destruct (lookup_lt_is_Some_2 unanswered
                (Z.to_nat (Qfloor (binary64 product))))
      as [q Hq]; [lia|].
    exists q. split; [done|].
    apply list_elem_of_lookup_2 in Hq.
    apply list_elem_of_filter in Hq as [Hun Hin].
    split; [done|]. by destruct (isAnswered attempt q).
Qed.

(* ================================================================== *)
(** ** Mastery tracking *)
(* ================================================================== *)

Lemma not_weak_and_strong (m : number) :
  ¬ (ltb m (ofZ 70) = true ∧ geb m (ofZ 80) = true).
Proof.
  intros [Hlt Hge]. destruct m as [q| |[]]; try done.
  unfold geb, leb, ltb, ofZ in *.
  apply bool_decide_eq_true in Hlt, Hge.
  pose proof (Qcle_lt_trans _ _ _ Hge Hlt) as H.
  apply Z2Qc_inj_lt in H. lia.
Qed.

(** What "Update topic mastery" does to the list of entries. *)
Lemma updateTopicMastery_entries question isCorrect p :
  Progress.topicMastery (updateTopicMastery question isCorrect p)
  = match list_find (λ tm, TopicMastery.topic tm = Question.topic question)
                    (Progress.topicMastery p) with
    | Some (i, tm) =>
        <[i := answerTopic isCorrect tm]> (Progress.topicMastery p)
    | None => Progress.topicMastery p
    end.
Proof.
  unfold updateTopicMastery.
  by destruct (list_find _ _) as [[i tm]|].
Qed.

(** Every entry is unchanged, or is the first entry of the question's
    topic with its counters advanced. *)
Lemma updateTopicMastery_lookup question isCorrect p j tm :
  Progress.topicMastery p !! j = Some tm →
  (TopicMastery.topic tm ≠ Question.topic question →
   Progress.topicMastery (updateTopicMastery question isCorrect p) !! j = Some tm)
  ∧ (Progress.topicMastery (updateTopicMastery question isCorrect p) !! j = Some tm
     ∨ Progress.topicMastery (updateTopicMastery question isCorrect p) !! j
       = Some (answerTopic isCorrect tm)).
Proof.
  intros Hj. rewrite updateTopicMastery_entries.
  destruct (list_find _ _) as [[i tm0]|] eqn:Hfind; [|by split; [|left]].
  apply list_find_Some in Hfind as (Hi & Htopic & _).
  destruct (decide (i = j)) as [->|Hne].
  - simplify_eq. split; [done|]. right.
    apply list_lookup_insert_eq. by eapply lookup_lt_Some.
  - rewrite list_lookup_insert_ne by done. by split; [|left].
Qed.

Lemma answerTopic_consistent isCorrect tm :
  consistent tm → consistent (answerTopic isCorrect tm).
Proof.
  intros H. right. split; [|done].
  cbn [answerTopic TopicMastery.questionsAnswered].
  destruct H as [(-> & _)|(? & _)]; lia.
Qed.

Lemma updateTopicMastery_consistent question isCorrect p :
  Forall consistent (Progress.topicMastery p) →
  Forall consistent
    (Progress.topicMastery (updateTopicMastery question isCorrect p)).
Proof.
  intros Hp. rewrite updateTopicMastery_entries.
  destruct (list_find _ _) as [[i tm]|] eqn:Hfind; [|done].
  apply list_find_Some in Hfind as (Hi & _).
  apply Forall_insert; [done|].
  apply answerTopic_consistent.
  rewrite Forall_lookup in Hp. by eapply Hp.
Qed.

Lemma updateTopicMastery_answeredFirst question isCorrect p :
  answeredFirst (Progress.topicMastery p) →
  answeredFirst (Progress.topicMastery (updateTopicMastery question isCorrect p)).
Proof.
  intros Hp. rewrite updateTopicMastery_entries.
  destruct (list_find _ _) as [[k tm]|] eqn:Hfind; [|done].
  apply list_find_Some in Hfind as (Hk & Htopic & Hmin).
  assert (Hlen : (k < length (Progress.topicMastery p))%nat)
    by (by eapply lookup_lt_Some).
  intros i j tmi tmj Hij Hi Hj Hsame.
  destruct (decide (k = j)) as [->|Hkj].
  - rewrite list_lookup_insert_eq in Hj by done. simplify_eq.
    rewrite list_lookup_insert_ne in Hi by lia.
    destruct (Hmin i tmi Hi Hij). by rewrite Hsame.
  - rewrite list_lookup_insert_ne in Hj by done.
    destruct (decide (k = i)) as [->|Hki].
    + rewrite list_lookup_insert_eq in Hi by done. simplify_eq.
      by apply (Hp i j tm tmj).
    + rewrite list_lookup_insert_ne in Hi by done.
      by apply (Hp i j tmi tmj).
Qed.

(** Every record the routes save has consistent entries, and only the first
    entry of each topic name is answered. *)
Lemma reachable_invariant p :
  reachable p →
  Forall consistent (Progress.topicMastery p)
  ∧ answeredFirst (Progress.topicMastery p).
Proof.
  induction 1 as [student quizId quiz|p attemptId started _ IH
                 |p attempt question isCorrect _ [IHc IHf]].
  - split.
    + apply Forall_fmap, Forall_forall. intros name _. by left.
    + intros i j tmi tmj _ _ Hj _. cbn [newProgress Progress.topicMastery] in Hj.
      rewrite list_lookup_fmap in Hj.
      destruct (Quiz.topics quiz !! j); by simplify_eq/=.
  - done.
  - cbn [finalizeProgress Progress.topicMastery]. split.
    + by apply updateTopicMastery_consistent.
    + by apply updateTopicMastery_answeredFirst.
Qed.

(** The two lists of every record the routes save are the two filters of
    its entries. *)
Lemma reachable_lists p :
  reachable p →
  Progress.weakTopics p
  = TopicMastery.topic <$>
      filter (λ tm, ltb (TopicMastery.mastery tm) (ofZ 70)
                    && (TopicMastery.questionsAnswered tm >? 0))
             (Progress.topicMastery p)
  ∧ Progress.strongTopics p
    = TopicMastery.topic <$>
        filter (λ tm, geb (TopicMastery.mastery tm) (ofZ 80)
                      && (TopicMastery.questionsAnswered tm >? 0))
               (Progress.topicMastery p).
Proof.
  induction 1 as [student quizId quiz|p attemptId started _ IH
                 |p attempt question isCorrect _ _]; [|done|done].
  cbn [newProgress Progress.weakTopics Progress.strongTopics
       Progress.topicMastery].
  rewrite !filter_none; [done| |].
  - intros tm (name & -> & _)%list_elem_of_fmap H.
    cbn in H. by rewrite andb_false_r in H.
  - intros tm (name & -> & _)%list_elem_of_fmap H.
    cbn in H. by rewrite andb_false_r in H.
Qed.

(** The entries of every record the routes save have counts that are not
    negative, so the mastery assigned to them is a number. *)
Lemma reachable_counting db user attempt p :
  progress db !! (_id user, Attempt.quiz attempt) = Some p →
  reachable p → counting db user attempt.
Proof.
  intros Hp Hreach p0 tm Hp0 Htm. rewrite Hp in Hp0. injection Hp0 as <-.
  destruct (reachable_invariant p Hreach) as [Hcons _].
  rewrite Forall_forall in Hcons.
  destruct (Hcons tm Htm) as [(-> & _)|(? & _)]; lia.
Qed.

(** C8, as the code has it.  After every accepted [submitAnswer] call, in
    the record saved and in the document the handler has updated in memory
    alike, every topic entry that has been answered holds
    [correctAnswers / questionsAnswered * 100] of its own counters, and
    every entry never answered holds the mastery 0 it was seeded with (the
    quotient of its counters is [0 / 0]).  The entries of every topic other
    than the question's are unchanged; an entry that changes has had its
    counters advanced by this answer.  (The record is saved in the
    completion branch only: after any earlier answer the saved record is
    the one found.) *)
Theorem mastery_is_the_quotient_of_the_counters
    db user body clk random attempt quiz question k p :
  accepted db user body attempt quiz question →
  progress db !! k = Some p →
  reachable p →
  let isCorrect := checkAnswer question (answer body) in
  let updated := updateTopicMastery question isCorrect p in
  ∃ p',
    progress (snd (submitAnswer db user body clk random)) !! k = Some p'
    ∧ (Z.of_nat (length (Attempt.answers attempt)) + 1 < Quiz.totalQuestions quiz →
       p' = p)
    ∧ Forall consistent (Progress.topicMastery p')
    ∧ Forall consistent (Progress.topicMastery updated)
    ∧ ∀ j tm,
        Progress.topicMastery p !! j = Some tm →
        (TopicMastery.topic tm ≠ Question.topic question →
         Progress.topicMastery p' !! j = Some tm
         ∧ Progress.topicMastery updated !! j = Some tm)
        ∧ (Progress.topicMastery p' !! j = Some tm
           ∨ Progress.topicMastery p' !! j = Some (answerTopic isCorrect tm))
        ∧ (Progress.topicMastery updated !! j = Some tm
           ∨ Progress.topicMastery updated !! j = Some (answerTopic isCorrect tm)).
Proof.
  intros Hacc Hp Hreach isCorrect updated.
  destruct (reachable_invariant p Hreach) as [Hcons _].
  rewrite (submitAnswer_progress _ _ _ _ _ _ _ _ Hacc), Hp.
  destruct (_ && _) eqn:Hsave.
  - exists (finalizeProgress (completedAttempt attempt body question quiz clk)
              updated).
    split; [done|]. split.
    { intros Hmore.
      repeat (apply andb_true_iff in Hsave as [Hsave ?]). lia. }
    cbn [finalizeProgress Progress.topicMastery].
    split; [by apply updateTopicMastery_consistent|].
    split; [by apply updateTopicMastery_consistent|].
    intros j tm Hj.
    destruct (updateTopicMastery_lookup question isCorrect p j tm Hj) as [Hu Hc].
    split; [by intros Hne; split; apply Hu|]. by split.
  - exists p. split; [done|]. split; [done|]. split; [done|].
    split; [by apply updateTopicMastery_consistent|].
    intros j tm Hj.
    destruct (updateTopicMastery_lookup question isCorrect p j tm Hj) as [Hu Hc].
    split; [by intros Hne; split; [|apply Hu]|]. split; [by left|done].
Qed.

Lemma elem_of_topics (P : TopicMastery.t → Prop) `{!∀ tm, Decision (P tm)}
    (l : list TopicMastery.t) (name : string) :
  name ∈ TopicMastery.topic <$> filter P l
  ↔ ∃ i tm, l !! i = Some tm ∧ TopicMastery.topic tm = name ∧ P tm.
Proof.
  rewrite list_elem_of_fmap. split.
  - intros (tm & -> & [HP Hin]%list_elem_of_filter).
    apply list_elem_of_lookup in Hin as [i Hi]. by exists i, tm.
  - intros (i & tm & Hi & <- & HP). exists tm. split; [done|].
    apply list_elem_of_filter. split; [done|].
    by eapply list_elem_of_lookup_2.
Qed.

(** The lists [finalizeProgress] computes, entry by entry. *)
Lemma finalizeProgress_weak attempt p name :
  name ∈ Progress.weakTopics (finalizeProgress attempt p)
  ↔ ∃ i tm, Progress.topicMastery p !! i = Some tm
            ∧ TopicMastery.topic tm = name
            ∧ ltb (TopicMastery.mastery tm) (ofZ 70) = true
            ∧ 0 < TopicMastery.questionsAnswered tm.
Proof.
  cbn [finalizeProgress Progress.weakTopics]. rewrite elem_of_topics.
  split; intros (i & tm & Hi & Hn & H); exists i, tm;
    (split; [done|]); (split; [done|]).
  - apply andb_True in H as [H1 H2].
    apply Is_true_true in H1, H2. split; [done|lia].
  - destruct H as [H1 H2]. apply andb_True.
    split; apply Is_true_true; [done|lia].
Qed.

Lemma finalizeProgress_strong attempt p name :
  name ∈ Progress.strongTopics (finalizeProgress attempt p)
  ↔ ∃ i tm, Progress.topicMastery p !! i = Some tm
            ∧ TopicMastery.topic tm = name
            ∧ geb (TopicMastery.mastery tm) (ofZ 80) = true
            ∧ 0 < TopicMastery.questionsAnswered tm.
Proof.
  cbn [finalizeProgress Progress.strongTopics]. rewrite elem_of_topics.
  split; intros (i & tm & Hi & Hn & H); exists i, tm;
    (split; [done|]); (split; [done|]).
  - apply andb_True in H as [H1 H2].
    apply Is_true_true in H1, H2. split; [done|lia].
  - destruct H as [H1 H2]. apply andb_True.
    split; apply Is_true_true; [done|lia].
Qed.

(** No topic is both weak and strong when only the first entry of each
    name is answered. *)
Lemma finalizeProgress_never_both attempt p name :
  answeredFirst (Progress.topicMastery p) →
  ¬ (name ∈ Progress.weakTopics (finalizeProgress attempt p)
     ∧ name ∈ Progress.strongTopics (finalizeProgress attempt p)).
Proof.
  intros Hfirst [(i & tmi & Hi & Hni & Hlt & Hposi)%finalizeProgress_weak
                 (j & tmj & Hj & Hnj & Hge & Hposj)%finalizeProgress_strong].
  destruct (Nat.lt_trichotomy i j) as [Hij|[->|Hji]].
  - pose proof (Hfirst i j tmi tmj Hij Hi Hj) as H. rewrite Hni, Hnj in H.
    specialize (H eq_refl). lia.
  - simplify_eq. by apply (not_weak_and_strong (TopicMastery.mastery tmi)).
  - pose proof (Hfirst j i tmj tmi Hji Hj Hi) as H. rewrite Hni, Hnj in H.
    specialize (H eq_refl). lia.
Qed.

(** In no record the routes save is a topic both weak and strong. *)
Lemma reachable_never_both p name :
  reachable p →
  ¬ (name ∈ Progress.weakTopics p ∧ name ∈ Progress.strongTopics p).
Proof.
  induction 1 as [student quizId quiz|p attemptId started _ IH
                 |p attempt question isCorrect Hp _].
  - intros [H _]. by apply elem_of_nil in H.
  - done.
  - apply finalizeProgress_never_both, updateTopicMastery_answeredFirst.
    by apply reachable_invariant.
Qed.

(** The members of a list that is a filter of the entries. *)
Lemma topics_elem (f : TopicMastery.t → bool) (l : list TopicMastery.t)
    (names : list string) (name : string) :
  names = TopicMastery.topic <$>
            filter (λ tm, f tm && (TopicMastery.questionsAnswered tm >? 0)) l →
  name ∈ names
  ↔ ∃ tm, tm ∈ l ∧ TopicMastery.topic tm = name
          ∧ f tm = true ∧ 0 < TopicMastery.questionsAnswered tm.
Proof.
  intros ->. rewrite list_elem_of_fmap. split.
  - intros (tm & -> & [HP Hin]%list_elem_of_filter). exists tm.
    apply andb_True in HP as [H1 H2]. apply Is_true_true in H1, H2.
    split; [done|]. split; [done|]. split; [done|lia].
  - intros (tm & Hin & <- & H1 & H2). exists tm. split; [done|].
    apply list_elem_of_filter. split; [|done].
    apply andb_True. split; apply Is_true_true; [done|lia].
Qed.

(** C7. When an accepted answer completes the attempt, the record saved
    lists as weak exactly the topics of its entries with mastery below 70
    and at least one question answered, and as strong exactly the topics of
    its entries with mastery of 80 or more and at least one question
    answered.  A topic whose entries have no question answered is in
    neither list, and no topic is in both, in the record saved as in the
    record found. *)
Theorem completion_classifies_topics
    db user body clk random attempt quiz question p :
  accepted db user body attempt quiz question →
  Quiz.totalQuestions quiz <= Z.of_nat (length (Attempt.answers attempt)) + 1 →
  progress db !! (_id user, Attempt.quiz attempt) = Some p →
  reachable p →
  ∃ p',
    progress (snd (submitAnswer db user body clk random))
      !! (_id user, Attempt.quiz attempt) = Some p'
    ∧ reachable p'
    ∧ Progress.weakTopics p'
      = TopicMastery.topic <$>
          filter (λ tm, ltb (TopicMastery.mastery tm) (ofZ 70)
                        && (TopicMastery.questionsAnswered tm >? 0))
                 (Progress.topicMastery p')
    ∧ Progress.strongTopics p'
      = TopicMastery.topic <$>
          filter (λ tm, geb (TopicMastery.mastery tm) (ofZ 80)
                        && (TopicMastery.questionsAnswered tm >? 0))
                 (Progress.topicMastery p')
    ∧ (∀ name,
         name ∈ Progress.weakTopics p'
         ↔ ∃ tm, tm ∈ Progress.topicMastery p'
                 ∧ TopicMastery.topic tm = name
                 ∧ ltb (TopicMastery.mastery tm) (ofZ 70) = true
                 ∧ 0 < TopicMastery.questionsAnswered tm)
    ∧ (∀ name,
         name ∈ Progress.strongTopics p'
         ↔ ∃ tm, tm ∈ Progress.topicMastery p'
                 ∧ TopicMastery.topic tm = name
                 ∧ geb (TopicMastery.mastery tm) (ofZ 80) = true
                 ∧ 0 < TopicMastery.questionsAnswered tm)
    ∧ (∀ name,
         (∀ tm, tm ∈ Progress.topicMastery p' →
                TopicMastery.topic tm = name →
                TopicMastery.questionsAnswered tm = 0) →
         (name ∉ Progress.weakTopics p') ∧ (name ∉ Progress.strongTopics p'))
    ∧ (∀ name,
         ¬ (name ∈ Progress.weakTopics p' ∧ name ∈ Progress.strongTopics p')
         ∧ ¬ (name ∈ Progress.weakTopics p ∧ name ∈ Progress.strongTopics p)).
Proof.
  intros Hacc Hlast Hp Hreach.
  assert (∃ p',
    progress (snd (submitAnswer db user body clk random))
      !! (_id user, Attempt.quiz attempt) = Some p'
    ∧ reachable p') as (p' & Hp' & Hreach').
  { rewrite (submitAnswer_progress _ _ _ _ _ _ _ _ Hacc), Hp.
    destruct (_ && _); cbn [fmap option_fmap option_map];
      eexists; (split; [done|]); [by constructor|done]. }
  exists p'. split; [done|]. split; [done|].
  destruct (reachable_lists p' Hreach') as [Hw Hs].
  split; [done|]. split; [done|].
  split; [by intros name; apply (topics_elem _ _ _ _ Hw)|].
  split; [by intros name; apply (topics_elem _ _ _ _ Hs)|].
  split.
  { intros name Hzero. split.
    - intros (tm & Hin & Hn & _ & Hpos)%(topics_elem _ _ _ _ Hw).
      specialize (Hzero tm Hin Hn). lia.
    - intros (tm & Hin & Hn & _ & Hpos)%(topics_elem _ _ _ _ Hs).
      specialize (Hzero tm Hin Hn). lia. }
  intros name. split; by apply reachable_never_both.
Qed.



(* ================================================================== *)
(** ** Levels: thresholds and progress *)
(* ================================================================== *)

(** Beyond the starting level, the loop stops in the band of the level it
    returns. *)
Lemma levelLoop_band fuel xp level next :
  next = threshold level →
  fst (levelLoop fuel xp level next) = level
  ∨ threshold (fst (levelLoop fuel xp level next) - 1) <= xp.
Proof.
  revert level next; induction fuel as [|fuel IH]; intros level next Hn; simpl.
  - by left.
  - destruct (Z.geb_spec xp next) as [Hge|Hlt]; simpl; [|by left].
    right.
    destruct (IH (level + 1) (next + (level + 1) * 50)) as [->|H].
    + unfold threshold in *. lia.
    + replace (level + 1 - 1) with level by lia. lia.
    + done.
Qed.

(** The level returned and its two thresholds. *)
Lemma calculateLevel_thresholds (g : GameState.t) :
  let info := calculateLevel g in
  let xp := GameState.xp g in
  1 <= li_level info
  ∧ xpForNextLevel info = threshold (li_level info)
  ∧ xpForCurrentLevel info = threshold (li_level info - 1)
  ∧ xp < threshold (li_level info)
  ∧ (2 <= li_level info → threshold (li_level info - 1) <= xp).
Proof.
  intros info xp.
  destruct (calculateLevel_exit g) as [Hexit Hone]. fold info xp in Hexit, Hone.
  assert (Hnext : xpForNextLevel info = threshold (li_level info)).
  { subst info. rewrite calculateLevel_next, calculateLevel_level.
    rewrite levelLoop_threshold by done. unfold threshold. lia. }
  assert (Hcur : xpForCurrentLevel info = threshold (li_level info - 1)).
  { assert (xpForCurrentLevel info = xpForNextLevel info - li_level info * 50).
    { subst info. unfold calculateLevel. by destruct (levelLoop _ _ _ _). }
    unfold threshold in *. lia. }
  assert (Hband : 2 <= li_level info → threshold (li_level info - 1) <= xp).
  { intros H2. subst info. rewrite calculateLevel_level in *.
    destruct (levelLoop_band (Z.to_nat xp) xp 1 100 eq_refl) as [H1|H]; [|done].
    fold xp in H2. lia. }
  rewrite Hnext in Hexit. by split_and!.
Qed.

(** X1. The level [calculateLevel] returns is the only level [L >= 1] with
    [threshold (L - 1) <= xp < threshold L] (the lower bound holds from
    level 2 on; level 1 is every xp below 100), where
    [threshold L = 25 * L * (L + 1) + 50]; the two thresholds it returns
    are those of that level. *)
Theorem level_band (g : GameState.t) :
  let info := calculateLevel g in
  let xp := GameState.xp g in
  1 <= li_level info
  ∧ xpForNextLevel info = threshold (li_level info)
  ∧ xpForCurrentLevel info = threshold (li_level info - 1)
  ∧ xp < threshold (li_level info)
  ∧ (2 <= li_level info → threshold (li_level info - 1) <= xp)
  ∧ (li_level info = 1 ↔ xp < 100)
  ∧ ∀ L, 1 <= L → xp < threshold L →
         (2 <= L → threshold (L - 1) <= xp) → L = li_level info.
Proof.
  intros info xp.
  destruct (calculateLevel_thresholds g) as (Hone & Hnext & Hcur & Hexit & Hband).
  fold info xp in Hone, Hnext, Hcur, Hexit, Hband.
  split; [done|]. split; [done|]. split; [done|]. split; [done|].
  split; [done|]. split.
  - split.
    + intros H1. rewrite H1 in Hexit. unfold threshold in Hexit. lia.
    + intros Hlt. destruct (Z.le_gt_cases 2 (li_level info)) as [H2|]; [|lia].
      specialize (Hband H2). unfold threshold in Hband. nia.
  - intros L HL Hup Hlow.
    destruct (Z.lt_trichotomy L (li_level info)) as [Hlt|[->|Hgt]]; [|done|].
    + assert (2 <= li_level info) as H2 by lia. specialize (Hband H2).
      unfold threshold in *. nia.
    + assert (2 <= L) as H2 by lia. specialize (Hlow H2).
      unfold threshold in *. nia.
Qed.

(** A quotient of integers, scaled, as a fraction. *)
Lemma Qc_scaled_quotient (a b k : Z) :
  0 < b →
  (this (Qc_of_Z a / Qc_of_Z b * Qc_of_Z k)%Qc == a * k # Z.to_pos b)%Q.
Proof.
  intros Hb. unfold Qcdiv, Qcmult, Qcinv, Q2Qc, Qc_of_Z. cbn [this].
  rewrite !Qred_correct.
  destruct b as [|p|p]; [lia| |lia].
  change (inject_Z a * / inject_Z (Z.pos p))%Q
    with (inject_Z a / inject_Z (Z.pos p))%Q.
  rewrite <- Qmake_Qdiv. unfold Qeq, Qmult, inject_Z. cbn [Qnum Qden].
  cbn [Z.to_pos]. lia.
Qed.

Lemma Qc_scaled_quotient_le (a b k c : Z) :
  0 < b →
  (Qc_of_Z a / Qc_of_Z b * Qc_of_Z k <= Qc_of_Z c)%Qc ↔ a * k <= c * b.
Proof.
  intros Hb. unfold Qcle. rewrite Qc_scaled_quotient by done.
  unfold Qc_of_Z, Qle, inject_Z. cbn [this Qnum Qden].
  rewrite Z2Pos.id by done. lia.
Qed.

Lemma Qc_scaled_quotient_ge (a b k c : Z) :
  0 < b →
  (Qc_of_Z c <= Qc_of_Z a / Qc_of_Z b * Qc_of_Z k)%Qc ↔ c * b <= a * k.
Proof.
  intros Hb. unfold Qcle. rewrite Qc_scaled_quotient by done.
  unfold Qc_of_Z, Qle, inject_Z. cbn [this Qnum Qden].
  rewrite Z2Pos.id by done. lia.
Qed.

Lemma Qc_scaled_quotient_lt (a b k c : Z) :
  0 < b →
  (Qc_of_Z a / Qc_of_Z b * Qc_of_Z k < Qc_of_Z c)%Qc ↔ a * k < c * b.
Proof.
  intros Hb. rewrite Qclt_nge, Qc_scaled_quotient_ge by done. lia.
Qed.

Lemma Qc_scaled_quotient_eq (a b k c : Z) :
  0 < b →
  (Qc_of_Z a / Qc_of_Z b * Qc_of_Z k)%Qc = Qc_of_Z c ↔ a * k = c * b.
Proof.
  intros Hb. split.
  - intros H.
    assert (a * k <= c * b) by (apply Qc_scaled_quotient_le; [done|by rewrite H]).
    assert (c * b <= a * k) by (apply Qc_scaled_quotient_ge; [done|by rewrite H]).
    lia.
  - intros H. apply Qcle_antisym.
    + apply Qc_scaled_quotient_le; [done|lia].
    + apply Qc_scaled_quotient_ge; [done|lia].
Qed.

(** X2. The [progress] that [calculateLevel] reports is a percentage of the
    current band, at least 0 and below 100, from level 2 on.  At level 1
    the band is taken to start at 50 xp: the progress is
    [(xp - 50) / 50 * 100], negative for every xp below 50 (it is -100 for
    a new student). *)
Theorem progress_range (g : GameState.t) :
  let info := calculateLevel g in
  let xp := GameState.xp g in
  ∃ q : Qc,
    li_progress info = Finite q
    ∧ (2 <= li_level info → (Qc_of_Z 0 <= q)%Qc ∧ (q < Qc_of_Z 100)%Qc)
    ∧ (li_level info = 1 →
       q = (Qc_of_Z (xp - 50) / Qc_of_Z 50 * Qc_of_Z 100)%Qc
       ∧ ((q < Qc_of_Z 0)%Qc ↔ xp < 50)
       ∧ (xp = 0 → q = Qc_of_Z (-100))).
Proof.
  intros info xp.
  destruct (calculateLevel_thresholds g) as (Hone & Hnext & Hcur & Hup & Hlow).
  fold info xp in Hone, Hnext, Hcur, Hup, Hlow.
  assert (Hp : li_progress info
               = Finite (Qc_of_Z (xp - xpForCurrentLevel info)
                         / Qc_of_Z (li_level info * 50) * Qc_of_Z 100)%Qc).
  { assert (li_progress info
            = mul (div (ofZ (xp - xpForCurrentLevel info))
                       (ofZ (li_level info * 50))) (ofZ 100)).
    { subst info xp. unfold calculateLevel. by destruct (levelLoop _ _ _ _). }
    rewrite H. unfold ofZ at 1. by rewrite div_ofZ by lia. }
  eexists. split; [exact Hp|]. split.
  - intros H2. specialize (Hlow H2). rewrite Hcur. split.
    + apply Qc_scaled_quotient_ge; lia.
    + apply Qc_scaled_quotient_lt; [lia|].
      unfold threshold in *. nia.
  - intros H1. rewrite Hcur, H1. change (threshold (1 - 1)) with 50.
    change (1 * 50) with 50. split; [done|]. split.
    + rewrite Qc_scaled_quotient_lt by lia. lia.
    + intros H0. apply Qc_scaled_quotient_eq; lia.
Qed.

(* ================================================================== *)
(** ** Experience, level-ups and badges *)
(* ================================================================== *)

(** [addXP] reports a level-up exactly when the level rises, and a
    non-negative amount never lowers a level that agrees with the xp. *)
Lemma addXP_level_rises (g : GameState.t) (amount : Z) (t : Date) :
  (leveledUp (snd (addXP g amount t)) = true
   ↔ GameState.level g < GameState.level (fst (addXP g amount t)))
  ∧ (0 <= amount → GameState.level g = li_level (calculateLevel g) →
     GameState.level g <= GameState.level (fst (addXP g amount t))).
Proof.
  assert (Hlevel : GameState.level (fst (addXP g amount t))
                   = li_level (calculateLevel (set_xp (GameState.xp g + amount) g)))
    by apply addXP_level.
  split.
  - unfold addXP in *. cbn [set_level GameState.level] in *.
    destruct (Z.gtb_spec
                (li_level (calculateLevel (set_xp (GameState.xp g + amount) g)))
                (GameState.level g)) as [Hup|Hnot]; cbn [fst snd] in *.
    + cbn [leveledUp set_currentLevel set_level GameState.level] in *.
      split; [lia|done].
    + cbn [leveledUp set_level GameState.level] in *. split; [done|lia].
  - intros Hamount Hsync. rewrite Hlevel, Hsync.
    apply calculateLevel_mono. cbn [set_xp GameState.xp]. lia.
Qed.

(** X3. [addXP] reports a level-up exactly when the recomputed level is
    above the level stored before; it then returns the new level and
    stores a [currentLevel] named after it, unlocked now, with the xp of
    the next threshold; otherwise [currentLevel] is untouched.  When the
    stored level agrees with the stored xp, adding a non-negative amount
    never lowers the level. *)
Theorem addXP_levels_up (g : GameState.t) (amount : Z) (t : Date) :
  let g' := fst (addXP g amount t) in
  let result := snd (addXP g amount t) in
  (leveledUp result = true ↔ GameState.level g < GameState.level g')
  ∧ totalXP result = GameState.xp g + amount
  ∧ lr_xpGained result = amount
  ∧ (leveledUp result = true →
     newLevel result = Some (GameState.level g')
     ∧ GameState.currentLevel g'
       = Some {| Level.level := GameState.level g';
                 Level.name := "Level " +:+ pretty (GameState.level g');
                 Level.xpRequired := threshold (GameState.level g');
                 Level.unlockedAt := t |})
  ∧ (leveledUp result = false →
     newLevel result = None
     ∧ GameState.currentLevel g' = GameState.currentLevel g)
  ∧ (0 <= amount → GameState.level g = li_level (calculateLevel g) →
     GameState.level g <= GameState.level g').
Proof.
  intros g' result.
  assert (Hlevel : GameState.level g'
                   = li_level (calculateLevel (set_xp (GameState.xp g + amount) g)))
    by apply addXP_level.
  destruct (calculateLevel_thresholds (set_xp (GameState.xp g + amount) g))
    as (_ & Hnext & _).
  subst g' result. unfold addXP in *. cbn [set_level GameState.level] in *.
  destruct (Z.gtb_spec
              (li_level (calculateLevel (set_xp (GameState.xp g + amount) g)))
              (GameState.level g)) as [Hup|Hnot]; cbn [fst snd] in *.
  - cbn [leveledUp totalXP lr_xpGained newLevel set_currentLevel set_level
         GameState.level GameState.currentLevel GameState.xp set_xp] in *.
    split; [split; [lia|done]|]. split; [done|]. split; [done|].
    split; [intros _; split; [done|by rewrite Hnext]|].
    split; [done|]. intros _ _. lia.
  - cbn [leveledUp totalXP lr_xpGained newLevel set_level
         GameState.level GameState.currentLevel GameState.xp set_xp] in *.
    split; [split; [done|lia]|]. split; [done|]. split; [done|].
    split; [done|]. split; [done|].
    intros Hamount Hsync. rewrite Hsync.
    apply calculateLevel_mono. cbn [set_xp GameState.xp]. lia.
Qed.

(** A badge is held when its id is among the ids of the badges. *)
Lemma hasBadge_spec (g : GameState.t) (id : string) :
  hasBadge g id = true ↔ id ∈ Badge.id <$> GameState.badges g.
Proof.
  unfold hasBadge. rewrite bool_decide_eq_true, list_elem_of_fmap. split.
  - intros [[i b] (Hi & Hb & _)%list_find_Some]. exists b. split; [done|].
    by eapply list_elem_of_lookup_2.
  - intros (b & -> & Hb). by eapply list_find_elem_of.
Qed.

Lemma hasBadge_false (g : GameState.t) (id : string) :
  hasBadge g id = false ↔ id ∉ Badge.id <$> GameState.badges g.
Proof.
  rewrite <- hasBadge_spec. by destruct (hasBadge g id).
Qed.

(** X4. [checkBadges] appends the badges it returns and removes none; it
    returns no badge whose id the student holds and no id twice, so ids
    that were distinct stay distinct; and a second call right after the
    first returns nothing. *)
Theorem checkBadges_unlocks_once (g : GameState.t) (t : Date) :
  let g' := fst (checkBadges g t) in
  let new := snd (checkBadges g t) in
  GameState.badges g' = GameState.badges g ++ new
  ∧ (∀ b, b ∈ new → Badge.id b ∉ Badge.id <$> GameState.badges g)
  ∧ NoDup (Badge.id <$> new)
  ∧ (NoDup (Badge.id <$> GameState.badges g) →
     NoDup (Badge.id <$> GameState.badges g'))
  ∧ ∀ t', snd (checkBadges g' t') = [].
Proof.
  intros g' new.
  assert (Hnew : ∀ b, b ∈ new → Badge.id b ∉ Badge.id <$> GameState.badges g).
  { intros b Hb. subst new. unfold checkBadges in Hb.
    cbv zeta in Hb. cbn [snd] in Hb.
    apply hasBadge_false.
    rewrite !elem_of_app in Hb. destruct Hb as [Hb|[Hb|Hb]];
      match type of Hb with
      | _ ∈ (if ?c && negb ?h then _ else _) =>
          destruct c; cbn [andb] in Hb; [|by apply elem_of_nil in Hb];
          destruct h eqn:Hh; cbn [negb] in Hb; [by apply elem_of_nil in Hb|];
          apply list_elem_of_singleton in Hb; by subst b
      end. }
  assert (Hdistinct : NoDup (Badge.id <$> new)).
  { subst new. unfold checkBadges. cbv zeta. cbn [snd].
    destruct (_ && negb (hasBadge g "first_quiz"));
      destruct (_ && negb (hasBadge g "perfectionist"));
      destruct (_ && negb (hasBadge g "week_warrior")); cbn;
      (apply (bool_decide_unpack _); by vm_compute). }
  split; [done|]. split; [exact Hnew|]. split; [exact Hdistinct|].
  split.
  { intros Hold. change (GameState.badges g') with (GameState.badges g ++ new).
    rewrite fmap_app. apply NoDup_app. split; [done|]. split; [|done].
    intros id Hid (b & -> & Hb)%list_elem_of_fmap. by apply (Hnew b Hb). }
  intros t'. unfold checkBadges at 1. cbv zeta. cbn [snd].
  assert (Hheld : ∀ id, hasBadge g' id
                        = hasBadge g id || bool_decide (id ∈ Badge.id <$> new)).
  { intros id. apply eq_true_iff_eq.
    rewrite orb_true_iff, bool_decide_eq_true, !hasBadge_spec.
    change (GameState.badges g') with (GameState.badges g ++ new).
    rewrite fmap_app. apply elem_of_app. }
  rewrite !Hheld.
  change (GameState.stats g') with (GameState.stats g).
  change (GameState.streaks g') with (GameState.streaks g).
  subst new. unfold checkBadges. cbv zeta. cbn [snd].
  destruct (Stats.totalQuizzesCompleted (GameState.stats g) =? 1);
    destruct (eqb (Stats.averageAccuracy (GameState.stats g)) (ofZ 100));
    destruct (Streaks.current (GameState.streaks g) >=? 7);
    destruct (hasBadge g "first_quiz");
    destruct (hasBadge g "perfectionist");
    destruct (hasBadge g "week_warrior"); done.
Qed.

Lemma Qc_tenth (q : Qc) :
  (this (q / Qc_of_Z 10)%Qc == this q / inject_Z 10)%Q.
Proof.
  unfold Qcdiv, Qcmult, Qcinv, Q2Qc, Qc_of_Z. cbn [this].
  by rewrite !Qred_correct.
Qed.

Lemma Qfloor_tenth (q : Qc) :
  (Qc_of_Z 0 <= q)%Qc → (q <= Qc_of_Z 100)%Qc →
  0 <= Qfloor (q / Qc_of_Z 10)%Qc <= 10.
Proof.
  unfold Qcle, Qc_of_Z. cbn [this]. intros H0 H100.
  rewrite Qc_tenth. split.
  - rewrite <- (Qfloor_Z 0). apply Qfloor_resp_le.
    apply Qle_shift_div_l; [done|]. by rewrite Qmult_0_l.
  - rewrite <- (Qfloor_Z 10). apply Qfloor_resp_le.
    by apply Qle_shift_div_r.
Qed.

(** X5. For a score between 0 and 100 whose state [save()] accepts, the
    Reward Engine awards between 50 and 170 xp, a multiple of 10, and adds
    it to the xp stored for the student (0 when no state is stored); the
    reward reports a level-up exactly when the level stored rises (from 1
    when no state is stored), and when the level stored agrees with the xp
    stored the level does not decrease. *)
Theorem reward_is_bounded db userId attempt quiz clk (q : Qc) :
  Attempt.score attempt = Finite q →
  (Qc_of_Z 0 <= q)%Qc → (q <= Qc_of_Z 100)%Qc →
  rewardable db userId attempt →
  let xp := from_option GameState.xp 0 (gameStates db !! userId) in
  let level := from_option GameState.level 1 (gameStates db !! userId) in
  ∃ g' reward,
    snd (updateGameState db userId attempt quiz clk) = Some reward
    ∧ gameStates (fst (updateGameState db userId attempt quiz clk)) !! userId
      = Some g'
    ∧ 50 <= xpGained reward <= 170
    ∧ xpGained reward mod 10 = 0
    ∧ GameState.xp g' = xp + xpGained reward
    ∧ (leveledUp (levelResult reward) = true ↔ level < GameState.level g')
    ∧ ((∀ g, gameStates db !! userId = Some g →
             GameState.level g = li_level (calculateLevel g)) →
       level <= GameState.level g').
Proof.
  intros Hs H0 H100 Hok xp level.
  destruct (updateGameState_finite db userId attempt quiz clk q Hs Hok)
    as (reward & Hup & Hxp & Hlr).
  set (g := findOrCreate db userId clk) in *.
  assert (Hg : GameState.xp g = xp ∧ GameState.level g = level
               ∧ ((∀ g0, gameStates db !! userId = Some g0 →
                         GameState.level g0 = li_level (calculateLevel g0)) →
                  GameState.level g = li_level (calculateLevel g))).
  { subst g xp level. unfold findOrCreate.
    destruct (gameStates db !! userId) as [g0|]; cbn [from_option].
    - split; [done|]. split; [done|]. intros H. by apply H.
    - split; [done|]. split; [done|]. intros _. by vm_compute. }
  destruct Hg as (Hgx & Hgl & Hsync).
  set (totalXP := 50 + Qfloor (q / Qc_of_Z 10)%Qc * 10 + speedBonus attempt quiz)
    in *.
  exists (rewarded g totalXP attempt clk), reward.
  split; [by rewrite Hup|].
  split; [rewrite Hup; apply lookup_insert_eq|].
  pose proof (Qfloor_tenth q H0 H100) as Hfloor.
  assert (Hbonus : speedBonus attempt quiz = 0 ∨ speedBonus attempt quiz = 20)
    by (unfold speedBonus; destruct (_ <? _); auto).
  assert (Hrange : 50 <= totalXP <= 170) by (subst totalXP; lia).
  rewrite Hlr, Hxp.
  split; [done|]. split.
  { subst totalXP. destruct Hbonus as [-> | ->].
    - replace (50 + Qfloor (q / Qc_of_Z 10)%Qc * 10 + 0)
        with ((5 + Qfloor (q / Qc_of_Z 10)%Qc) * 10) by lia.
      apply Z.mod_mul. lia.
    - replace (50 + Qfloor (q / Qc_of_Z 10)%Qc * 10 + 20)
        with ((7 + Qfloor (q / Qc_of_Z 10)%Qc) * 10) by lia.
      apply Z.mod_mul. lia. }
  destruct (addXP_level_rises g totalXP (levelUpAt clk)) as (Hlevel & Hmono).
  split; [by rewrite rewarded_xp, Hgx|].
  assert (Hl' : GameState.level (rewarded g totalXP attempt clk)
                = GameState.level (fst (addXP g totalXP (levelUpAt clk))))
    by done.
  rewrite Hl', <- Hgl.
  split; [exact Hlevel|]. intros Hstored.
  exact (Hmono ltac:(lia) (Hsync Hstored)).
Qed.

(** X6. For an attempt with a finite score whose state [save()] accepts:
    whatever the streak stored for the student (a new one when no state is
    stored), after a reward the current streak is at most the longest
    streak and the longest streak has not decreased; a current streak that
    was not negative is not negative afterwards. *)
Theorem streak_never_exceeds_longest db userId attempt quiz clk (q : Qc) :
  Attempt.score attempt = Finite q →
  rewardable db userId attempt →
  let s :=
    from_option GameState.streaks
      (GameState.streaks (GameState.create userId (createdAt clk)))
      (gameStates db !! userId) in
  ∃ g',
    gameStates (fst (updateGameState db userId attempt quiz clk)) !! userId
    = Some g'
    ∧ Streaks.current (GameState.streaks g')
      <= Streaks.longest (GameState.streaks g')
    ∧ Streaks.longest s <= Streaks.longest (GameState.streaks g')
    ∧ (0 <= Streaks.current s → 0 <= Streaks.current (GameState.streaks g'))
    ∧ Streaks.current (GameState.streaks g') <= Z.max 1 (Streaks.current s + 1).
Proof.
  intros Hs Hok s.
  eexists. split; [by apply updateGameState_saved|].
  rewrite rewarded_streaks.
  assert (Hfound : GameState.streaks (findOrCreate db userId clk) = s).
  { subst s. unfold findOrCreate. by destruct (gameStates db !! userId). }
  rewrite Hfound.
  rewrite updateStreak_longest.
  unfold updateStreak. cbn [Streaks.current].
  destruct (_ =? 1); [lia|]. destruct (_ >? 1); lia.
Qed.

(** [correct / total * 100 === 100] holds when every answer is right and
    there is at least one. *)
Lemma accuracy_is_100 (c t : Z) :
  0 <= t →
  eqb (mul (div (ofZ c) (ofZ t)) (ofZ 100)) (ofZ 100)
  = bool_decide (0 < t ∧ c = t).
Proof.
  intros Ht. destruct (decide (t = 0)) as [->|Hne].
  - rewrite (bool_decide_false (0 < 0 ∧ _)) by lia.
    unfold div, mul, ofZ. rewrite (bool_decide_true (Qc_of_Z 0 = Qc_of_Z 0)) by done.
    case_bool_decide; [done|]. by case_bool_decide.
  - unfold ofZ at 1. rewrite div_ofZ by done. cbn [mul ofZ eqb].
    apply bool_decide_ext. rewrite Qc_scaled_quotient_eq by lia. lia.
Qed.

(** X7. The first reward of a student without a game state, for an
    attempt with a finite score on at least one question, is stored; it
    unlocks the badge [first_quiz], and with it [perfectionist] exactly
    when every question of the attempt was answered right; it never
    unlocks [week_warrior].  The state stored holds the badges unlocked
    and no other. *)
Theorem first_reward_badges db userId attempt quiz clk (q : Qc) :
  gameStates db !! userId = None →
  Attempt.score attempt = Finite q →
  0 < Attempt.totalQuestions attempt →
  ∃ g' reward,
    snd (updateGameState db userId attempt quiz clk) = Some reward
    ∧ gameStates (fst (updateGameState db userId attempt quiz clk)) !! userId
      = Some g'
    ∧ Badge.id <$> newBadges reward
      = "first_quiz"
        :: (if bool_decide (Attempt.correctAnswers attempt
                            = Attempt.totalQuestions attempt)
            then ["perfectionist"] else [])
    ∧ GameState.badges g' = newBadges reward.
Proof.
  intros Hnone Hs Ht.
  assert (Hok : rewardable db userId attempt).
  { split; [done|]. intros g Hg. by rewrite Hnone in Hg. }
  pose proof (updateGameState_cases db userId attempt quiz clk _
                (rewardXP_finite attempt quiz q Hs)) as Hup.
  cbv zeta in Hup.
  rewrite bool_decide_true in Hup by by apply rewardable_valid.
  rewrite Hup. cbn [fst snd save_gameState gameStates].
  eexists _, _. split; [done|]. split; [apply lookup_insert_eq|].
  cbn [newBadges].
  unfold findOrCreate. rewrite Hnone.
  set (g1 := fst (addXP _ _ _)).
  assert (Hb : GameState.badges g1 = []) by apply addXP_badges.
  assert (Hst : GameState.stats g1
                = GameState.stats (GameState.create userId (createdAt clk)))
    by apply addXP_stats.
  assert (Hsk : GameState.streaks g1
                = GameState.streaks (GameState.create userId (createdAt clk)))
    by apply addXP_streaks.
  unfold rewarded. cbv zeta. fold g1.
  unfold checkBadges. cbv zeta. cbn [fst snd set_badges GameState.badges].
  assert (Hheld : ∀ id,
    hasBadge (set_streaks (updateStreak (GameState.streaks g1) (now clk))
                (set_stats (updateStats (GameState.stats g1) attempt) g1)) id
    = false).
  { intros id. apply hasBadge_false.
    cbn [set_streaks set_stats GameState.badges]. rewrite Hb.
    apply not_elem_of_nil. }
  rewrite !Hheld. cbn [negb set_streaks set_stats GameState.stats
                       GameState.streaks GameState.badges].
  rewrite Hst, Hsk, Hb.
  cbn [GameState.create GameState.stats GameState.streaks updateStats
       Stats.totalQuizzesCompleted Stats.averageAccuracy
       Stats.totalQuestionsAnswered Stats.totalCorrectAnswers].
  change (0 + 1 =? 1) with true. cbn [andb].
  rewrite !Z.add_0_l, andb_true_r, accuracy_is_100 by lia.
  assert (Hweek : (Streaks.current
                     (updateStreak {| Streaks.current := 0; Streaks.longest := 0;
                                      Streaks.lastActivity := createdAt clk |}
                        (now clk)) >=? 7) = false).
  { unfold updateStreak. cbn [Streaks.current Streaks.lastActivity].
    destruct (_ =? 1); [done|]. by destruct (_ >? 1). }
  rewrite Hweek. cbn [andb]. rewrite app_nil_r. cbn [app].
  split; [|done].
  rewrite (bool_decide_ext (0 < Attempt.totalQuestions attempt
                            ∧ Attempt.correctAnswers attempt
                              = Attempt.totalQuestions attempt)
             (Attempt.correctAnswers attempt
              = Attempt.totalQuestions attempt)) by tauto.
  by case_bool_decide.
Qed.

(* ================================================================== *)
(** ** The submit-answer handler: failures and frame *)
(* ================================================================== *)

(** A request is accepted, or fails and leaves the database as it is. *)
Lemma submitAnswer_cases db user body clk random :
  (∃ attempt quiz question, accepted db user body attempt quiz question)
  ∨ (snd (submitAnswer db user body clk random) = db
     ∧ ∃ status message,
         fst (submitAnswer db user body clk random) = Failure status message
         ∧ (status = 403 ∨ status = 404 ∨ status = 500)).
Proof.
  unfold submitAnswer, accepted.
  case_bool_decide as Hrole; cbn [negb]; [|right; eauto 10].
  destruct (attempts db !! attemptId body) as [attempt|] eqn:Hatt;
    [|right; eauto 10].
  case_bool_decide as Hown; cbn [negb]; [|right; eauto 10].
  destruct (quizzes db !! Attempt.quiz attempt) as [quiz|] eqn:Hquiz;
    [|right; eauto 10].
  destruct (list_find _ (Quiz.questions quiz)) as [[i question]|] eqn:Hq;
    [|right; eauto 10].
  left. exists attempt, quiz, question. eauto 10.
Qed.

(** An accepted request leaves the database as it is, or saves the attempt
    with the answer, or saves the completed attempt too, or goes through
    the whole completion branch. *)
Lemma submitAnswer_database db user body clk random attempt quiz question :
  accepted db user body attempt quiz question →
  let attempt1 := answeredAttempt attempt body question clk in
  let attempt2 := completedAttempt attempt body question quiz clk in
  let db1 := save_attempt (attemptId body) attempt1 db in
  let db2 := save_attempt (attemptId body) attempt2 db1 in
  let result := submitAnswer db user body clk random in
  ((∃ message, fst result = Failure 500 message) ∧ snd result = db)
  ∨ ((∃ message, fst result = Failure 500 message)
     ∧ Quiz.totalQuestions quiz <= Z.of_nat (length (Attempt.answers attempt)) + 1
     ∧ (snd result = db1 ∨ snd result = db2))
  ∨ ((∀ status message, fst result ≠ Failure status message)
     ∧ Z.of_nat (length (Attempt.answers attempt)) + 1 < Quiz.totalQuestions quiz
     ∧ snd result = db1)
  ∨ ((∀ status message, fst result ≠ Failure status message)
     ∧ Quiz.totalQuestions quiz <= Z.of_nat (length (Attempt.answers attempt)) + 1
     ∧ ∃ db3,
         snd result = fst (updateGameState db3 (_id user) attempt2 quiz clk)
         ∧ quizzes db3 = quizzes db
         ∧ attempts db3 = attempts db2
         ∧ gameStates db3 = gameStates db
         ∧ ∀ k, k.1 ≠ _id user → progress db3 !! k = progress db !! k).
Proof.
  intros Hacc attempt1 attempt2 db1 db2 result. subst result.
  rewrite (submitAnswer_accepted _ _ _ _ _ _ _ _ Hacc).
  fold attempt1 attempt2 db1 db2.
  case_bool_decide; cbn [negb fst snd]; [|left; eauto].
  destruct (Z.geb_spec (Z.of_nat (length (Attempt.answers attempt)) + 1)
              (Quiz.totalQuestions quiz)) as [Hlast|Hmore].
  2: { right; right; left. split; [done|]. split; [lia|done]. }
  destruct (isNaN _); cbn [fst snd]; [right; left; eauto|].
  destruct (progress db !! (_id user, Attempt.quiz attempt)) as [p|].
  - destruct (masteryCastFails _ _ _); cbn [fst snd]; [right; left; eauto|].
    right; right; right. split; [done|]. split; [done|].
    eexists. split; [done|]. split; [done|]. split; [done|]. split; [done|].
    intros k Hk. cbn [save_progress progress db2 db1 save_attempt].
    apply lookup_insert_ne. intros <-. by apply Hk.
  - right; right; right. split; [done|]. split; [done|].
    eexists. split; [done|]. by repeat split.
Qed.

(** X8. When [POST /submit-answer] fails it answers 403, 404 or 500; with
    403 and 404 the database is as it was, and with 500 only the attempt
    of the request can have been saved: the quizzes, the progress records,
    the game states and the other attempts are as they were.  It answers
    403 to anyone but a student and for the attempt of another student,
    and 404 for an unknown attempt.  An accepted request with an empty
    [questionId] or [answer] is answered 500 with nothing stored; one that
    completes a quiz of 0 questions without a right answer is answered 500
    with the answer stored and the attempt not completed; one whose
    attempt validates, on a quiz that does not count 0 questions, with
    topic counts that are not negative, does not fail. *)
Theorem submitAnswer_failures db user body clk random :
  let result := submitAnswer db user body clk random in
  (∀ status message,
     fst result = Failure status message →
     (status = 403 ∨ status = 404 ∨ status = 500)
     ∧ (status ≠ 500 → snd result = db)
     ∧ quizzes (snd result) = quizzes db
     ∧ progress (snd result) = progress db
     ∧ gameStates (snd result) = gameStates db
     ∧ ∀ id, id ≠ attemptId body →
         attempts (snd result) !! id = attempts db !! id)
  ∧ (role user ≠ student →
     result = (Failure 403 "Only students can submit answers", db))
  ∧ (role user = student → attempts db !! attemptId body = None →
     result = (Failure 404 "Quiz attempt not found", db))
  ∧ (∀ attempt,
       role user = student → attempts db !! attemptId body = Some attempt →
       Attempt.student attempt ≠ _id user →
       result = (Failure 403 "Access denied", db))
  ∧ (∀ attempt quiz question,
       accepted db user body attempt quiz question →
       (questionId body = "" ∨ answer body = "" →
        result = (Failure 500 "Error submitting answer", db))
       ∧ (storable attempt body →
          Quiz.totalQuestions quiz = 0 →
          Attempt.correctAnswers attempt
          + (if checkAnswer question (answer body) then 1 else 0) = 0 →
          result
          = (Failure 500 "Error submitting answer",
             save_attempt (attemptId body)
               (answeredAttempt attempt body question clk) db))
       ∧ (storable attempt body →
          counting db user attempt →
          Quiz.totalQuestions quiz ≠ 0 →
          ∀ status message, fst result ≠ Failure status message)).
Proof.
  intros result. subst result. split; [|split; [|split; [|split]]].
  - intros status message Hfail.
    destruct (submitAnswer_cases db user body clk random)
      as [(attempt & quiz & question & Hacc)
         |(Hdb & status' & message' & Hfail' & Hstatus)].
    + destruct (submitAnswer_database db user body clk random _ _ _ Hacc)
        as [[[m Hm] Hdb]|[([m Hm] & _ & Hdb)|[[Hok _]|[Hok _]]]].
      * rewrite Hm in Hfail. injection Hfail as <- <-.
        rewrite Hdb. split; [auto|]. by repeat split.
      * rewrite Hm in Hfail. injection Hfail as <- <-.
        split; [auto|]. split; [done|].
        destruct Hdb as [-> | ->];
          cbn [save_attempt quizzes progress gameStates attempts];
          (split; [done|]); (split; [done|]); (split; [done|]);
          intros id Hid; by rewrite !lookup_insert_ne.
      * by destruct (Hok status message).
      * by destruct (Hok status message).
    + rewrite Hfail in Hfail'. injection Hfail' as <- <-.
      rewrite Hdb. split; [done|]. by repeat split.
  - intros Hrole. unfold submitAnswer. by rewrite bool_decide_false.
  - intros Hrole Hnone. unfold submitAnswer.
    rewrite bool_decide_true by done. cbn [negb]. by rewrite Hnone.
  - intros attempt Hrole Hatt Hown. unfold submitAnswer.
    rewrite bool_decide_true by done. cbn [negb]. rewrite Hatt.
    by rewrite bool_decide_false.
  - intros attempt quiz question Hacc. split; [|split].
    + intros Hempty.
      apply (submitAnswer_rejected _ _ _ _ _ _ _ _ Hacc).
      intros (_ & Hq & Ha). by destruct Hempty.
    + intros Hvalid Htotal Hcorrect.
      rewrite (submitAnswer_accepted _ _ _ _ _ _ _ _ Hacc).
      rewrite bool_decide_true by done. cbn [negb].
      destruct (Z.geb_spec (Z.of_nat (length (Attempt.answers attempt)) + 1)
                  (Quiz.totalQuestions quiz)); [|lia].
      assert (Hnan : isNaN (Attempt.score
                              (completedAttempt attempt body question quiz clk))
                     = true).
      { assert (Hc : Attempt.correctAnswers
                       (answeredAttempt attempt body question clk) = 0).
        { unfold answeredAttempt. cbn [recordAnswer Attempt.correctAnswers].
          destruct (checkAnswer question (answer body)); lia. }
        unfold completedAttempt, completeAttempt. cbn [Attempt.score].
        rewrite Htotal, Hc. by vm_compute. }
      by rewrite Hnan.
    + intros Hvalid Hcount Htotal status message.
      destruct (Z.le_gt_cases (Quiz.totalQuestions quiz)
                  (Z.of_nat (length (Attempt.answers attempt)) + 1)).
      * by rewrite (submitAnswer_completes _ _ _ _ _ _ _ _ Hacc) by done.
      * by rewrite (submitAnswer_continues _ _ _ _ _ _ _ _ Hacc) by (done || lia).
Qed.

(** [POST /submit-answer] writes no quiz. *)
Lemma submitAnswer_quizzes db user body clk random :
  quizzes (snd (submitAnswer db user body clk random)) = quizzes db.
Proof.
  destruct (submitAnswer_cases db user body clk random)
    as [(attempt & quiz & question & Hacc)|(-> & _)]; [|done].
  destruct (submitAnswer_database db user body clk random _ _ _ Hacc)
    as [[_ ->]|[(_ & _ & [-> | ->])|[(_ & _ & ->)
       |(_ & _ & db3 & -> & Hq & _)]]]; try done.
  by rewrite (proj2 (proj2 (updateGameState_attempts _ _ _ _ _))).
Qed.

(** X9. Whatever the request, [POST /submit-answer] writes no quiz, no
    attempt but the one of the request, no progress record and no game
    state of another student.  An accepted answer that does not complete
    the attempt writes the attempt only: the progress records and the game
    states are all unchanged, so the topic counters it has advanced are not
    saved. *)
Theorem submitAnswer_frame db user body clk random :
  let db' := snd (submitAnswer db user body clk random) in
  quizzes db' = quizzes db
  ∧ (∀ id, id ≠ attemptId body → attempts db' !! id = attempts db !! id)
  ∧ (∀ k, k.1 ≠ _id user → progress db' !! k = progress db !! k)
  ∧ (∀ other, other ≠ _id user →
       gameStates db' !! other = gameStates db !! other)
  ∧ (∀ attempt quiz question,
       accepted db user body attempt quiz question →
       Z.of_nat (length (Attempt.answers attempt)) + 1 < Quiz.totalQuestions quiz →
       progress db' = progress db ∧ gameStates db' = gameStates db).
Proof.
  intros db'. subst db'.
  split; [apply submitAnswer_quizzes|].
  destruct (submitAnswer_cases db user body clk random)
    as [(attempt & quiz & question & Hacc)|(-> & _)].
  2: { split; [done|]. split; [done|]. split; [done|].
       by intros attempt quiz question Hacc Hmore. }
  assert (Hsame : ∀ attempt0 quiz0 question0,
    accepted db user body attempt0 quiz0 question0 →
    attempt0 = attempt ∧ quiz0 = quiz).
  { intros attempt0 quiz0 question0 Hacc0.
    destruct Hacc as (_ & Hatt & _ & Hquiz & _).
    destruct Hacc0 as (_ & Hatt0 & _ & Hquiz0 & _).
    rewrite Hatt in Hatt0. injection Hatt0 as <-.
    rewrite Hquiz in Hquiz0. by injection Hquiz0 as <-. }
  destruct (submitAnswer_database db user body clk random _ _ _ Hacc)
    as [[_ ->]|[(_ & Hlast & Hdb)|[(_ & Hmore & ->)
       |(_ & Hlast & db3 & -> & Hq & Ha & Hg & Hp)]]].
  - split; [done|]. split; [done|]. split; [done|].
    by intros attempt0 quiz0 question0 Hacc0 Hmore0.
  - assert (Hdb' : progress (snd (submitAnswer db user body clk random))
                   = progress db
                   ∧ gameStates (snd (submitAnswer db user body clk random))
                     = gameStates db
                   ∧ ∀ id, id ≠ attemptId body →
                       attempts (snd (submitAnswer db user body clk random)) !! id
                       = attempts db !! id).
    { destruct Hdb as [-> | ->];
        cbn [save_attempt progress gameStates attempts];
        (split; [done|]); (split; [done|]);
        intros id Hid; by rewrite !lookup_insert_ne. }
    destruct Hdb' as (Hp & Hg & Ha).
    split; [done|]. rewrite Hp, Hg. split; [done|]. split; [done|].
    by intros attempt0 quiz0 question0 Hacc0 Hmore0.
  - cbn [save_attempt progress gameStates attempts].
    split; [by intros id Hid; rewrite lookup_insert_ne|].
    split; [done|]. split; [done|].
    by intros attempt0 quiz0 question0 Hacc0 Hmore0.
  - destruct (updateGameState_attempts db3 (_id user)
                (completedAttempt attempt body question quiz clk) quiz clk)
      as (Ha' & Hp' & _).
    rewrite Ha', Hp', Ha.
    split.
    { intros id Hid. cbn [save_attempt attempts].
      by rewrite !lookup_insert_ne. }
    split; [done|].
    split.
    { intros other Hne. rewrite updateGameState_others by done.
      by rewrite Hg. }
    intros attempt0 quiz0 question0 Hacc0 Hmore0.
    destruct (Hsame _ _ _ Hacc0) as [-> ->]. lia.
Qed.

(* ================================================================== *)
(** ** Attempts: counters and scores *)
(* ================================================================== *)

Lemma secondsOf_app l1 l2 : secondsOf (l1 ++ l2) = secondsOf l1 + secondsOf l2.
Proof.
  induction l1 as [|a l1 IH]; simpl; [done|]. rewrite IH. lia.
Qed.

Lemma recordAnswer_counted attempt body isCorrect t :
  counted attempt → counted (recordAnswer attempt body isCorrect t).
Proof.
  intros [Hc Ht]. split.
  - cbn [recordAnswer Attempt.correctAnswers Attempt.answers].
    rewrite filter_app, length_app, Hc.
    destruct isCorrect.
    + rewrite filter_cons_True by done. simpl. lia.
    + rewrite filter_cons_False by done. simpl. lia.
  - cbn [recordAnswer Attempt.timeSpent Attempt.answers].
    rewrite secondsOf_app, Ht. simpl. lia.
Qed.

(** Every attempt the routes produce has counters that agree with its
    answers. *)
Lemma played_counted attempt : played attempt → counted attempt.
Proof.
  induction 1 as [student quizId quiz|attempt body isCorrect t _ IH _ _
                 |attempt quiz t _ IH _].
  - done.
  - by apply recordAnswer_counted.
  - done.
Qed.

(** Every attempt the routes produce passes the validation of [save()]. *)
Lemma played_valid attempt : played attempt → Attempt.valid attempt.
Proof.
  induction 1 as [student quizId quiz|attempt body isCorrect t _ IH Hq Ha
                 |attempt quiz t _ IH _].
  - by constructor.
  - by apply recordAnswer_valid.
  - done.
Qed.

Lemma counted_bounds attempt :
  counted attempt →
  0 <= Attempt.correctAnswers attempt
    <= Z.of_nat (length (Attempt.answers attempt)).
Proof.
  intros [-> _]. split; [lia|]. apply inj_le, length_filter.
Qed.

(** X10. In every attempt the routes produce, [correctAnswers] is the
    number of answer records marked correct and [timeSpent] is the sum of
    their times; an accepted answer that the attempt can store saves an
    attempt with one more answer record for which this still holds. *)
Theorem attempt_counters_agree
    db user body clk random attempt quiz question :
  accepted db user body attempt quiz question →
  played attempt →
  storable attempt body →
  counted attempt
  ∧ ∃ attempt',
      attempts (snd (submitAnswer db user body clk random)) !! attemptId body
      = Some attempt'
      ∧ played attempt'
      ∧ counted attempt'
      ∧ length (Attempt.answers attempt')
        = S (length (Attempt.answers attempt)).
Proof.
  intros Hacc Hplayed Hvalid. split; [by apply played_counted|].
  rewrite (submitAnswer_attempt _ _ _ _ _ _ _ _ Hacc).
  rewrite bool_decide_true by done.
  assert (Hone : played (answeredAttempt attempt body question clk)).
  { destruct Hvalid as (_ & Hq & Ha). by constructor. }
  eexists. split; [done|].
  destruct (_ >=? _); cbn [andb].
  - destruct (isNaN _) eqn:Hnan; cbn [negb].
    + split; [done|]. split; [by apply played_counted|].
      cbn. rewrite length_app. simpl. lia.
    + assert (Htwo : played (completedAttempt attempt body question quiz clk))
        by (by constructor).
      split; [done|]. split; [by apply played_counted|].
      cbn. rewrite length_app. simpl. lia.
  - split; [done|]. split; [by apply played_counted|].
    cbn. rewrite length_app. simpl. lia.
Qed.

Lemma completedAttempt_score (attempt : Attempt.t) body question quiz clk :
  1 <= Quiz.totalQuestions quiz →
  Attempt.score (completedAttempt attempt body question quiz clk)
  = Finite (Qc_of_Z (Attempt.correctAnswers
                       (answeredAttempt attempt body question clk))
            / Qc_of_Z (Quiz.totalQuestions quiz) * Qc_of_Z 100)%Qc.
Proof.
  intros Htq. unfold completedAttempt, completeAttempt. cbn [Attempt.score].
  unfold ofZ at 1. by rewrite div_ofZ by lia.
Qed.

(** X11. When an accepted answer that the attempt can store brings an
    attempt the routes have produced from below the quiz's number of
    questions up to it, the topic counts stored not being negative, the
    score of the completed attempt is a number between 0 and 100; it is
    100 exactly when every answer is right and 0 exactly when none is. *)
Theorem completion_score_is_a_percentage
    db user body clk random attempt quiz question :
  accepted db user body attempt quiz question →
  played attempt →
  storable attempt body →
  counting db user attempt →
  Z.of_nat (length (Attempt.answers attempt)) < Quiz.totalQuestions quiz →
  Quiz.totalQuestions quiz <= Z.of_nat (length (Attempt.answers attempt)) + 1 →
  ∃ (q : Qc) correct seconds,
    fst (submitAnswer db user body clk random)
    = QuizCompleted (Finite q) correct (Quiz.totalQuestions quiz) seconds
    ∧ correct = Attempt.correctAnswers attempt
                + (if checkAnswer question (answer body) then 1 else 0)
    ∧ (Qc_of_Z 0 <= q)%Qc ∧ (q <= Qc_of_Z 100)%Qc
    ∧ (q = Qc_of_Z 100 ↔ correct = Quiz.totalQuestions quiz)
    ∧ (q = Qc_of_Z 0 ↔ correct = 0).
Proof.
  intros Hacc Hplayed Hvalid Hcount Hbelow Hlast.
  pose proof (counted_bounds attempt (played_counted attempt Hplayed)) as Hb.
  rewrite (submitAnswer_completes _ _ _ _ _ _ _ _ Hacc) by (done || lia).
  cbn [fst].
  rewrite completedAttempt_score by lia.
  eexists _, _, _. split; [done|].
  assert (Hc : Attempt.correctAnswers
                 (completedAttempt attempt body question quiz clk)
               = Attempt.correctAnswers attempt
                 + (if checkAnswer question (answer body) then 1 else 0)).
  { cbn. destruct (checkAnswer question (answer body)); lia. }
  split; [exact Hc|].
  change (Attempt.correctAnswers (answeredAttempt attempt body question clk))
    with (Attempt.correctAnswers
            (completedAttempt attempt body question quiz clk)).
  rewrite Hc.
  assert (Hone : (if checkAnswer question (answer body) then 1 else 0) <= 1)
    by (destruct (checkAnswer _ _); lia).
  assert (Hzero : 0 <= (if checkAnswer question (answer body) then 1 else 0))
    by (destruct (checkAnswer _ _); lia).
  split; [apply Qc_scaled_quotient_ge; lia|].
  split; [apply Qc_scaled_quotient_le; lia|].
  split; rewrite Qc_scaled_quotient_eq by lia; lia.
Qed.

Lemma Qfloor_tenth_nonneg (q : Qc) :
  (Qc_of_Z 0 <= q)%Qc → 0 <= Qfloor (q / Qc_of_Z 10)%Qc.
Proof.
  unfold Qcle, Qc_of_Z. cbn [this]. intros H0.
  rewrite Qc_tenth. rewrite <- (Qfloor_Z 0). apply Qfloor_resp_le.
  apply Qle_shift_div_l; [done|]. by rewrite Qmult_0_l.
Qed.

(** X12. The handler does not look at [isCompleted].  An accepted answer
    to an attempt that already has as many answers as the quiz has
    questions, when the attempt can store it, the topic counts stored are
    not negative and [save()] accepts the game state, completes the
    attempt again and rewards it again: the xp stored for the student (0
    when no state is stored) grows by at least 50 more, and the new score
    is above 100 as soon as the right answers outnumber the questions. *)
Theorem completed_attempt_is_rewarded_again
    db user body clk random attempt quiz question :
  accepted db user body attempt quiz question →
  played attempt →
  storable attempt body →
  counting db user attempt →
  rewardable db (_id user) attempt →
  1 <= Quiz.totalQuestions quiz →
  Quiz.totalQuestions quiz <= Z.of_nat (length (Attempt.answers attempt)) →
  ∃ (q : Qc) correct seconds g',
    fst (submitAnswer db user body clk random)
    = QuizCompleted (Finite q) correct (Quiz.totalQuestions quiz) seconds
    ∧ correct = Attempt.correctAnswers attempt
                + (if checkAnswer question (answer body) then 1 else 0)
    ∧ (Quiz.totalQuestions quiz < correct → (Qc_of_Z 100 < q)%Qc)
    ∧ gameStates (snd (submitAnswer db user body clk random)) !! _id user
      = Some g'
    ∧ from_option GameState.xp 0 (gameStates db !! _id user) + 50
      <= GameState.xp g'.
Proof.
  intros Hacc Hplayed Hvalid Hcount Hok Htq Hdone.
  pose proof (counted_bounds attempt (played_counted attempt Hplayed)) as Hb.
  assert (Hlast : Quiz.totalQuestions quiz
                  <= Z.of_nat (length (Attempt.answers attempt)) + 1) by lia.
  assert (Htotal : Quiz.totalQuestions quiz ≠ 0) by lia.
  pose proof (completedAttempt_score attempt body question quiz clk Htq) as Hs.
  assert (Hc : Attempt.correctAnswers (answeredAttempt attempt body question clk)
               = Attempt.correctAnswers attempt
                 + (if checkAnswer question (answer body) then 1 else 0)).
  { cbn. destruct (checkAnswer question (answer body)); lia. }
  assert (Hzero : 0 <= (if checkAnswer question (answer body) then 1 else 0))
    by (destruct (checkAnswer _ _); lia).
  assert (Hok' : rewardable db (_id user)
                   (completedAttempt attempt body question quiz clk))
    by exact Hok.
  rewrite (submitAnswer_rewards _ _ _ _ _ _ _ _ Hacc) by done.
  rewrite (submitAnswer_completes _ _ _ _ _ _ _ _ Hacc) by done. cbn [fst].
  rewrite (updateGameState_saved _ _ _ _ _ _ Hs Hok').
  rewrite Hs. eexists _, _, _, _. split; [done|].
  split; [exact Hc|].
  split.
  { intros Hmore. apply Qclt_nge. rewrite Qc_scaled_quotient_le by lia.
    change (Attempt.correctAnswers
              (completedAttempt attempt body question quiz clk))
      with (Attempt.correctAnswers (answeredAttempt attempt body question clk))
      in Hmore.
    lia. }
  split; [done|].
  rewrite rewarded_xp.
  assert (Hxp : GameState.xp (findOrCreate db (_id user) clk)
                = from_option GameState.xp 0 (gameStates db !! _id user)).
  { unfold findOrCreate. by destruct (gameStates db !! _id user). }
  rewrite Hxp.
  assert (0 <= Qfloor
            ((Qc_of_Z (Attempt.correctAnswers
                         (answeredAttempt attempt body question clk))
              / Qc_of_Z (Quiz.totalQuestions quiz) * Qc_of_Z 100)
             / Qc_of_Z 10)%Qc).
  { apply Qfloor_tenth_nonneg, Qc_scaled_quotient_ge; lia. }
  assert (0 <= speedBonus (completedAttempt attempt body question quiz clk) quiz)
    by (unfold speedBonus; destruct (_ <? _); lia).
  lia.
Qed.

(* ================================================================== *)
(** ** Question selection: what is never returned *)
(* ================================================================== *)

Lemma head_filter_elem {A} (P : A → Prop) `{!∀ x, Decision (P x)}
    (l : list A) (x : A) :
  head (filter P l) = Some x → x ∈ l ∧ P x.
Proof.
  intros Hhead. assert (Hin : x ∈ filter P l).
  { destruct (filter P l); simplify_eq/=. by left. }
  apply list_elem_of_filter in Hin. tauto.
Qed.

(** X13. With a draw of [Math.random()], a double in [0, 1),
    [getNextQuestion] never returns a question already answered in the
    attempt nor a question from outside the quiz, and it returns [null]
    exactly when every question of the quiz is answered. *)
Theorem getNextQuestion_is_unanswered quiz attempt progress (random : Qc) :
  (Qc_of_Z 0 <= random)%Qc ∧ (random < Qc_of_Z 1)%Qc →
  isDouble random →
  (∀ q, getNextQuestion quiz attempt progress random = Some q →
        q ∈ Quiz.questions quiz ∧ isAnswered attempt q = false)
  ∧ (getNextQuestion quiz attempt progress random = None
     ↔ ∀ q, q ∈ Quiz.questions quiz → isAnswered attempt q = true).
Proof.
  intros Hrandom Hdouble. unfold getNextQuestion.
  set (weakTopicQuestions :=
         match progress with
         | Some p =>
             if (0 <? length (Progress.weakTopics p))%nat
             then filter (λ q, bool_decide (Question.topic q ∈ Progress.weakTopics p)
                               && negb (isAnswered attempt q))
                         (Quiz.questions quiz)
             else []
         | None => []
         end).
  set (unanswered := filter (λ q, negb (isAnswered attempt q)) (Quiz.questions quiz)).
  assert (Hweak : ∀ q, q ∈ weakTopicQuestions →
                       q ∈ Quiz.questions quiz ∧ isAnswered attempt q = false).
  { intros q Hq. subst weakTopicQuestions.
    destruct progress as [p|]; [|by apply elem_of_nil in Hq].
    destruct (0 <? _)%nat; [|by apply elem_of_nil in Hq].
    apply list_elem_of_filter in Hq as [[_ Hun]%andb_True Hin].
    split; [done|]. by destruct (isAnswered attempt q). }
  assert (Hun : ∀ q, q ∈ unanswered
                     ↔ q ∈ Quiz.questions quiz ∧ isAnswered attempt q = false).
  { intros q. subst unanswered. rewrite list_elem_of_filter.
    split.
    - intros [Hp Hin]. split; [done|]. by destruct (isAnswered attempt q).
    - intros [Hin Hf]. split; [by rewrite Hf|done]. }
  destruct weakTopicQuestions as [|w rest] eqn:Hw.
  - change (0 <? length [])%nat with false. cbv iota.
    destruct unanswered as [|u rest] eqn:Hu.
    + change (0 <? length [])%nat with false. cbv iota.
      split; [done|]. split; [|done]. intros _ q Hq.
      destruct (isAnswered attempt q) eqn:Ha; [done|].
      assert (q ∈ []) as H%elem_of_nil by (by apply Hun). done.
    + assert (Hlen : (0 < length (u :: rest))%nat) by (simpl; lia).
      rewrite (proj2 (Nat.ltb_lt _ _) Hlen).
      pose proof (random_index random (length (u :: rest)) Hlen Hrandom Hdouble) as Hidx.
      unfold at_index.
      destruct (Z.ltb_spec (Qfloor (binary64 (random
                  * Qc_of_Z (Z.of_nat (length (u :: rest))))%Qc)) 0); [lia|].
      destruct (lookup_lt_is_Some_2 (u :: rest)
                  (Z.to_nat (Qfloor (binary64 (random
                     * Qc_of_Z (Z.of_nat (length (u :: rest))))%Qc))))
        as [q Hq]; [lia|].
      rewrite Hq. split.
      * intros q' [= <-]. apply Hun. by eapply list_elem_of_lookup_2.
      * split; [done|]. intros Hall.
        assert (u ∈ u :: rest) as [Hin Hfalse]%Hun by (by left).
        by rewrite (Hall u Hin) in Hfalse.
  - change (0 <? length (w :: rest))%nat with true. cbv iota. cbn [head].
    assert (w ∈ w :: rest) as [Hin Hfalse]%Hweak by (by left).
    split.
    + by intros q [= <-].
    + split; [done|]. intros Hall. by rewrite (Hall w Hin) in Hfalse.
Qed.

(** X14. On [GET /adaptive/next/:attemptId], for a student's own attempt
    at an adaptive quiz, a question returned is a question of the quiz not
    yet answered in the attempt, numbered one more than the answers given;
    the route reports [quizComplete] exactly when at least one answer is
    given and every question is answered; and it returns no question
    ([question: undefined]) only before the first answer, when the quiz
    has no easy question. *)
Theorem adaptive_route_is_safe db user attemptId attempt quiz :
  role user = student →
  attempts db !! attemptId = Some attempt →
  Attempt.student attempt = _id user →
  quizzes db !! Attempt.quiz attempt = Some quiz →
  Quiz.adaptiveMode quiz = true →
  (∀ q n performance,
     adaptiveNext db user attemptId = NextQuestion (Some q) n performance →
     q ∈ Quiz.questions quiz ∧ isAnswered attempt q = false
     ∧ n = Z.of_nat (length (Attempt.answers attempt)) + 1)
  ∧ ((∃ performance, adaptiveNext db user attemptId = QuizComplete performance)
     ↔ Attempt.answers attempt ≠ []
       ∧ ∀ q, q ∈ Quiz.questions quiz → isAnswered attempt q = true)
  ∧ (∀ n performance,
       adaptiveNext db user attemptId = NextQuestion None n performance →
       Attempt.answers attempt = []
       ∧ ∀ q, q ∈ Quiz.questions quiz → Question.difficulty q ≠ easy)
  ∧ ∀ status message,
      adaptiveNext db user attemptId ≠ AdaptiveFailure status message.
Proof.
  intros Hrole Hatt Hown Hquiz Hmode.
  unfold adaptiveNext.
  rewrite bool_decide_true by done. cbn [negb]. rewrite Hatt.
  rewrite bool_decide_true by done. cbn [negb]. rewrite Hquiz, Hmode.
  cbn [negb].
  destruct (Attempt.answers attempt) as [|a answers] eqn:Hanswers.
  - change (Z.of_nat (length []) =? 0) with true. cbv iota.
    assert (Hnone : ∀ q, isAnswered attempt q = false).
    { intros q. unfold isAnswered. rewrite Hanswers. by vm_compute. }
    split; [|split; [|split]].
    + intros q n performance [= Hq <- _].
      apply fmap_Some in Hq as [[i q'] [(Hi & _)%list_find_Some ->]].
      split; [by eapply list_elem_of_lookup_2|]. by split.
    + split; [by intros [p Hp]|by intros [? _]].
    + intros n performance [= Hq _ _]. split; [done|].
      apply fmap_None, list_find_None in Hq.
      intros q Hin. by apply (proj1 (Forall_forall _ _) Hq).
    + done.
  - assert (Hpos : (Z.of_nat (length (a :: answers)) =? 0) = false)
      by (apply Z.eqb_neq; simpl; lia).
    rewrite Hpos.
    set (target := nextDifficulty (currentAccuracy attempt)).
    set (available := filter (λ q, bool_decide (Question.difficulty q = target)
                                   && negb (isAnswered attempt q))
                             (Quiz.questions quiz)).
    set (remaining := filter (λ q, negb (isAnswered attempt q))
                             (Quiz.questions quiz)).
    assert (Hav : ∀ q, q ∈ available →
                       q ∈ Quiz.questions quiz ∧ isAnswered attempt q = false).
    { intros q [[_ Hun]%andb_True Hin]%list_elem_of_filter.
      split; [done|]. by destruct (isAnswered attempt q). }
    assert (Hre : ∀ q, q ∈ remaining
                       ↔ q ∈ Quiz.questions quiz ∧ isAnswered attempt q = false).
    { intros q. subst remaining. rewrite list_elem_of_filter.
      split.
    - intros [Hp Hin]. split; [done|]. by destruct (isAnswered attempt q).
    - intros [Hin Hf]. split; [by rewrite Hf|done]. }
    destruct available as [|q0 rest0] eqn:Ha.
    + destruct remaining as [|q1 rest1] eqn:Hr.
      * split; [done|]. split; [|by split].
        split; [|by eauto]. intros _. split; [done|]. intros q Hq.
        destruct (isAnswered attempt q) eqn:Hans; [done|].
        assert (q ∈ []) as H%elem_of_nil by (by apply Hre). done.
      * assert (q1 ∈ q1 :: rest1) as [Hin Hfalse]%Hre by (by left).
        split; [by intros q n p [= <- <- _]|].
        split; [|by split].
        split; [by intros [p Hp]|]. intros [_ Hall].
        by rewrite (Hall q1 Hin) in Hfalse.
    + assert (q0 ∈ q0 :: rest0) as [Hin Hfalse]%Hav by (by left).
      split; [by intros q n p [= <- <- _]|].
      split; [|by split].
      split; [by intros [p Hp]|]. intros [_ Hall].
      by rewrite (Hall q0 Hin) in Hfalse.
Qed.

(* ================================================================== *)
(** ** Mastery tracking: the counters *)
(* ================================================================== *)

Lemma answeredIn_insert l i tm tm' :
  l !! i = Some tm →
  answeredIn (<[i := tm']> l)
  = answeredIn l - TopicMastery.questionsAnswered tm
    + TopicMastery.questionsAnswered tm'.
Proof.
  revert i. induction l as [|x l IH]; intros [|i] Hi; simplify_eq/=.
  - lia.
  - rewrite (IH i Hi). lia.
Qed.

Lemma correctIn_insert l i tm tm' :
  l !! i = Some tm →
  correctIn (<[i := tm']> l)
  = correctIn l - TopicMastery.correctAnswers tm
    + TopicMastery.correctAnswers tm'.
Proof.
  revert i. induction l as [|x l IH]; intros [|i] Hi; simplify_eq/=.
  - lia.
  - rewrite (IH i Hi). lia.
Qed.

(** "Update topic mastery" counts the answer once when the topic of the
    question is listed in the record, and not at all otherwise. *)
Lemma updateTopicMastery_counts question isCorrect p :
  let listed :=
    bool_decide (Question.topic question
                 ∈ TopicMastery.topic <$> Progress.topicMastery p) in
  let updated := updateTopicMastery question isCorrect p in
  answeredIn (Progress.topicMastery updated)
  = answeredIn (Progress.topicMastery p) + (if listed then 1 else 0)
  ∧ correctIn (Progress.topicMastery updated)
    = correctIn (Progress.topicMastery p)
      + (if listed && isCorrect then 1 else 0).
Proof.
  intros listed updated. subst updated.
  rewrite updateTopicMastery_entries.
  destruct (list_find _ _) as [[i tm]|] eqn:Hfind.
  - apply list_find_Some in Hfind as (Hi & Htopic & _).
    assert (Hl : listed = true).
    { apply bool_decide_eq_true, list_elem_of_fmap. exists tm.
      split; [done|]. by eapply list_elem_of_lookup_2. }
    rewrite Hl, (answeredIn_insert _ _ _ _ Hi), (correctIn_insert _ _ _ _ Hi).
    cbn. destruct isCorrect; lia.
  - apply list_find_None in Hfind.
    assert (Hl : listed = false).
    { apply bool_decide_eq_false. intros (tm & Htopic & Hin)%list_elem_of_fmap.
      by apply (proj1 (Forall_forall _ _) Hfind tm Hin). }
    rewrite Hl. cbn. lia.
Qed.

(** X15. The progress record saved when an attempt completes, the answer
    being one the attempt can store, on a quiz that does not count 0
    questions and with topic counts that are not negative, counts one
    answer, the last, whatever the number of answers of the attempt: over
    all topic entries, [questionsAnswered] has grown by 1 when the topic of
    the last question is listed in the record (by 0 when it is not), and
    [correctAnswers] by 1 when, moreover, the last answer is right. *)
Theorem completion_counts_the_last_answer
    db user body clk random attempt quiz question p :
  accepted db user body attempt quiz question →
  storable attempt body →
  counting db user attempt →
  Quiz.totalQuestions quiz ≠ 0 →
  Quiz.totalQuestions quiz <= Z.of_nat (length (Attempt.answers attempt)) + 1 →
  progress db !! (_id user, Attempt.quiz attempt) = Some p →
  let listed :=
    bool_decide (Question.topic question
                 ∈ TopicMastery.topic <$> Progress.topicMastery p) in
  ∃ p',
    progress (snd (submitAnswer db user body clk random))
      !! (_id user, Attempt.quiz attempt) = Some p'
    ∧ answeredIn (Progress.topicMastery p')
      = answeredIn (Progress.topicMastery p) + (if listed then 1 else 0)
    ∧ correctIn (Progress.topicMastery p')
      = correctIn (Progress.topicMastery p)
        + (if listed && checkAnswer question (answer body) then 1 else 0)
    ∧ length (Progress.topicMastery p') = length (Progress.topicMastery p)
    ∧ TopicMastery.topic <$> Progress.topicMastery p'
      = TopicMastery.topic <$> Progress.topicMastery p.
Proof.
  intros Hacc Hvalid Hcount Htotal Hlast Hp listed.
  rewrite (submitAnswer_progress _ _ _ _ _ _ _ _ Hacc), Hp.
  rewrite !bool_decide_true by done.
  destruct (Z.geb_spec (Z.of_nat (length (Attempt.answers attempt)) + 1)
              (Quiz.totalQuestions quiz)); [|lia].
  rewrite (completedAttempt_score_number _ _ _ _ _ Htotal).
  cbn [from_option].
  rewrite masteryCastFails_counts by (intros tm Htm; by apply (Hcount p tm)).
  cbn [andb negb fmap option_fmap option_map].
  eexists. split; [done|].
  cbn [finalizeProgress Progress.topicMastery].
  destruct (updateTopicMastery_counts question
              (checkAnswer question (answer body)) p) as [Ha Hc].
  split; [exact Ha|]. split; [exact Hc|].
  rewrite updateTopicMastery_entries.
  destruct (list_find _ _) as [[i tm]|] eqn:Hfind; [|done].
  apply list_find_Some in Hfind as (Hi & _).
  split; [apply length_insert|].
  rewrite list_fmap_insert. cbn [answerTopic TopicMastery.topic].
  apply list_insert_id. by rewrite list_lookup_fmap, Hi.
Qed.

(* ================================================================== *)
(** ** A whole attempt *)
(* ================================================================== *)

Lemma submitAll_attempt user clk random id quizId quiz bodies :
  role user = student →
  Quiz.totalQuestions quiz ≠ 0 →
  (∀ body, body ∈ bodies →
     attemptId body = id
     ∧ questionId body ≠ "" ∧ answer body ≠ ""
     ∧ is_Some (list_find (λ q, Question.questionId q = questionId body)
                          (Quiz.questions quiz))) →
  ∀ db attempt,
    attempts db !! id = Some attempt →
    Attempt.student attempt = _id user →
    Attempt.quiz attempt = quizId →
    quizzes db !! quizId = Some quiz →
    Attempt.valid attempt →
    ∃ attempt',
      attempts (submitAll db user clk random bodies) !! id = Some attempt'
      ∧ Attempt.student attempt' = _id user
      ∧ Attempt.quiz attempt' = quizId
      ∧ quizzes (submitAll db user clk random bodies) !! quizId = Some quiz
      ∧ (played attempt → played attempt')
      ∧ length (Attempt.answers attempt')
        = (length (Attempt.answers attempt) + length bodies)%nat
      ∧ Attempt.isCompleted attempt'
        = Attempt.isCompleted attempt
          || bool_decide (bodies ≠ []
                          ∧ Quiz.totalQuestions quiz
                            <= Z.of_nat (length (Attempt.answers attempt)
                                         + length bodies)).
Proof.
  intros Hrole Htotal. induction bodies as [|body bodies IH];
    intros Hbodies db attempt Hatt Hown Hqid Hquiz Hvalid.
  - exists attempt. cbn [submitAll foldl length].
    rewrite Nat.add_0_r, bool_decide_false by (by intros [? _]).
    by rewrite orb_false_r.
  - destruct (Hbodies body) as (Hid & Hqne & Hane & [[i question] Hq]);
      [by left|].
    assert (Hacc : accepted db user body attempt quiz question).
    { unfold accepted. rewrite Hid, Hqid. eauto 10. }
    assert (Hstorable : storable attempt body) by done.
    pose proof (submitAnswer_attempt db user body clk random _ _ _ Hacc) as Hsaved.
    rewrite Hid in Hsaved.
    rewrite bool_decide_true in Hsaved by done.
    rewrite (completedAttempt_score_number _ _ _ _ _ Htotal) in Hsaved.
    cbn [negb] in Hsaved. rewrite andb_true_r in Hsaved.
    pose proof (submitAnswer_quizzes db user body clk random) as Hquizzes.
    set (attempt1 := if Z.of_nat (length (Attempt.answers attempt)) + 1
                        >=? Quiz.totalQuestions quiz
                     then completedAttempt attempt body question quiz clk
                     else answeredAttempt attempt body question clk) in *.
    assert (Hlen1 : length (Attempt.answers attempt1)
                    = S (length (Attempt.answers attempt))).
    { subst attempt1. destruct (_ >=? _); cbn; rewrite length_app; simpl; lia. }
    assert (Hflag1 : Attempt.isCompleted attempt1
                     = Attempt.isCompleted attempt
                       || (Z.of_nat (length (Attempt.answers attempt)) + 1
                           >=? Quiz.totalQuestions quiz)).
    { subst attempt1. destruct (_ >=? _); cbn;
        by rewrite ?orb_true_r, ?orb_false_r. }
    assert (Hvalid1 : Attempt.valid attempt1).
    { assert (Attempt.valid (answeredAttempt attempt body question clk))
        by (by apply recordAnswer_valid).
      subst attempt1. by destruct (_ >=? _). }
    destruct (IH (λ b Hb, Hbodies b (list_elem_of_further _ _ _ Hb))
                (snd (submitAnswer db user body clk random)) attempt1)
      as (attempt' & Hfinal & Hown' & Hqid' & Hquiz' & Hplayed' & Hlen' & Hflag').
    + exact Hsaved.
    + subst attempt1. by destruct (_ >=? _).
    + subst attempt1. by destruct (_ >=? _).
    + by rewrite Hquizzes.
    + exact Hvalid1.
    + exists attempt'. cbn [submitAll foldl] in *.
      split; [done|]. split; [done|]. split; [done|]. split; [done|].
      split.
      { intros Hp. apply Hplayed'. subst attempt1.
        assert (Hone : played (answeredAttempt attempt body question clk))
          by (by constructor).
        destruct (_ >=? _); [|done].
        constructor; [done|].
        apply (completedAttempt_score_number _ _ _ _ _ Htotal). }
      split; [rewrite Hlen', Hlen1; simpl; lia|].
      rewrite Hflag', Hflag1, Hlen1.
      destruct (Attempt.isCompleted attempt); [done|]. cbn [orb].
      destruct (Z.geb_spec (Z.of_nat (length (Attempt.answers attempt)) + 1)
                  (Quiz.totalQuestions quiz)).
      * cbn [orb]. symmetry. apply bool_decide_eq_true.
        split; [done|]. simpl. lia.
      * cbn [orb]. apply bool_decide_ext. simpl.
        split.
        -- intros [_ Hle]. split; [done|]. lia.
        -- intros [_ Hle]. split; [|lia]. intros ->. simpl in Hle. lia.
Qed.

(** X16. A student who answers [k] questions of a quiz that does not
    count 0 questions, in a row on a new attempt of their own, each request
    naming a question of the quiz and giving an answer that is not empty,
    has an attempt with [k] answers, and the attempt is completed exactly
    when [k] is at least 1 and at least the quiz's number of questions: no
    earlier answer completes it, and the answer that reaches the number
    does. *)
Theorem attempt_completes_at_the_last_question
    db user clk random id quizId quiz bodies :
  role user = student →
  attempts db !! id = Some (newAttempt (_id user) quizId quiz) →
  quizzes db !! quizId = Some quiz →
  Quiz.totalQuestions quiz ≠ 0 →
  (∀ body, body ∈ bodies →
     attemptId body = id
     ∧ questionId body ≠ "" ∧ answer body ≠ ""
     ∧ is_Some (list_find (λ q, Question.questionId q = questionId body)
                          (Quiz.questions quiz))) →
  ∃ attempt',
    attempts (submitAll db user clk random bodies) !! id = Some attempt'
    ∧ played attempt'
    ∧ length (Attempt.answers attempt') = length bodies
    ∧ (Attempt.isCompleted attempt' = true
       ↔ bodies ≠ [] ∧ Quiz.totalQuestions quiz <= Z.of_nat (length bodies)).
Proof.
  intros Hrole Hatt Hquiz Htotal Hbodies.
  destruct (submitAll_attempt user clk random id quizId quiz bodies Hrole
              Htotal Hbodies db (newAttempt (_id user) quizId quiz) Hatt
              eq_refl eq_refl Hquiz)
    as (attempt' & Hfinal & _ & _ & _ & Hplayed & Hlen & Hflag).
  { by constructor. }
  exists attempt'. split; [done|]. split; [apply Hplayed; constructor|].
  split; [done|]. rewrite Hflag. cbn [newAttempt Attempt.isCompleted
                                      Attempt.answers length orb Nat.add].
  apply bool_decide_eq_true.
Qed.

(* ================================================================== *)
(** ** Classes: joining and leaving *)
(* ================================================================== *)

Lemma updateStats_idem (c : Class.t) :
  Class.updateStats (Class.updateStats c) = Class.updateStats c.
Proof. done. Qed.

Section ClassCollection.

Context (db : ClassDb) (id : ObjectId) (c c' : Class.t) (i : nat).
Hypothesis Hids : NoDup (fst <$> classes db).
Hypothesis Hi : classes db !! i = Some (id, c).

(** The documents have distinct [_id]s: the one at [i] is the only one
    with its [_id]. *)
Lemma class_id_unique j e :
  classes db !! j = Some e → e.1 = id → j = i.
Proof.
  intros Hj He. eapply NoDup_lookup; [exact Hids| |].
  - by rewrite list_lookup_fmap, Hj.
  - rewrite list_lookup_fmap, Hi. cbn. by rewrite He.
Qed.

Lemma findClassById_found : findClassById id db = Some (id, c).
Proof.
  unfold findClassById.
  assert (list_find (λ e : ObjectId * Class.t, e.1 = id) (classes db)
          = Some (i, (id, c))) as ->; [|done].
  apply list_find_Some. split; [done|]. split; [done|].
  intros j e Hj Hlt He. pose proof (class_id_unique j e Hj He). lia.
Qed.

Lemma saveClass_lookup j :
  classes (saveClass id c' db) !! j
  = if decide (j = i) then Some (id, Class.updateStats c')
    else classes db !! j.
Proof.
  cbn [saveClass classes]. rewrite list_lookup_fmap.
  destruct (decide (j = i)) as [->|Hne].
  - rewrite Hi. cbn. by rewrite bool_decide_true.
  - destruct (classes db !! j) as [e|] eqn:Hj; [|done]. cbn.
    rewrite bool_decide_false; [done|].
    intros He. by apply Hne, (class_id_unique j e).
Qed.

Lemma saveClass_ids :
  fst <$> classes (saveClass id c' db) = fst <$> classes db.
Proof.
  cbn [saveClass classes]. rewrite <- list_fmap_compose.
  apply list_fmap_ext. intros j e _. cbn. by case_bool_decide.
Qed.

(** A search that found the document finds the saved document in its
    place when the saved document still matches. *)
Lemma saveClass_find (P : ObjectId * Class.t → Prop)
    `{!∀ e, Decision (P e)} :
  list_find P (classes db) = Some (i, (id, c)) →
  P (id, Class.updateStats c') →
  list_find P (classes (saveClass id c' db))
  = Some (i, (id, Class.updateStats c')).
Proof.
  intros (_ & _ & Hmin)%list_find_Some HP.
  apply list_find_Some. rewrite saveClass_lookup.
  rewrite decide_True by done. split; [done|]. split; [done|].
  intros j e Hj Hlt. rewrite saveClass_lookup in Hj.
  rewrite decide_False in Hj by lia. by apply (Hmin j).
Qed.

Lemma findClassById_saved :
  findClassById id (saveClass id c' db) = Some (id, Class.updateStats c').
Proof.
  unfold findClassById.
  rewrite (saveClass_find (λ e, e.1 = id)); [done| |done].
  apply list_find_Some. split; [done|]. split; [done|].
  intros j e Hj Hlt He. pose proof (class_id_unique j e Hj He). lia.
Qed.

Lemma findClassById_other id' :
  id' ≠ id →
  findClassById id' (saveClass id c' db) = findClassById id' db.
Proof.
  intros Hne. unfold findClassById. cbn [saveClass classes].
  rewrite list_find_fmap. unfold compose.
  rewrite (list_find_ext _ (λ e : ObjectId * Class.t, e.1 = id')).
  - destruct (list_find _ (classes db)) as [[j e]|] eqn:Hfind; [|done].
    apply list_find_Some in Hfind as (_ & He & _). cbn.
    rewrite bool_decide_false; [done|]. intros Hid. apply Hne. by rewrite <- He.
  - intros e. cbn. case_bool_decide as He; [|done]. cbn. rewrite He.
    split; intros Heq; by destruct Hne.
Qed.

End ClassCollection.

Lemma findClassById_lookup db id e :
  findClassById id db = Some e →
  ∃ i c, e = (id, c) ∧ classes db !! i = Some (id, c).
Proof.
  unfold findClassById.
  intros ([i [id' c]] & (Hi & Hid & _)%list_find_Some & ->)%fmap_Some.
  cbn in Hid. subst id'. eauto.
Qed.

(** What a successful [POST /join] has checked and done. *)
Lemma joinClass_joined db account classCode clk id n c d ins t db' :
  joinClass db account classCode clk = (ClassJoined id n c d ins t, db') →
  ∃ code i cls,
    classCode = Some code
    ∧ code ≠ ""
    ∧ role (user account) = student
    ∧ list_find (λ e, Class.code e.2 = toUpperCase code
                      ∧ Class.isActive e.2 = true
                      ∧ ClassSettings.allowStudentJoin (Class.settings e.2) = true)
                (classes db) = Some (i, (id, cls))
    ∧ list_find (λ s, Member.student s = _id (user account))
                (Class.students cls) = None
    ∧ Z.of_nat (length (Class.students cls))
      < ClassSettings.maxStudents (Class.settings cls)
    ∧ db' = saveAccount
              (set_enrolledClasses
                 (enrolledClasses account
                  ++ [ {| Enrollment.class := id;
                          Enrollment.joinedAt := enrolledAt clk;
                          Enrollment.isActive := true |} ]) account)
              (saveClass id
                 (Class.set_students
                    (Class.students cls
                     ++ [ {| Member.student := _id (user account);
                             Member.joinedAt := memberAt clk;
                             Member.isActive := true |} ]) cls) db).
Proof.
  unfold joinClass. intros H.
  case_bool_decide as Hrole; cbn [negb] in H; [|done].
  destruct classCode as [code|]; [|done].
  destruct code as [|a code']; [done|].
  destruct (list_find _ (classes db)) as [[i [classId cls]]|] eqn:Hfind;
    [|done].
  rename H into H'.
  case_bool_decide as Hin; [done|].
  destruct (Z.geb_spec (Z.of_nat (length (Class.students cls)))
              (ClassSettings.maxStudents (Class.settings cls))); [done|].
  injection H' as <- _ _ _ _ _ <-.
  exists (String a code'), i, cls. split; [done|].
  split; [done|]. split; [done|]. split; [done|].
  split; [|done].
  destruct (list_find _ (Class.students cls)) eqn:Hm; [|done].
  by destruct Hin.
Qed.

(** X17. A successful [POST /join] has found an active class that accepts
    students under the upper-cased code, of which the student was no
    member and which was below its maximum; it saves the class with the
    student appended as an active member, still within the maximum and
    with [totalStudents] equal to the number of members, and the account
    with the class appended to its enrolled classes.  The same request
    made again is refused, 400 "already enrolled", and changes nothing. *)
Theorem joinClass_enrolls_once db account classCode clk id n c d ins t db' :
  NoDup (fst <$> classes db) →
  joinClass db account classCode clk = (ClassJoined id n c d ins t, db') →
  let member :=
    {| Member.student := _id (user account);
       Member.joinedAt := memberAt clk; Member.isActive := true |} in
  let account' :=
    set_enrolledClasses
      (enrolledClasses account
       ++ [ {| Enrollment.class := id; Enrollment.joinedAt := enrolledAt clk;
               Enrollment.isActive := true |} ]) account in
  ∃ code cls cls',
    classCode = Some code
    ∧ findClassById id db = Some (id, cls)
    ∧ Class.code cls = toUpperCase code
    ∧ Class.isActive cls = true
    ∧ (_id (user account) ∉ Member.student <$> Class.students cls)
    ∧ findClassById id db' = Some (id, cls')
    ∧ Class.students cls' = Class.students cls ++ [member]
    ∧ Z.of_nat (length (Class.students cls'))
      <= ClassSettings.maxStudents (Class.settings cls')
    ∧ ClassStats.totalStudents (Class.stats cls')
      = Z.of_nat (length (Class.students cls'))
    ∧ accounts db' !! _id (user account) = Some account'
    ∧ ∀ clk',
        joinClass db' account' classCode clk'
        = (ClassFailure 400 "You are already enrolled in this class", db').
Proof.
  intros Hids Hjoin member account'.
  destruct (joinClass_joined _ _ _ _ _ _ _ _ _ _ _ Hjoin)
    as (code & i & cls & -> & Hcode0 & Hrole & Hfind & Hnew & Hroom & ->).
  pose proof Hfind as (Hi & (Hcode & Hactive & Hallow) & _)%list_find_Some.
  cbn [snd] in Hcode, Hactive, Hallow.
  set (joined := Class.set_students (Class.students cls ++ [member]) cls).
  exists code, cls, (Class.updateStats joined).
  split; [done|].
  split; [by apply (findClassById_found db id cls i)|].
  split; [done|]. split; [done|].
  split.
  { intros (m & Hm & Hin)%list_elem_of_fmap.
    apply list_find_None in Hnew.
    by apply (proj1 (Forall_forall _ _) Hnew m Hin). }
  split.
  { cbn [saveAccount]. unfold findClassById. cbn [classes].
    by apply (findClassById_saved db id cls joined i). }
  split; [done|].
  split.
  { cbn. rewrite length_app. simpl. lia. }
  split; [done|].
  split.
  { cbn [saveAccount accounts]. apply lookup_insert_eq. }
  intros clk'. subst joined account' member. unfold joinClass.
  cbn [set_enrolledClasses user].
  rewrite bool_decide_true by done. cbn [negb].
  destruct code as [|a code']; [done|].
  cbn [saveAccount classes].
  rewrite (saveClass_find db id cls _ i Hids Hi _ Hfind) by done.
  rewrite bool_decide_true; [done|].
  eapply list_find_elem_of;
    [cbn; apply elem_of_app; right; by left|done].
Qed.

(** X18. A refused [POST /join] answers 400, 403 or 404 and changes
    nothing.  In particular a class that has as many members as its
    maximum, active or not, refuses a new student with 400 "Class has
    reached maximum capacity", and a code that only inactive or closed
    classes carry is answered 404. *)
Theorem joinClass_refusals db account classCode clk :
  let result := joinClass db account classCode clk in
  (∀ status message,
     fst result = ClassFailure status message →
     snd result = db ∧ (status = 400 ∨ status = 403 ∨ status = 404))
  ∧ (role (user account) ≠ student →
     result = (ClassFailure 403 "Only students can join classes", db))
  ∧ (∀ code i id cls,
       role (user account) = student →
       classCode = Some code → code ≠ "" →
       list_find (λ e, Class.code e.2 = toUpperCase code
                       ∧ Class.isActive e.2 = true
                       ∧ ClassSettings.allowStudentJoin (Class.settings e.2) = true)
                 (classes db) = Some (i, (id, cls)) →
       (_id (user account) ∉ Member.student <$> Class.students cls) →
       ClassSettings.maxStudents (Class.settings cls)
         <= Z.of_nat (length (Class.students cls)) →
       result = (ClassFailure 400 "Class has reached maximum capacity", db))
  ∧ (∀ code,
       role (user account) = student →
       classCode = Some code → code ≠ "" →
       (∀ e, e ∈ classes db → Class.code e.2 = toUpperCase code →
             Class.isActive e.2 = false
             ∨ ClassSettings.allowStudentJoin (Class.settings e.2) = false) →
       result = (ClassFailure 404
                   "Invalid class code or class not accepting new students", db)).
Proof.
  intros result. subst result. split; [|split; [|split]].
  - intros status message. unfold joinClass.
    case_bool_decide; cbn [negb]; [|intros [= <- _]; auto].
    destruct classCode as [[|a code]|]; [intros [= <- _]; auto| |intros [= <- _]; auto].
    destruct (list_find _ (classes db)) as [[i [id cls]]|];
      [|intros [= <- _]; auto].
    case_bool_decide; [intros [= <- _]; auto|].
    destruct (_ >=? _); [intros [= <- _]; auto|done].
  - intros Hrole. unfold joinClass. by rewrite bool_decide_false.
  - intros code i id cls Hrole -> Hcode Hfind Hnew Hfull. unfold joinClass.
    rewrite bool_decide_true by done. cbn [negb].
    destruct code as [|a code]; [done|]. rewrite Hfind.
    rewrite bool_decide_false.
    + destruct (Z.geb_spec (Z.of_nat (length (Class.students cls)))
                  (ClassSettings.maxStudents (Class.settings cls))); [done|lia].
    + intros [[j m] (Hj & Hm & _)%list_find_Some]. apply Hnew.
      apply list_elem_of_fmap. exists m. split; [done|].
      by eapply list_elem_of_lookup_2.
  - intros code Hrole -> Hcode Hclosed. unfold joinClass.
    rewrite bool_decide_true by done. cbn [negb].
    destruct code as [|a code]; [done|].
    destruct (list_find _ (classes db)) as [[i [id cls]]|] eqn:Hfind; [|done].
    apply list_find_Some in Hfind as (Hi & (Hc & Ha & Hs) & _).
    apply list_elem_of_lookup_2 in Hi.
    destruct (Hclosed _ Hi Hc) as [H|H]; cbn [snd] in *; congruence.
Qed.

Lemma filter_filter_same {A} (P : A → Prop) `{!∀ x, Decision (P x)} (l : list A) :
  filter P (filter P l) = filter P l.
Proof.
  induction l as [|x l IH]; [done|].
  rewrite (filter_cons P x l). case_decide.
  - by rewrite filter_cons_True, IH.
  - done.
Qed.

(** X19. [DELETE /:classId/leave] by a student on an existing class always
    succeeds, member or not.  It saves the class without any entry of the
    student, the other members kept in their order, and the account
    without any enrollment in the class; [totalStudents] is the number of
    members left; and leaving a second time changes nothing more. *)
Theorem leaveClass_leaves db account classId i cls :
  NoDup (fst <$> classes db) →
  role (user account) = student →
  classes db !! i = Some (classId, cls) →
  let db' := snd (leaveClass db account classId) in
  let account' :=
    set_enrolledClasses
      (filter (λ ec, Enrollment.class ec ≠ classId) (enrolledClasses account))
      account in
  fst (leaveClass db account classId) = ClassOk "Successfully left the class"
  ∧ (∃ cls',
       findClassById classId db' = Some (classId, cls')
       ∧ Class.students cls'
         = filter (λ s, Member.student s ≠ _id (user account))
                  (Class.students cls)
       ∧ (_id (user account) ∉ Member.student <$> Class.students cls')
       ∧ ClassStats.totalStudents (Class.stats cls')
         = Z.of_nat (length (Class.students cls'))
       ∧ Z.of_nat (length (Class.students cls'))
         <= Z.of_nat (length (Class.students cls)))
  ∧ accounts db' !! _id (user account) = Some account'
  ∧ (classId ∉ Enrollment.class <$> enrolledClasses account')
  ∧ leaveClass db' account' classId
    = (ClassOk "Successfully left the class", db').
Proof.
  intros Hids Hrole Hi db' account'.
  pose proof (findClassById_found db classId cls i Hids Hi) as Hfound.
  set (left := Class.set_students
                 (filter (λ s, Member.student s ≠ _id (user account))
                         (Class.students cls)) cls).
  assert (Hleave : leaveClass db account classId
                   = (ClassOk "Successfully left the class",
                      saveAccount account' (saveClass classId left db))).
  { unfold leaveClass. rewrite bool_decide_true by done. cbn [negb].
    by rewrite Hfound. }
  subst db'. rewrite Hleave. cbn [fst snd].
  assert (Hfound' : findClassById classId
                      (saveAccount account' (saveClass classId left db))
                    = Some (classId, Class.updateStats left))
    by apply (findClassById_saved db classId cls left i Hids Hi).
  split; [done|]. split.
  { exists (Class.updateStats left). split; [done|]. split; [done|].
    split.
    { intros (m & Hm & [Hne _]%list_elem_of_filter)%list_elem_of_fmap.
      by destruct Hne. }
    split; [done|]. apply inj_le. cbn. apply length_filter. }
  split; [cbn [saveAccount accounts]; apply lookup_insert_eq|].
  split.
  { intros (ec & Hec & [Hne _]%list_elem_of_filter)%list_elem_of_fmap.
    by destruct Hne. }
  unfold leaveClass.
  change (role (user account')) with (role (user account)).
  rewrite bool_decide_true by done. cbn [negb]. rewrite Hfound'.
  f_equal. cbn [saveAccount saveClass classes accounts].
  change (_id (user account')) with (_id (user account)).
  cbn [Class.updateStats Class.students Class.set_students left
       set_enrolledClasses enrolledClasses account' user].
  rewrite !filter_filter_same. unfold saveAccount, saveClass.
  cbn [classes accounts set_enrolledClasses user account'].
  rewrite insert_insert_eq. f_equal.
  rewrite <- list_fmap_compose. apply list_fmap_ext.
  intros j e _. cbn. destruct (decide (e.1 = classId)) as [He|He].
  - rewrite (bool_decide_true (e.1 = classId)) by done. cbn [fst].
    by rewrite bool_decide_true.
  - rewrite (bool_decide_false (e.1 = classId)) by done.
    by rewrite bool_decide_false.
Qed.

(** X20. [DELETE /:classId/students/:studentId] is for the instructor who
    owns the class: any other role is answered 403 and any other
    instructor 404, the collections unchanged.  For the owner the class is
    saved without any entry of the student (member or not), the account
    of the student, when there is one, is saved without any enrollment in
    the class, and every other account is untouched. *)
Theorem removeStudent_owner_only db account classId studentId i cls :
  NoDup (fst <$> classes db) →
  classes db !! i = Some (classId, cls) →
  (∀ a, accounts db !! studentId = Some a → _id (user a) = studentId) →
  let result := removeStudent db account classId studentId in
  (role (user account) ≠ instructor →
   result = (ClassFailure 403 "Only instructors can remove students", db))
  ∧ (role (user account) = instructor →
     Class.instructor cls ≠ _id (user account) →
     result = (ClassFailure 404 "Class not found or access denied", db))
  ∧ (role (user account) = instructor →
     Class.instructor cls = _id (user account) →
     fst result = ClassOk "Student removed from class successfully"
     ∧ (∃ cls',
          findClassById classId (snd result) = Some (classId, cls')
          ∧ Class.students cls'
            = filter (λ s, Member.student s ≠ studentId) (Class.students cls)
          ∧ (studentId ∉ Member.student <$> Class.students cls')
          ∧ Class.instructor cls' = Class.instructor cls
          ∧ ClassStats.totalStudents (Class.stats cls')
            = Z.of_nat (length (Class.students cls')))
     ∧ (∀ other, other ≠ studentId →
          accounts (snd result) !! other = accounts db !! other)
     ∧ (∀ removed, accounts db !! studentId = Some removed →
          ∃ removed',
            accounts (snd result) !! studentId = Some removed'
            ∧ user removed' = user removed
            ∧ enrolledClasses removed'
              = filter (λ ec, Enrollment.class ec ≠ classId)
                       (enrolledClasses removed)
            ∧ (classId ∉ Enrollment.class <$> enrolledClasses removed'))
     ∧ (accounts db !! studentId = None →
          accounts (snd result) !! studentId = None)).
Proof.
  intros Hids Hi Hstored result. subst result.
  pose proof (findClassById_found db classId cls i Hids Hi) as Hfound.
  split; [|split].
  - intros Hrole. unfold removeStudent. by rewrite bool_decide_false.
  - intros Hrole Hother. unfold removeStudent.
    rewrite bool_decide_true by done. cbn [negb]. rewrite Hfound.
    by rewrite bool_decide_false.
  - intros Hrole Hown.
    set (kept := Class.set_students
                   (filter (λ s, Member.student s ≠ studentId)
                           (Class.students cls)) cls).
    assert (Hremove : removeStudent db account classId studentId
              = (ClassOk "Student removed from class successfully",
                 match accounts db !! studentId with
                 | Some removed =>
                     saveAccount
                       (set_enrolledClasses
                          (filter (λ ec, Enrollment.class ec ≠ classId)
                                  (enrolledClasses removed)) removed)
                       (saveClass classId kept db)
                 | None => saveClass classId kept db
                 end)).
    { unfold removeStudent. rewrite bool_decide_true by done. cbn [negb].
      rewrite Hfound. rewrite bool_decide_true by done. cbn [negb].
      cbn [saveClass accounts]. by destruct (accounts db !! studentId). }
    rewrite Hremove. cbn [fst snd]. split; [done|]. split.
    { exists (Class.updateStats kept).
      split.
      { destruct (accounts db !! studentId);
          apply (findClassById_saved db classId cls kept i Hids Hi). }
      split; [done|]. split; [|done].
      intros (m & Hm & [Hne _]%list_elem_of_filter)%list_elem_of_fmap.
      by destruct Hne. }
    split.
    { intros other Hne.
      destruct (accounts db !! studentId) as [removed|] eqn:Hacc; [|done].
      cbn [saveAccount saveClass accounts set_enrolledClasses user].
      rewrite lookup_insert_ne; [done|]. by rewrite (Hstored _ eq_refl). }
    split.
    { intros removed Hacc. pose proof (Hstored _ Hacc) as Hid. rewrite Hacc.
      eexists. split.
      { cbn [saveAccount saveClass accounts set_enrolledClasses user].
        rewrite Hid. apply lookup_insert_eq. }
      split; [done|]. split; [done|].
      intros (ec & Hec & [Hne _]%list_elem_of_filter)%list_elem_of_fmap.
      by destruct Hne. }
    intros Hnone. by rewrite Hnone.
Qed.

Lemma leb_trans_ofZ (s : number) (a b : Z) :
  a <= b → leb s (ofZ a) = true → leb s (ofZ b) = true.
Proof.
  intros Hab. destruct s as [q| |[]]; cbn; try done.
  intros Hq%bool_decide_eq_true. apply bool_decide_eq_true.
  eapply Qcle_trans; [exact Hq|]. exact (proj1 (Z2Qc_inj_le a b) Hab).
Qed.

Lemma countScore_fold records a b c d e :
  foldl countScore (Distribution.Build_t a b c d e) records
  = Distribution.Build_t
      (a + Z.of_nat (length (filter
             (λ r, leb (Progress.bestScore r) (ofZ 20) = true) records)))
      (b + Z.of_nat (length (filter
             (λ r, leb (Progress.bestScore r) (ofZ 20) = false
                   ∧ leb (Progress.bestScore r) (ofZ 40) = true) records)))
      (c + Z.of_nat (length (filter
             (λ r, leb (Progress.bestScore r) (ofZ 40) = false
                   ∧ leb (Progress.bestScore r) (ofZ 60) = true) records)))
      (d + Z.of_nat (length (filter
             (λ r, leb (Progress.bestScore r) (ofZ 60) = false
                   ∧ leb (Progress.bestScore r) (ofZ 80) = true) records)))
      (e + Z.of_nat (length (filter
             (λ r, leb (Progress.bestScore r) (ofZ 80) = false) records))).
Proof.
  revert a b c d e.
  induction records as [|r records IH]; intros a b c d e.
  { cbn. f_equal; lia. }
  cbn [foldl]. unfold countScore at 2.
  rewrite !filter_cons.
  pose proof (leb_trans_ofZ (Progress.bestScore r) 20 40 ltac:(lia)) as H24.
  pose proof (leb_trans_ofZ (Progress.bestScore r) 40 60 ltac:(lia)) as H46.
  pose proof (leb_trans_ofZ (Progress.bestScore r) 60 80 ltac:(lia)) as H68.
  destruct (leb (Progress.bestScore r) (ofZ 20)) eqn:H20;
    destruct (leb (Progress.bestScore r) (ofZ 40)) eqn:H40;
    destruct (leb (Progress.bestScore r) (ofZ 60)) eqn:H60;
    destruct (leb (Progress.bestScore r) (ofZ 80)) eqn:H80;
    try (by specialize (H24 eq_refl));
    try (by specialize (H46 eq_refl));
    try (by specialize (H68 eq_refl));
    rewrite IH;
    repeat case_decide; try (exfalso; solve [intuition congruence]);
    cbn [length]; f_equal; lia.
Qed.

(** X21. [calculateScoreDistribution] counts every record in exactly one
    of its five bins: the counters are non-negative and add up to the
    number of records.  The first bin counts the scores up to 20, negative
    ones too, and the last bin counts whatever is not at most 80: scores
    above 100 and a best score that is not a number as well. *)
Theorem calculateScoreDistribution_partitions (progressRecords : list Progress.t) :
  let distribution := calculateScoreDistribution progressRecords in
  0 <= Distribution.d0_20 distribution
  ∧ 0 <= Distribution.d21_40 distribution
  ∧ 0 <= Distribution.d41_60 distribution
  ∧ 0 <= Distribution.d61_80 distribution
  ∧ 0 <= Distribution.d81_100 distribution
  ∧ Distribution.d0_20 distribution + Distribution.d21_40 distribution
    + Distribution.d41_60 distribution + Distribution.d61_80 distribution
    + Distribution.d81_100 distribution
    = Z.of_nat (length progressRecords)
  ∧ Distribution.d0_20 distribution
    = Z.of_nat (length (filter
        (λ r, leb (Progress.bestScore r) (ofZ 20) = true) progressRecords))
  ∧ Distribution.d81_100 distribution
    = Z.of_nat (length (filter
        (λ r, leb (Progress.bestScore r) (ofZ 80) = false) progressRecords))
  ∧ (∀ record,
       Progress.bestScore record = NaN
       ∨ Progress.bestScore record = Infinity false
       ∨ (∃ q, Progress.bestScore record = Finite q ∧ (Qc_of_Z 100 < q)%Qc) →
       calculateScoreDistribution (progressRecords ++ [record])
       = let '(Distribution.Build_t a b c d e) := distribution in
         Distribution.Build_t a b c d (e + 1)).
Proof.
  intros distribution. subst distribution.
  unfold calculateScoreDistribution.
  split_and!.
  1-5: rewrite countScore_fold; cbn; lia.
  - induction progressRecords as [|r records IH] using rev_ind; [done|].
    rewrite foldl_app, length_app. cbn [foldl length].
    destruct (foldl countScore _ records) as [a b c d e].
    cbn in IH. unfold countScore.
    repeat (destruct (leb _ _)); cbn; lia.
  - rewrite countScore_fold. cbn. lia.
  - rewrite countScore_fold. cbn. lia.
  - intros record Hscore. rewrite foldl_app. cbn [foldl].
    destruct (foldl countScore _ progressRecords) as [a b c d e].
    unfold countScore.
    assert (H80 : leb (Progress.bestScore record) (ofZ 80) = false).
    { destruct Hscore as [->|[->|(q & -> & Hq)]]; [done|done|].
      cbn. apply bool_decide_eq_false. intros Hle.
      apply (Qclt_not_le _ _ Hq). eapply Qcle_trans; [exact Hle|].
      exact (proj1 (Z2Qc_inj_le 80 100) ltac:(lia)). }
    assert (Hnot : ∀ z, z <= 80 → leb (Progress.bestScore record) (ofZ z) = false).
    { intros z Hz. destruct (leb _ (ofZ z)) eqn:H; [|done].
      by rewrite (leb_trans_ofZ _ z 80 Hz H) in H80. }
    by rewrite !Hnot by lia.
Qed.

Section Upsert.
Context {E V : Type} (key : E → string) (init : E → V) (step : E → V → V).

Lemma upsert_keys k v f (m : JsMap V) :
  (upsert k v f m).*1 = if map_has k m then m.*1 else m.*1 ++ [k].
Proof.
  unfold upsert. destruct (map_has k m).
  - rewrite <- list_fmap_compose. apply list_fmap_ext.
    intros i e _. cbn. by case_bool_decide.
  - by rewrite fmap_app.
Qed.

Lemma upsert_NoDup k v f (m : JsMap V) :
  NoDup m.*1 → NoDup (upsert k v f m).*1.
Proof.
  intros Hm. rewrite upsert_keys. unfold map_has. case_bool_decide; [done|].
  apply NoDup_app. split; [done|]. split; [|apply NoDup_singleton].
  by intros x Hx ->%list_elem_of_singleton.
Qed.

Lemma upsert_elem_of k v f (m : JsMap V) k' v' :
  (k', v') ∈ upsert k v f m →
  (k' ≠ k ∧ (k', v') ∈ m)
  ∨ (k' = k ∧ ((∃ v0, (k, v0) ∈ m ∧ v' = f v0) ∨ ((k ∉ m.*1) ∧ v' = v))).
Proof.
  unfold upsert, map_has. case_bool_decide as Hk.
  - intros ([k0 v0] & Heq & Hin)%list_elem_of_fmap. cbn in Heq.
    case_bool_decide; simplify_eq; [right|left; done].
    split; [done|]. left. by exists v0.
  - intros [Hin|Hin%list_elem_of_singleton]%elem_of_app.
    + left. split; [|done]. intros ->. apply Hk.
      apply list_elem_of_fmap. by exists (k, v').
    + simplify_eq. right. split; [done|]. by right.
Qed.

Lemma foldl_concat {A} (g : A → E → A) (rows : list (list E)) (a : A) :
  foldl (λ a row, foldl g a row) a rows = foldl g a (concat rows).
Proof.
  revert a. induction rows as [|row rows IH]; intros a; [done|].
  cbn. by rewrite foldl_app, IH.
Qed.

Lemma filter_key_none name (entries : list E) :
  (name ∉ key <$> entries) → filter (λ e, key e = name) entries = [].
Proof.
  induction entries as [|e entries IH]; [done|]. rewrite fmap_cons.
  intros Hnot. rewrite filter_cons. case_decide as He.
  - destruct Hnot. rewrite <- He. by left.
  - apply IH. intros Hin. apply Hnot. by right.
Qed.

(** Folding [upsert] over a list groups it by key: one entry per key, and
    the value of a key is the fold of [step] over the entries of that
    key, from the [init] of the first. *)
Lemma upsert_fold (entries : list E) :
  let m := foldl (λ m e, upsert (key e) (init e) (step e) m) [] entries in
  NoDup m.*1
  ∧ (∀ name, name ∈ m.*1 ↔ name ∈ key <$> entries)
  ∧ (∀ name v, (name, v) ∈ m →
       ∃ e0 rest,
         filter (λ e, key e = name) entries = e0 :: rest
         ∧ v = foldl (λ v e, step e v) (init e0) rest).
Proof.
  induction entries as [|e entries IH] using rev_ind.
  { cbn. split; [constructor|]. split; [done|]. by intros ?? ?%elem_of_nil. }
  cbn zeta in *. rewrite foldl_app. cbn [foldl].
  destruct IH as (Hnodup & Hkeys & Hvalues).
  set (m := foldl (λ m e, upsert (key e) (init e) (step e) m) [] entries) in *.
  split; [by apply upsert_NoDup|]. split.
  - intros name. rewrite upsert_keys, fmap_app, elem_of_app. cbn.
    rewrite list_elem_of_singleton. unfold map_has.
    case_bool_decide as Hk.
    + rewrite Hkeys. split; [by left|]. intros [H| ->]; [done|].
      by apply Hkeys.
    + by rewrite elem_of_app, list_elem_of_singleton, Hkeys.
  - intros name v [[Hne Hin]|[-> [(v0 & Hin & ->)|[Hnot ->]]]]%upsert_elem_of.
    + destruct (Hvalues _ _ Hin) as (e0 & rest & Hfilter & ->).
      exists e0, rest. split; [|done].
      rewrite filter_app, Hfilter, filter_cons, filter_nil.
      rewrite decide_False by done. by rewrite app_nil_r.
    + destruct (Hvalues _ _ Hin) as (e0 & rest & Hfilter & ->).
      exists e0, (rest ++ [e]). split; [|by rewrite foldl_app].
      rewrite filter_app, Hfilter, filter_cons, filter_nil.
      by rewrite decide_True.
    + exists e, []. split; [|done].
      rewrite filter_app, filter_key_none by (by rewrite <- Hkeys).
      rewrite filter_cons, filter_nil. by rewrite decide_True.
Qed.

End Upsert.

Lemma answeredIn_app l k : answeredIn (l ++ k) = answeredIn l + answeredIn k.
Proof.
  unfold answeredIn. induction l as [|e l IH]; [done|].
  cbn [app foldr]. lia.
Qed.

Lemma correctIn_app l k : correctIn (l ++ k) = correctIn l + correctIn k.
Proof.
  unfold correctIn. induction l as [|e l IH]; [done|].
  cbn [app foldr]. lia.
Qed.

Lemma counters_bounds (l : list TopicMastery.t) :
  (∀ e, e ∈ l →
     0 <= TopicMastery.correctAnswers e <= TopicMastery.questionsAnswered e) →
  0 <= correctIn l <= answeredIn l.
Proof.
  unfold correctIn, answeredIn.
  induction l as [|e l IH]; intros Hl; [cbn; lia|].
  pose proof (Hl e ltac:(by left)).
  pose proof (IH (λ x Hx, Hl x ltac:(by right))).
  cbn [foldr]. lia.
Qed.

(** [Math.round] of the percentage of two counts, the quotient and the
    product rounded to the nearest double, is an integer from 0 to 100. *)
Lemma round_percentage (c a : Z) :
  0 <= c <= a → 0 < a →
  ∃ z, round (rounded (mul (rounded (div (ofZ c) (ofZ a))) (ofZ 100))) = ofZ z
       ∧ 0 <= z <= 100.
Proof.
  intros Hc Ha. unfold ofZ at 1. rewrite div_ofZ by lia.
  cbn [rounded mul ofZ round]. eexists. split; [done|].
  set (K := Q2Qc (9007199254740993 # 9007199254740992)).
  set (x := (Qc_of_Z c / Qc_of_Z a)%Qc).
  assert (Hx : (Q2Qc 0 <= x)%Qc ∧ (x <= Q2Qc 1)%Qc).
  { subst x. rewrite <- (Qcmult_1_r (Qc_of_Z c / Qc_of_Z a)), <- Z2Qc_inj_1.
    split.
    - apply (Qc_scaled_quotient_ge c a 1 0); lia.
    - apply (Qc_scaled_quotient_le c a 1 1); lia. }
  destruct Hx as [Hx0 Hx1].
  set (x' := binary64 x).
  assert (Hx'0 : (Q2Qc 0 <= x')%Qc) by (by apply binary64_nonneg).
  assert (Hx'1 : (x' <= K)%Qc).
  { apply Qcle_trans with (x * K)%Qc; [by apply binary64_upper|].
    apply Qcle_trans with (Q2Qc 1 * K)%Qc; [|by vm_compute].
    apply Qcmult_le_compat_r; [done|by vm_compute]. }
  set (y := (x' * Qc_of_Z 100)%Qc).
  assert (Hy0 : (Q2Qc 0 <= y)%Qc).
  { subst y. apply Qcmult_nonneg_nonneg; [done|by vm_compute]. }
  assert (Hy1 : (y <= K * Qc_of_Z 100)%Qc).
  { subst y. apply Qcmult_le_compat_r; [done|by vm_compute]. }
  set (y' := binary64 y).
  assert (Hy'0 : (Q2Qc 0 <= y')%Qc) by (by apply binary64_nonneg).
  assert (Hy'1 : (y' <= K * Qc_of_Z 100 * K)%Qc).
  { apply Qcle_trans with (y * K)%Qc; [by apply binary64_upper|].
    apply Qcmult_le_compat_r; [done|by vm_compute]. }
  clearbody y'. clear -Hy'0 Hy'1.
  split.
  - change 0 with (Qfloor (this (Q2Qc 0 + Q2Qc 0)%Qc)).
    apply Qfloor_resp_le.
    change (Q2Qc 0 + Q2Qc 0 <= y' + Q2Qc (1 # 2))%Qc.
    apply Qcplus_le_compat; [done|by vm_compute].
  - change 100 with (Qfloor (this (K * Qc_of_Z 100 * K + Q2Qc (1 # 2))%Qc)).
    apply Qfloor_resp_le.
    change (y' + Q2Qc (1 # 2) <= K * Qc_of_Z 100 * K + Q2Qc (1 # 2))%Qc.
    apply Qcplus_le_compat; [done|by vm_compute].
Qed.

Lemma totals_fold (t : TopicTotals.t) (rest : list TopicMastery.t) :
  foldl (λ existing topic,
           {| TopicTotals.topic := TopicTotals.topic existing;
              TopicTotals.totalQuestions :=
                TopicTotals.totalQuestions existing
                + TopicMastery.questionsAnswered topic;
              TopicTotals.correctAnswers :=
                TopicTotals.correctAnswers existing
                + TopicMastery.correctAnswers topic;
              TopicTotals.students := TopicTotals.students existing + 1 |})
        t rest
  = {| TopicTotals.topic := TopicTotals.topic t;
       TopicTotals.totalQuestions :=
         TopicTotals.totalQuestions t + answeredIn rest;
       TopicTotals.correctAnswers :=
         TopicTotals.correctAnswers t + correctIn rest;
       TopicTotals.students :=
         TopicTotals.students t + Z.of_nat (length rest) |}.
Proof.
  revert t. induction rest as [|e rest IH]; intros t.
  { destruct t. unfold answeredIn, correctIn. cbn. f_equal; lia. }
  cbn [foldl]. rewrite IH. unfold answeredIn, correctIn.
  cbn [foldr length TopicTotals.topic TopicTotals.totalQuestions
       TopicTotals.correctAnswers TopicTotals.students].
  f_equal; lia.
Qed.

Lemma topicTotals_entries (progressRecords : list Progress.t) :
  let entries := topicEntries progressRecords in
  let m := topicTotals progressRecords in
  NoDup m.*1
  ∧ (∀ name, name ∈ m.*1 ↔ name ∈ TopicMastery.topic <$> entries)
  ∧ (∀ name t, (name, t) ∈ m →
       let own := filter (λ e, TopicMastery.topic e = name) entries in
       TopicTotals.topic t = name
       ∧ TopicTotals.totalQuestions t = answeredIn own
       ∧ TopicTotals.correctAnswers t = correctIn own
       ∧ TopicTotals.students t = Z.of_nat (length own)
       ∧ 1 <= TopicTotals.students t).
Proof.
  intros entries m. subst m. unfold topicTotals.
  rewrite <- (foldl_fmap (λ m row, foldl addTopicTotals m row) []
                progressRecords Progress.topicMastery).
  rewrite foldl_concat. fold (topicEntries progressRecords). fold entries.
  destruct (upsert_fold TopicMastery.topic
    (λ topic,
       {| TopicTotals.topic := TopicMastery.topic topic;
          TopicTotals.totalQuestions := TopicMastery.questionsAnswered topic;
          TopicTotals.correctAnswers := TopicMastery.correctAnswers topic;
          TopicTotals.students := 1 |})
    (λ topic existing,
       {| TopicTotals.topic := TopicTotals.topic existing;
          TopicTotals.totalQuestions :=
            TopicTotals.totalQuestions existing
            + TopicMastery.questionsAnswered topic;
          TopicTotals.correctAnswers :=
            TopicTotals.correctAnswers existing
            + TopicMastery.correctAnswers topic;
          TopicTotals.students := TopicTotals.students existing + 1 |})
    entries) as (Hnodup & Hkeys & Hvalues).
  split; [exact Hnodup|]. split; [exact Hkeys|].
  intros name t Hin.
  set (own := filter (λ e, TopicMastery.topic e = name) entries).
  destruct (Hvalues name t Hin) as (e0 & rest & Hown & ->).
  fold own in Hown. rewrite totals_fold, Hown.
  unfold answeredIn, correctIn.
  cbn [foldr length TopicTotals.topic TopicTotals.totalQuestions
       TopicTotals.correctAnswers TopicTotals.students].
  assert (He0 : e0 ∈ own) by (rewrite Hown; by left).
  apply list_elem_of_filter in He0 as [He0 _].
  split; [done|]. lia.
Qed.

(** X22. [calculateTopicMastery] returns one summary per distinct topic
    name of the records.  For each, [totalQuestions] is the sum of
    [questionsAnswered] over all entries of that name, [students] is the
    number of those entries (a student counts once per record that names
    the topic), at least 1, and [mastery] is [Math.round] of the
    percentage of the summed counters, the quotient and the product each
    rounded to the nearest double, 0 when nothing was answered; with
    counters [0 <= correctAnswers <= questionsAnswered] it is an integer
    between 0 and 100. *)
Theorem calculateTopicMastery_totals (progressRecords : list Progress.t) :
  let entries := topicEntries progressRecords in
  let summaries := calculateTopicMastery progressRecords in
  NoDup (TopicSummary.topic <$> summaries)
  ∧ (∀ name, name ∈ TopicSummary.topic <$> summaries
             ↔ name ∈ TopicMastery.topic <$> entries)
  ∧ (∀ s, s ∈ summaries →
       let own := filter (λ e, TopicMastery.topic e = TopicSummary.topic s)
                         entries in
       TopicSummary.totalQuestions s = answeredIn own
       ∧ TopicSummary.students s = Z.of_nat (length own)
       ∧ 1 <= TopicSummary.students s
       ∧ TopicSummary.mastery s
         = (if answeredIn own >? 0
            then round (rounded
                   (mul (rounded (div (ofZ (correctIn own))
                                      (ofZ (answeredIn own))))
                        (ofZ 100)))
            else ofZ 0)
       ∧ ((∀ e, e ∈ own →
             0 <= TopicMastery.correctAnswers e
               <= TopicMastery.questionsAnswered e) →
          ∃ z, TopicSummary.mastery s = ofZ z ∧ 0 <= z <= 100)).
Proof.
  intros entries summaries.
  destruct (topicTotals_entries progressRecords) as (Hnodup & Hkeys & Hvalues).
  fold entries in Hkeys, Hvalues.
  assert (Hnames : TopicSummary.topic <$> summaries
                   = (topicTotals progressRecords).*1).
  { subst summaries. unfold calculateTopicMastery.
    rewrite <- list_fmap_compose. apply list_fmap_ext.
    intros i [name t] Hin%list_elem_of_lookup_2. cbn.
    by destruct (Hvalues name t Hin) as (-> & _). }
  rewrite Hnames. split; [done|]. split; [done|].
  intros s Hs. subst summaries. unfold calculateTopicMastery in Hs.
  apply list_elem_of_fmap in Hs as ([name t] & -> & Hin).
  destruct (Hvalues name t Hin) as (Hname & Htotal & Hcorrect & Hstudents & Hone).
  cbn [snd TopicSummary.topic TopicSummary.totalQuestions
       TopicSummary.students TopicSummary.mastery] in *.
  rewrite Hname. cbn zeta in *.
  set (own := filter (λ e, TopicMastery.topic e = name) entries) in *.
  split; [done|]. split; [done|]. split; [done|].
  rewrite Htotal, Hcorrect. split; [done|].
  intros Hown. pose proof (counters_bounds own Hown).
  destruct (Z.gtb_spec (answeredIn own) 0).
  - by apply round_percentage.
  - exists 0. split; [done|lia].
Qed.

Lemma counts_fold (v : Z * Z) (rest : list TopicMastery.t) :
  foldl (λ existing topic,
           (existing.1 + TopicMastery.questionsAnswered topic,
            existing.2 + TopicMastery.correctAnswers topic)) v rest
  = (v.1 + answeredIn rest, v.2 + correctIn rest).
Proof.
  revert v. induction rest as [|e rest IH]; intros [a c].
  { unfold answeredIn, correctIn. cbn. f_equal; lia. }
  cbn [foldl]. rewrite IH. unfold answeredIn, correctIn.
  cbn [foldr fst snd]. f_equal; lia.
Qed.

Lemma percentage_range (c a : Z) :
  0 <= c <= a → 0 < a →
  ∃ q, mul (div (ofZ c) (ofZ a)) (ofZ 100) = Finite q
       ∧ (Qc_of_Z 0 <= q)%Qc ∧ (q <= Qc_of_Z 100)%Qc.
Proof.
  intros Hc Ha. unfold ofZ at 1. rewrite div_ofZ by lia.
  cbn [mul ofZ]. eexists. split; [done|]. split.
  - apply Qc_scaled_quotient_ge; [done|lia].
  - apply Qc_scaled_quotient_le; [done|lia].
Qed.

Lemma sum_range (l : list number) :
  Forall (λ x, ∃ q, x = Finite q
                    ∧ (Qc_of_Z 0 <= q)%Qc ∧ (q <= Qc_of_Z 100)%Qc) l →
  ∀ q0, ∃ q',
    foldl plus (Finite q0) l = Finite q'
    ∧ (q0 <= q')%Qc
    ∧ (q' <= q0 + Qc_of_Z (100 * Z.of_nat (length l)))%Qc.
Proof.
  induction 1 as [|x l (q & -> & Hlo & Hhi) _ IH]; intros q0.
  { exists q0. split; [done|]. split; [apply Qcle_refl|].
    cbn [length Z.of_nat]. rewrite Z.mul_0_r, Z2Qc_inj_0, Qcplus_0_r.
    apply Qcle_refl. }
  destruct (IH (q0 + q)%Qc) as (q' & Hsum & Hge & Hle).
  exists q'. split; [done|]. split.
  - eapply Qcle_trans; [|exact Hge].
    rewrite <- (Qcplus_0_r q0) at 1.
    apply Qcplus_le_compat; [apply Qcle_refl|exact Hlo].
  - eapply Qcle_trans; [exact Hle|].
    replace (100 * Z.of_nat (length (Finite q :: l)))
      with (100 + 100 * Z.of_nat (length l)) by (cbn [length]; lia).
    rewrite Z2Qc_inj_add, Qcplus_assoc.
    apply Qcplus_le_compat; [|apply Qcle_refl].
    apply Qcplus_le_compat; [apply Qcle_refl|exact Hhi].
Qed.

(** X23. With counters [0 <= correctAnswers <= questionsAnswered] in every
    topic entry, [calculateOverallMastery] is a finite number between 0 and
    100: the mean, over the distinct topic names, of the percentage of the
    summed counters, a topic nobody answered counting as 0.  Without
    records, or without topic entries, it is 0. *)
Theorem calculateOverallMastery_range (progressRecords : list Progress.t) :
  (∀ e, e ∈ topicEntries progressRecords →
        0 <= TopicMastery.correctAnswers e
          <= TopicMastery.questionsAnswered e) →
  (∃ q, calculateOverallMastery progressRecords = Finite q
        ∧ (Qc_of_Z 0 <= q)%Qc ∧ (q <= Qc_of_Z 100)%Qc)
  ∧ (topicEntries progressRecords = [] →
     calculateOverallMastery progressRecords = ofZ 0).
Proof.
  intros Hentries. unfold calculateOverallMastery.
  destruct (length progressRecords =? 0)%nat eqn:Hlen.
  { split; [|done]. exists (Qc_of_Z 0). by split_and!. }
  cbn zeta.
  rewrite <- (foldl_fmap (λ m row, foldl addTopicCounts m row) []
                progressRecords Progress.topicMastery).
  rewrite foldl_concat. fold (topicEntries progressRecords).
  set (entries := topicEntries progressRecords) in *.
  destruct (upsert_fold TopicMastery.topic
    (λ topic, (TopicMastery.questionsAnswered topic,
               TopicMastery.correctAnswers topic))
    (λ topic (existing : Z * Z),
       (existing.1 + TopicMastery.questionsAnswered topic,
        existing.2 + TopicMastery.correctAnswers topic))
    entries) as (_ & _ & Hvalues).
  change (foldl _ [] entries) with (foldl addTopicCounts [] entries) in Hvalues.
  set (allTopics := foldl addTopicCounts [] entries) in *.
  rewrite length_fmap.
  split.
  - destruct (0 <? length allTopics)%nat eqn:Hsome;
      [|exists (Qc_of_Z 0); by split_and!].
    apply Nat.ltb_lt in Hsome.
    destruct (sum_range
      ((λ e : string * (Z * Z),
          if e.2.1 >? 0
          then mul (div (ofZ e.2.2) (ofZ e.2.1)) (ofZ 100)
          else ofZ 0) <$> allTopics)) with (q0 := Qc_of_Z 0)
      as (q' & Hsum & Hge & Hle).
    { apply Forall_fmap, Forall_forall. intros [name [a c]] Hin. cbn.
      destruct (Hvalues name (a, c) Hin) as (e0 & rest & Hown & Hv).
      rewrite counts_fold in Hv. cbn [fst snd] in Hv.
      change (TopicMastery.questionsAnswered e0 + answeredIn rest)
        with (answeredIn (e0 :: rest)) in Hv.
      change (TopicMastery.correctAnswers e0 + correctIn rest)
        with (correctIn (e0 :: rest)) in Hv.
      rewrite <- Hown in Hv. injection Hv as -> ->.
      assert (Hbounds : 0 <= correctIn
                (filter (λ e, TopicMastery.topic e = name) entries)
              <= answeredIn
                (filter (λ e, TopicMastery.topic e = name) entries)).
      { apply counters_bounds. intros e [_ He]%list_elem_of_filter.
        by apply Hentries. }
      destruct (Z.gtb_spec (answeredIn
                  (filter (λ e, TopicMastery.topic e = name) entries)) 0).
      - apply percentage_range; lia.
      - exists (Qc_of_Z 0). by split_and!. }
    change (ofZ 0) with (Finite (Qc_of_Z 0)) at 1. unfold ofZ in Hsum |- *.
    rewrite Hsum, length_fmap in *.
    fold (ofZ (Z.of_nat (length allTopics))). rewrite div_ofZ by lia.
    eexists. split; [done|].
    assert (Hpos : (Qc_of_Z 0 < Qc_of_Z (Z.of_nat (length allTopics)))%Qc)
      by (apply (proj1 (Z2Qc_inj_lt _ _)); lia).
    assert (Hne : Qc_of_Z (Z.of_nat (length allTopics)) ≠ Qc_of_Z 0)
      by (intros H%Z2Qc_inj; lia).
    assert (Hback : (q' / Qc_of_Z (Z.of_nat (length allTopics))
                     * Qc_of_Z (Z.of_nat (length allTopics)))%Qc = q').
    { rewrite Qcmult_comm. apply Qcmult_div_r. by rewrite <- Z2Qc_inj_0. }
    split.
    + apply (Qcmult_lt_0_le_reg_r _ _ _ Hpos).
      rewrite Hback, Z2Qc_inj_0, Qcmult_0_l. by rewrite Z2Qc_inj_0 in Hge.
    + apply (Qcmult_lt_0_le_reg_r _ _ _ Hpos).
      rewrite Hback. rewrite <- Z2Qc_inj_mul.
      by rewrite Z2Qc_inj_0, Qcplus_0_l in Hle.
  - intros Hnil. subst allTopics. by rewrite Hnil.
Qed.

End Engine.

(* ================================================================== *)
(** ** The statements on the sample data *)
(* ================================================================== *)

(** The sample data is ASCII: the statements are read on the engine whose
    string methods are the ASCII ones. *)

Section Instances.

Local Existing Instance asciiStrings.

Lemma Finite_eq (q1 q2 : Qc) : (q1 == q2)%Q → Finite q1 = Finite q2.
Proof. intros H. f_equal. by apply Qc_is_canon. Defined.

Lemma perfectAttempt_score : Attempt.score perfectAttempt = Finite (Qc_of_Z 100).
Proof. by apply Finite_eq. Defined.

Ltac solve_accepted :=
  unfold accepted; split_and!;
  [done | by vm_compute | done | by vm_compute | eexists; by vm_compute].

Ltac solve_storable :=
  unfold storable, Attempt.valid; split_and!;
  [apply (bool_decide_unpack _); by vm_compute | done | done].

Ltac solve_counting :=
  let p := fresh "p" in
  let tm := fresh "tm" in
  let Hp := fresh "Hp" in
  let Htm := fresh "Htm" in
  intros p tm Hp Htm; vm_compute in Hp;
  first [ discriminate Hp
        | injection Hp as <-; cbn [Progress.topicMastery] in Htm;
          repeat (apply elem_of_cons in Htm as [->|Htm]);
          try (by apply elem_of_nil in Htm); cbn; lia ].

Ltac solve_rewardable :=
  let g := fresh "g" in
  let Hg := fresh "Hg" in
  split; [done|]; intros g Hg; vm_compute in Hg;
  first [ discriminate Hg
        | injection Hg as <-; split_and!;
          [ apply (bool_decide_unpack _); by vm_compute
          | cbn [from_option GameState.currentLevel];
            try done; apply (bool_decide_unpack _); by vm_compute
          | cbn; lia ] ].

Ltac solve_double := apply Qc_is_canon; by vm_compute.

(** C6, as the specification words it, fails: Alice's last activity was
    on 1 January at 23:00 and she completes a quiz on 2 January at 01:00,
    one calendar day later; two hours have passed, and her current streak
    stays at 3. *)
Lemma streak_ignores_the_calendar :
  ∃ g',
    gameStates (snd (submitAnswer (tinyDb {[ "alice" := aliceState ]}) alice
                       (mkBody "q1" "yes" 5) nextMorning (Qc_of_Z 0)))
      !! "alice" = Some g'
    ∧ calendarDay (now nextMorning)
      - calendarDay (Streaks.lastActivity (GameState.streaks aliceState)) = 1
    ∧ Streaks.current (GameState.streaks aliceState) = 3
    ∧ Streaks.current (GameState.streaks g') = 3
    ∧ ¬ calendarStreakRule (GameState.streaks aliceState) (now nextMorning)
          (GameState.streaks g').
Proof.
  eexists. split; [by vm_compute|].
  split; [done|]. split; [done|]. split; [done|].
  intros (Hone & _). specialize (Hone eq_refl). by vm_compute in Hone.
Qed.


(** C2, as the specification words it, fails: Alice's second answer to the
    question she has answered is not rejected. *)
Lemma resubmission_is_not_rejected :
  ¬ rejectsResubmission oneAnswered alice (mkBody "e1" "no" 5)
      sampleClock (Qc_of_Z 0).
Proof.
  intros H.
  destruct (H (answeredAttempt (newAttempt "alice" "quiz1" sampleQuiz)
                 (mkBody "e1" "no" 5) (mkQuestion "e1" "A" easy) sampleClock))
    as ((status & message & Hfail) & _).
  - by vm_compute.
  - done.
  - vm_compute. by eexists.
  - vm_compute in Hfail. discriminate Hfail.
Qed.

(** C3, as the specification words it, fails for the question that
    [POST /submit-answer] returns: after Alice's wrong first answer the
    accuracy is 0/1 and unanswered easy questions remain, but
    [getNextQuestion] answers with a hard question. *)
Lemma submit_answer_ignores_difficulty :
  ∃ attempt' isCorrect correctAnswer explanation next number remaining,
    Quiz.adaptiveMode sampleQuiz = true
    ∧ submitAnswer sampleDb alice (mkBody "e1" "no" 5) sampleClock (Qc_of_Z 0)
      = (AnswerSubmitted isCorrect correctAnswer explanation next number remaining,
         oneAnswered)
    ∧ attempts oneAnswered !! "att1" = Some attempt'
    ∧ nextDifficulty (currentAccuracy attempt') = easy
    ∧ Question.difficulty <$> next = Some hard
    ∧ ¬ selectsTargetDifficulty sampleQuiz attempt' next.
Proof.
  eexists _, _, _, _, _, _, _.
  split; [done|]. split; [by vm_compute|]. split; [by vm_compute|].
  split; [by vm_compute|]. split; [by vm_compute|].
  intros H. destruct (H (mkQuestion "e2" "B" easy)) as (q' & Hq' & Hd).
  - set_solver.
  - by vm_compute.
  - by vm_compute.
  - vm_compute in Hq'. injection Hq' as <-. vm_compute in Hd. discriminate Hd.
Qed.

(** C9, as the specification words it, fails: with no weak topic recorded,
    two draws of [Math.random()] give two different questions for the same
    quiz, attempt and progress. *)
Lemma selection_depends_on_the_draw :
  ¬ selectionIsDeterministic sampleQuiz
      (newAttempt "alice" "quiz1" sampleQuiz)
      (Some (newProgress "alice" "quiz1" sampleQuiz)).
Proof.
  intros H. specialize (H (Qc_of_Z 0) (Q2Qc (1 # 2))).
  assert (Hne : getNextQuestion sampleQuiz (newAttempt "alice" "quiz1" sampleQuiz)
                  (Some (newProgress "alice" "quiz1" sampleQuiz)) (Qc_of_Z 0)
                ≠ getNextQuestion sampleQuiz (newAttempt "alice" "quiz1" sampleQuiz)
                    (Some (newProgress "alice" "quiz1" sampleQuiz)) (Q2Qc (1 # 2)))
    by (by vm_compute).
  apply Hne, H; by first [solve_double | vm_compute].
Qed.

(** C8, as the specification words it, fails on the entries never
    answered: after Alice's answer to the one question of the quiz, on
    topic A, the record saved holds mastery 0 for topic B, while the
    quotient of its counters, [0 / 0 * 100], is [NaN]. *)
Lemma unanswered_topic_is_not_a_quotient :
  ∃ p',
    progress (snd (submitAnswer (tinyDb ∅) alice (mkBody "q1" "yes" 5)
                     sampleClock (Qc_of_Z 0))) !! ("alice", "quiz1") = Some p'
    ∧ ¬ masteryIsQuotient p'.
Proof.
  eexists. split; [by vm_compute|].
  intros H.
  specialize (H {| TopicMastery.topic := "B"; TopicMastery.mastery := ofZ 0;
                   TopicMastery.questionsAnswered := 0;
                   TopicMastery.correctAnswers := 0 |}).
  assert (Hnan : ofZ 0 = NaN); [|done].
  apply H. apply list_elem_of_further, list_elem_of_here.
Qed.


(** Alice's second answer to the same question is recorded. *)
Lemma resubmission_is_recorded_witness :
  accepted oneAnswered alice (mkBody "e1" "no" 5) oneAnsweredAttempt sampleQuiz
    (mkQuestion "e1" "A" easy)
  ∧ storable oneAnsweredAttempt (mkBody "e1" "no" 5)
  ∧ counting oneAnswered alice oneAnsweredAttempt
  ∧ Quiz.totalQuestions sampleQuiz ≠ 0
  ∧ is_Some (list_find (λ a, Answer.questionId a = "e1")
                       (Attempt.answers oneAnsweredAttempt))
  ∧ ∃ attempt',
      attempts (snd (submitAnswer oneAnswered alice (mkBody "e1" "no" 5)
                       sampleClock (Qc_of_Z 0))) !! "att1" = Some attempt'
      ∧ length (Attempt.answers attempt') = 2%nat
      ∧ Attempt.timeSpent attempt' = 10.
Proof.
  assert (Hacc : accepted oneAnswered alice (mkBody "e1" "no" 5)
                   oneAnsweredAttempt sampleQuiz (mkQuestion "e1" "A" easy))
    by solve_accepted.
  assert (Hvalid : storable oneAnsweredAttempt (mkBody "e1" "no" 5))
    by solve_storable.
  assert (Hcount : counting oneAnswered alice oneAnsweredAttempt)
    by solve_counting.
  assert (Htotal : Quiz.totalQuestions sampleQuiz ≠ 0) by done.
  assert (Hagain : is_Some (list_find (λ a, Answer.questionId a = "e1")
                              (Attempt.answers oneAnsweredAttempt)))
    by (vm_compute; by eexists).
  split; [exact Hacc|]. split; [exact Hvalid|]. split; [exact Hcount|].
  split; [exact Htotal|]. split; [exact Hagain|].
  destruct (resubmission_is_recorded oneAnswered alice (mkBody "e1" "no" 5)
              sampleClock (Qc_of_Z 0) oneAnsweredAttempt sampleQuiz
              (mkQuestion "e1" "A" easy) Hacc Hvalid Hcount Htotal Hagain)
    as (_ & attempt' & Hsaved & Hanswers & _ & Htime).
  exists attempt'. split; [exact Hsaved|].
  split; [by rewrite Hanswers|by rewrite Htime].
Defined.

(** After Alice's wrong first answer the adaptive route offers the first
    unanswered easy question. *)
Lemma adaptive_route_selects_target_difficulty_witness :
  Attempt.answers oneAnsweredAttempt ≠ []
  ∧ adaptiveNext oneAnswered alice "att1"
    = NextQuestion (Some (mkQuestion "e2" "B" easy)) 2
        (Some {| perf_accuracy := currentAccuracy oneAnsweredAttempt;
                 perf_difficulty := easy |}).
Proof.
  assert (Hne : Attempt.answers oneAnsweredAttempt ≠ []) by done.
  split; [exact Hne|].
  destruct (adaptive_route_selects_target_difficulty oneAnswered alice "att1"
              oneAnsweredAttempt sampleQuiz)
    as (_ & Heasy & _ & Hfirst & _); [done|by vm_compute|done|by vm_compute|done|exact Hne|].
  cbv zeta in Heasy, Hfirst.
  rewrite (Heasy eq_refl eq_refl) in Hfirst.
  apply (Hfirst 3%nat); [done|done|by vm_compute|].
  intros j q' Hj Hq' [Hd Hu].
  destruct j as [|[|[|j]]]; [| | |lia]; simplify_eq/=; by vm_compute in Hu.
Defined.

(** A perfect attempt in five seconds takes Alice from 0 xp to 170 xp and
    level 2. *)
Lemma reward_experience_witness :
  Attempt.score perfectAttempt = Finite (Qc_of_Z 100)
  ∧ rewardable (tinyDb ∅) "alice" perfectAttempt
  ∧ ∃ g' reward,
      snd (updateGameState (tinyDb ∅) "alice" perfectAttempt tinyQuiz
             sampleClock) = Some reward
      ∧ gameStates (fst (updateGameState (tinyDb ∅) "alice" perfectAttempt
                           tinyQuiz sampleClock)) !! "alice" = Some g'
      ∧ xpGained reward = 170
      ∧ GameState.xp g' = 170
      ∧ GameState.level g' = 2.
Proof.
  assert (Hok : rewardable (tinyDb ∅) "alice" perfectAttempt)
    by solve_rewardable.
  split; [exact perfectAttempt_score|]. split; [exact Hok|].
  destruct (reward_experience (tinyDb ∅) "alice" perfectAttempt tinyQuiz
              sampleClock (Qc_of_Z 100) perfectAttempt_score Hok)
    as (g' & reward & Hreward & Hsaved & _ & _ & _ & _ & Hperfect).
  exists g', reward. split; [exact Hreward|]. split; [exact Hsaved|].
  apply Hperfect; done.
Defined.

(** The level at 170 xp is not below the level at 0 xp. *)
Lemma level_is_a_monotone_function_of_xp_witness :
  GameState.xp aliceState <= GameState.xp (set_xp 170 aliceState)
  ∧ li_level (calculateLevel aliceState)
    <= li_level (calculateLevel (set_xp 170 aliceState)).
Proof.
  assert (Hxp : GameState.xp aliceState <= GameState.xp (set_xp 170 aliceState))
    by done.
  split; [exact Hxp|].
  by apply (level_is_a_monotone_function_of_xp aliceState (set_xp 170 aliceState)).
Defined.

(** Two hours after her last activity Alice's streak is still 3. *)
Lemma streak_counts_elapsed_days_witness :
  Attempt.score perfectAttempt = Finite (Qc_of_Z 100)
  ∧ rewardable (tinyDb {[ "alice" := aliceState ]}) "alice" perfectAttempt
  ∧ ∃ g',
      gameStates (fst (updateGameState (tinyDb {[ "alice" := aliceState ]})
                         "alice" perfectAttempt tinyQuiz nextMorning))
        !! "alice" = Some g'
      ∧ Streaks.current (GameState.streaks g') = 3
      ∧ Streaks.lastActivity (GameState.streaks g') = now nextMorning.
Proof.
  assert (Hok : rewardable (tinyDb {[ "alice" := aliceState ]}) "alice"
                  perfectAttempt) by solve_rewardable.
  split; [exact perfectAttempt_score|]. split; [exact Hok|].
  destruct (streak_counts_elapsed_days (tinyDb {[ "alice" := aliceState ]})
              "alice" perfectAttempt tinyQuiz nextMorning (Qc_of_Z 100)
              perfectAttempt_score Hok)
    as (g' & Hsaved & _ & _ & Hsame & _ & Hlast).
  exists g'. split; [exact Hsaved|]. split; [|exact Hlast].
  rewrite Hsame; done.
Defined.

(** Alice's wrong answer completes the one-question quiz: topic A is weak,
    topic B, never answered, is in neither list. *)
Lemma completion_classifies_topics_witness :
  accepted (tinyDb ∅) alice (mkBody "q1" "no" 5)
    (newAttempt "alice" "quiz1" tinyQuiz) tinyQuiz (mkQuestion "q1" "A" easy)
  ∧ reachable (newProgress "alice" "quiz1" tinyQuiz)
  ∧ ∃ p',
      progress (snd (submitAnswer (tinyDb ∅) alice (mkBody "q1" "no" 5)
                       sampleClock (Qc_of_Z 0))) !! ("alice", "quiz1") = Some p'
      ∧ Progress.weakTopics p' = ["A"]
      ∧ Progress.strongTopics p' = [].
Proof.
  assert (Hacc : accepted (tinyDb ∅) alice (mkBody "q1" "no" 5)
                   (newAttempt "alice" "quiz1" tinyQuiz) tinyQuiz
                   (mkQuestion "q1" "A" easy))
    by solve_accepted.
  split; [exact Hacc|]. split; [constructor|].
  destruct (completion_classifies_topics (tinyDb ∅) alice (mkBody "q1" "no" 5)
              sampleClock (Qc_of_Z 0) (newAttempt "alice" "quiz1" tinyQuiz)
              tinyQuiz (mkQuestion "q1" "A" easy)
              (newProgress "alice" "quiz1" tinyQuiz) Hacc)
    as (p' & Hsaved & _); [done|by vm_compute|constructor|].
  exists p'. split; [exact Hsaved|].
  vm_compute in Hsaved. by simplify_eq.
Defined.

(** The record saved after Alice's right answer has consistent entries. *)
Lemma mastery_is_the_quotient_of_the_counters_witness :
  accepted (tinyDb ∅) alice (mkBody "q1" "yes" 5)
    (newAttempt "alice" "quiz1" tinyQuiz) tinyQuiz (mkQuestion "q1" "A" easy)
  ∧ reachable (newProgress "alice" "quiz1" tinyQuiz)
  ∧ ∃ p',
      progress (snd (submitAnswer (tinyDb ∅) alice (mkBody "q1" "yes" 5)
                       sampleClock (Qc_of_Z 0))) !! ("alice", "quiz1") = Some p'
      ∧ Forall consistent (Progress.topicMastery p').
Proof.
  assert (Hacc : accepted (tinyDb ∅) alice (mkBody "q1" "yes" 5)
                   (newAttempt "alice" "quiz1" tinyQuiz) tinyQuiz
                   (mkQuestion "q1" "A" easy))
    by solve_accepted.
  split; [exact Hacc|]. split; [constructor|].
  destruct (mastery_is_the_quotient_of_the_counters (tinyDb ∅) alice
              (mkBody "q1" "yes" 5) sampleClock (Qc_of_Z 0)
              (newAttempt "alice" "quiz1" tinyQuiz) tinyQuiz
              (mkQuestion "q1" "A" easy) ("alice", "quiz1")
              (newProgress "alice" "quiz1" tinyQuiz) Hacc)
    as (p' & Hsaved & _ & Hcons & _); [by vm_compute|constructor|].
  by exists p'.
Defined.

(** With no weak topic and nine unanswered questions, the draw
    [lateDraw] chooses the last one: its product with 9 is just below 8,
    and the double nearest to it is 8. *)
Lemma selection_is_determined_by_the_draw_witness :
  ((Qc_of_Z 0 <= lateDraw)%Qc ∧ (lateDraw < Qc_of_Z 1)%Qc)
  ∧ isDouble lateDraw
  ∧ Qfloor (lateDraw * Qc_of_Z 9)%Qc = 7
  ∧ Qfloor (binary64 (lateDraw * Qc_of_Z 9)%Qc) = 8
  ∧ getNextQuestion sampleQuiz (newAttempt "alice" "quiz1" sampleQuiz)
      (Some (newProgress "alice" "quiz1" sampleQuiz)) lateDraw
    = Some (mkQuestion "h3" "C" hard).
Proof.
  assert (Hdraw : (Qc_of_Z 0 <= lateDraw)%Qc ∧ (lateDraw < Qc_of_Z 1)%Qc)
    by (by vm_compute).
  assert (Hdouble : isDouble lateDraw) by solve_double.
  split; [exact Hdraw|]. split; [exact Hdouble|].
  split; [by vm_compute|]. split; [by vm_compute|].
  destruct (selection_is_determined_by_the_draw sampleQuiz
              (newAttempt "alice" "quiz1" sampleQuiz)
              (Some (newProgress "alice" "quiz1" sampleQuiz)))
    as (_ & Hdrawn).
  assert (Hno : ∀ q,
    q ∈ Quiz.questions sampleQuiz →
    (∃ p, Some (newProgress "alice" "quiz1" sampleQuiz) = Some p
          ∧ Question.topic q ∈ Progress.weakTopics p) →
    isAnswered (newAttempt "alice" "quiz1" sampleQuiz) q = true).
  { intros q _ (p & Hp & Hweak). injection Hp as <-.
    by apply elem_of_nil in Hweak. }
  destruct (Hdrawn Hno lateDraw Hdraw Hdouble) as (Hindex & _).
  rewrite Hindex. by vm_compute.
Defined.

(** Alice's game state is created by her first completion: the streak is 0. *)
Lemma first_completion_keeps_streak_at_zero_witness :
  Attempt.score perfectAttempt = Finite (Qc_of_Z 100)
  ∧ rewardable (tinyDb ∅) "alice" perfectAttempt
  ∧ ∃ g',
      gameStates (fst (updateGameState (tinyDb ∅) "alice" perfectAttempt
                         tinyQuiz sampleClock)) !! "alice" = Some g'
      ∧ Streaks.current (GameState.streaks g') = 0.
Proof.
  assert (Hok : rewardable (tinyDb ∅) "alice" perfectAttempt)
    by solve_rewardable.
  split; [exact perfectAttempt_score|]. split; [exact Hok|].
  destruct (first_completion_keeps_streak_at_zero (tinyDb ∅) "alice"
              perfectAttempt tinyQuiz sampleClock (Qc_of_Z 100)
              perfectAttempt_score Hok)
    as (g' & Hsaved & Hzero & _).
  exists g'. split; [exact Hsaved|]. by apply Hzero.
Defined.

(** Alice's perfect attempt at the one-question quiz is rewarded between
    50 and 170 xp. *)
Lemma reward_is_bounded_witness :
  Attempt.score perfectAttempt = Finite (Qc_of_Z 100)
  ∧ rewardable (tinyDb ∅) "alice" perfectAttempt
  ∧ ∃ g' reward,
      snd (updateGameState (tinyDb ∅) "alice" perfectAttempt tinyQuiz
             sampleClock) = Some reward
      ∧ gameStates (fst (updateGameState (tinyDb ∅) "alice" perfectAttempt
                           tinyQuiz sampleClock)) !! "alice" = Some g'
      ∧ 50 <= xpGained reward <= 170
      ∧ xpGained reward mod 10 = 0
      ∧ GameState.xp g' = xpGained reward.
Proof.
  assert (Hok : rewardable (tinyDb ∅) "alice" perfectAttempt)
    by solve_rewardable.
  split; [exact perfectAttempt_score|]. split; [exact Hok|].
  destruct (reward_is_bounded (tinyDb ∅) "alice" perfectAttempt tinyQuiz
              sampleClock (Qc_of_Z 100) perfectAttempt_score)
    as (g' & reward & Hreward & Hsaved & Hrange & Hten & Hxp & _);
    [by vm_compute|by vm_compute|exact Hok|].
  exists g', reward. split; [exact Hreward|]. split; [exact Hsaved|].
  split; [exact Hrange|]. split; [exact Hten|]. exact Hxp.
Defined.

(** After a completion the next morning Alice's streak is still at most
    her longest streak. *)
Lemma streak_never_exceeds_longest_witness :
  Attempt.score perfectAttempt = Finite (Qc_of_Z 100)
  ∧ rewardable (tinyDb {[ "alice" := aliceState ]}) "alice" perfectAttempt
  ∧ ∃ g',
      gameStates (fst (updateGameState (tinyDb {[ "alice" := aliceState ]})
                         "alice" perfectAttempt tinyQuiz nextMorning))
        !! "alice" = Some g'
      ∧ Streaks.current (GameState.streaks g')
        <= Streaks.longest (GameState.streaks g').
Proof.
  assert (Hok : rewardable (tinyDb {[ "alice" := aliceState ]}) "alice"
                  perfectAttempt) by solve_rewardable.
  split; [exact perfectAttempt_score|]. split; [exact Hok|].
  destruct (streak_never_exceeds_longest (tinyDb {[ "alice" := aliceState ]})
              "alice" perfectAttempt tinyQuiz nextMorning (Qc_of_Z 100)
              perfectAttempt_score Hok)
    as (g' & Hsaved & Hle & _).
  by exists g'.
Defined.

(** Alice's first completion, a perfect one, unlocks both badges. *)
Lemma first_reward_badges_witness :
  gameStates (tinyDb ∅) !! "alice" = None
  ∧ 0 < Attempt.totalQuestions perfectAttempt
  ∧ ∃ g' reward,
      snd (updateGameState (tinyDb ∅) "alice" perfectAttempt tinyQuiz
             sampleClock) = Some reward
      ∧ gameStates (fst (updateGameState (tinyDb ∅) "alice" perfectAttempt
                           tinyQuiz sampleClock)) !! "alice" = Some g'
      ∧ Badge.id <$> newBadges reward = ["first_quiz"; "perfectionist"]
      ∧ Badge.id <$> GameState.badges g' = ["first_quiz"; "perfectionist"].
Proof.
  assert (Hnone : gameStates (tinyDb ∅) !! "alice" = None) by done.
  assert (Htotal : 0 < Attempt.totalQuestions perfectAttempt) by done.
  split; [exact Hnone|]. split; [exact Htotal|].
  destruct (first_reward_badges (tinyDb ∅) "alice" perfectAttempt tinyQuiz
              sampleClock (Qc_of_Z 100) Hnone perfectAttempt_score Htotal)
    as (g' & reward & Hreward & Hsaved & Hids & Hbadges).
  exists g', reward. split; [exact Hreward|]. split; [exact Hsaved|].
  rewrite Hbadges. split; exact Hids.
Defined.

(** An empty answer is refused with nothing stored; the attempt at a quiz
    that counts 0 questions keeps the wrong answer and is not completed. *)
Lemma submitAnswer_failures_witness :
  submitAnswer sampleDb alice (mkBody "e1" "" 5) sampleClock (Qc_of_Z 0)
  = (Failure 500 "Error submitting answer", sampleDb)
  ∧ submitAnswer emptyDb alice (mkBody "q1" "no" 5) sampleClock (Qc_of_Z 0)
    = (Failure 500 "Error submitting answer",
       save_attempt "att1"
         (answeredAttempt (newAttempt "alice" "quiz1" emptyQuiz)
            (mkBody "q1" "no" 5) (mkQuestion "q1" "A" easy) sampleClock)
         emptyDb).
Proof.
  split.
  - destruct (submitAnswer_failures sampleDb alice (mkBody "e1" "" 5)
                sampleClock (Qc_of_Z 0)) as (_ & _ & _ & _ & Haccepted).
    destruct (Haccepted (newAttempt "alice" "quiz1" sampleQuiz) sampleQuiz
                (mkQuestion "e1" "A" easy)) as (Hempty & _);
      [solve_accepted|].
    apply Hempty. by right.
  - destruct (submitAnswer_failures emptyDb alice (mkBody "q1" "no" 5)
                sampleClock (Qc_of_Z 0)) as (_ & _ & _ & _ & Haccepted).
    destruct (Haccepted (newAttempt "alice" "quiz1" emptyQuiz) emptyQuiz
                (mkQuestion "q1" "A" easy)) as (_ & Hnan & _);
      [solve_accepted|].
    apply Hnan; [solve_storable|done|by vm_compute].
Defined.

(** Alice's attempt after two answers, and after her third. *)
Lemma attempt_counters_agree_witness :
  accepted twoAnswered alice (mkBody "q3" "no" 10) twoAnsweredAttempt threeQuiz
    (mkQuestion "q3" "B" hard)
  ∧ played twoAnsweredAttempt
  ∧ storable twoAnsweredAttempt (mkBody "q3" "no" 10)
  ∧ counted twoAnsweredAttempt
  ∧ ∃ attempt',
      attempts (snd (submitAnswer twoAnswered alice (mkBody "q3" "no" 10)
                       sampleClock (Qc_of_Z 0))) !! "att1" = Some attempt'
      ∧ counted attempt'.
Proof.
  assert (Hacc : accepted twoAnswered alice (mkBody "q3" "no" 10)
                   twoAnsweredAttempt threeQuiz (mkQuestion "q3" "B" hard))
    by solve_accepted.
  assert (Hplayed : played twoAnsweredAttempt)
    by (repeat (apply played_answer; [|done|done]); apply played_new).
  assert (Hvalid : storable twoAnsweredAttempt (mkBody "q3" "no" 10))
    by solve_storable.
  split; [exact Hacc|]. split; [exact Hplayed|]. split; [exact Hvalid|].
  destruct (attempt_counters_agree twoAnswered alice (mkBody "q3" "no" 10)
              sampleClock (Qc_of_Z 0) twoAnsweredAttempt threeQuiz
              (mkQuestion "q3" "B" hard) Hacc Hplayed Hvalid)
    as (Hcounted & attempt' & Hsaved & _ & Hcounted' & _).
  split; [exact Hcounted|]. by exists attempt'.
Defined.

(** Alice's third answer, a wrong one after a right and a wrong one,
    completes the three-question quiz with a score between 0 and 100. *)
Lemma completion_score_is_a_percentage_witness :
  accepted twoAnswered alice (mkBody "q3" "no" 10) twoAnsweredAttempt threeQuiz
    (mkQuestion "q3" "B" hard)
  ∧ played twoAnsweredAttempt
  ∧ storable twoAnsweredAttempt (mkBody "q3" "no" 10)
  ∧ counting twoAnswered alice twoAnsweredAttempt
  ∧ ∃ (q : Qc) correct seconds,
      fst (submitAnswer twoAnswered alice (mkBody "q3" "no" 10) sampleClock
             (Qc_of_Z 0))
      = QuizCompleted (Finite q) correct 3 seconds
      ∧ (Qc_of_Z 0 <= q)%Qc ∧ (q <= Qc_of_Z 100)%Qc.
Proof.
  assert (Hacc : accepted twoAnswered alice (mkBody "q3" "no" 10)
                   twoAnsweredAttempt threeQuiz (mkQuestion "q3" "B" hard))
    by solve_accepted.
  assert (Hplayed : played twoAnsweredAttempt)
    by (repeat (apply played_answer; [|done|done]); apply played_new).
  assert (Hvalid : storable twoAnsweredAttempt (mkBody "q3" "no" 10))
    by solve_storable.
  assert (Hcount : counting twoAnswered alice twoAnsweredAttempt)
    by solve_counting.
  split; [exact Hacc|]. split; [exact Hplayed|]. split; [exact Hvalid|].
  split; [exact Hcount|].
  destruct (completion_score_is_a_percentage twoAnswered alice
              (mkBody "q3" "no" 10) sampleClock (Qc_of_Z 0) twoAnsweredAttempt
              threeQuiz (mkQuestion "q3" "B" hard) Hacc Hplayed Hvalid Hcount)
    as (q & correct & seconds & Hresult & _ & Hlo & Hhi & _); [done|done|].
  by exists q, correct, seconds.
Defined.

(** Alice answers the only question of her completed attempt once more:
    the attempt is completed and rewarded again. *)
Lemma completed_attempt_is_rewarded_again_witness :
  accepted tinyCompleted alice (mkBody "q1" "yes" 5) perfectAttempt tinyQuiz
    (mkQuestion "q1" "A" easy)
  ∧ played perfectAttempt
  ∧ storable perfectAttempt (mkBody "q1" "yes" 5)
  ∧ counting tinyCompleted alice perfectAttempt
  ∧ rewardable tinyCompleted "alice" perfectAttempt
  ∧ Attempt.isCompleted perfectAttempt = true
  ∧ ∃ (q : Qc) correct seconds g',
      fst (submitAnswer tinyCompleted alice (mkBody "q1" "yes" 5) sampleClock
             (Qc_of_Z 0))
      = QuizCompleted (Finite q) correct 1 seconds
      ∧ (Qc_of_Z 100 < q)%Qc
      ∧ gameStates (snd (submitAnswer tinyCompleted alice (mkBody "q1" "yes" 5)
                           sampleClock (Qc_of_Z 0))) !! "alice" = Some g'
      ∧ from_option GameState.xp 0 (gameStates tinyCompleted !! "alice") + 50
        <= GameState.xp g'.
Proof.
  assert (Hacc : accepted tinyCompleted alice (mkBody "q1" "yes" 5)
                   perfectAttempt tinyQuiz (mkQuestion "q1" "A" easy))
    by solve_accepted.
  assert (Hplayed : played perfectAttempt).
  { apply played_complete; [|done].
    apply played_answer; [apply played_new|done|done]. }
  assert (Hvalid : storable perfectAttempt (mkBody "q1" "yes" 5))
    by solve_storable.
  assert (Hcount : counting tinyCompleted alice perfectAttempt)
    by solve_counting.
  assert (Hok : rewardable tinyCompleted "alice" perfectAttempt)
    by solve_rewardable.
  split; [exact Hacc|]. split; [exact Hplayed|]. split; [exact Hvalid|].
  split; [exact Hcount|]. split; [exact Hok|]. split; [done|].
  destruct (completed_attempt_is_rewarded_again tinyCompleted alice
              (mkBody "q1" "yes" 5) sampleClock (Qc_of_Z 0) perfectAttempt
              tinyQuiz (mkQuestion "q1" "A" easy) Hacc Hplayed Hvalid Hcount Hok)
    as (q & correct & seconds & g' & Hresult & Hcorrect & Hover & Hsaved & Hxp);
    [done|done|].
  exists q, correct, seconds, g'. split; [exact Hresult|].
  split; [apply Hover; by rewrite Hcorrect|]. by split.
Defined.

(** After her first answer, the question chosen for Alice with the draw 0
    is one she has not answered. *)
Lemma getNextQuestion_is_unanswered_witness :
  ((Qc_of_Z 0 <= Qc_of_Z 0)%Qc ∧ (Qc_of_Z 0 < Qc_of_Z 1)%Qc)
  ∧ isDouble (Qc_of_Z 0)
  ∧ ∀ q, getNextQuestion sampleQuiz oneAnsweredAttempt None (Qc_of_Z 0) = Some q →
         q ∈ Quiz.questions sampleQuiz
         ∧ isAnswered oneAnsweredAttempt q = false.
Proof.
  assert (Hdraw : (Qc_of_Z 0 <= Qc_of_Z 0)%Qc ∧ (Qc_of_Z 0 < Qc_of_Z 1)%Qc)
    by (by vm_compute).
  assert (Hdouble : isDouble (Qc_of_Z 0)) by done.
  split; [exact Hdraw|]. split; [exact Hdouble|].
  exact (proj1 (getNextQuestion_is_unanswered sampleQuiz oneAnsweredAttempt
                  None (Qc_of_Z 0) Hdraw Hdouble)).
Defined.

(** On Alice's attempt after one answer the adaptive route never fails. *)
Lemma adaptive_route_is_safe_witness :
  attempts oneAnswered !! "att1" = Some oneAnsweredAttempt
  ∧ quizzes oneAnswered !! Attempt.quiz oneAnsweredAttempt = Some sampleQuiz
  ∧ ∀ status message,
      adaptiveNext oneAnswered alice "att1" ≠ AdaptiveFailure status message.
Proof.
  assert (Hattempt : attempts oneAnswered !! "att1" = Some oneAnsweredAttempt)
    by (by vm_compute).
  assert (Hquiz : quizzes oneAnswered !! Attempt.quiz oneAnsweredAttempt
                  = Some sampleQuiz) by (by vm_compute).
  split; [exact Hattempt|]. split; [exact Hquiz|].
  exact (proj2 (proj2 (proj2
    (adaptive_route_is_safe oneAnswered alice "att1" oneAnsweredAttempt
       sampleQuiz eq_refl Hattempt eq_refl Hquiz eq_refl)))).
Defined.

(** Alice's completing third answer, on topic B, adds one answered
    question to her saved topic counters, although she answered three. *)
Lemma completion_counts_the_last_answer_witness :
  accepted twoAnswered alice (mkBody "q3" "no" 10) twoAnsweredAttempt threeQuiz
    (mkQuestion "q3" "B" hard)
  ∧ storable twoAnsweredAttempt (mkBody "q3" "no" 10)
  ∧ counting twoAnswered alice twoAnsweredAttempt
  ∧ progress twoAnswered !! ("alice", "quiz1")
    = Some (newProgress "alice" "quiz1" threeQuiz)
  ∧ ∃ p',
      progress (snd (submitAnswer twoAnswered alice (mkBody "q3" "no" 10)
                       sampleClock (Qc_of_Z 0))) !! ("alice", "quiz1") = Some p'
      ∧ answeredIn (Progress.topicMastery p') = 1.
Proof.
  assert (Hacc : accepted twoAnswered alice (mkBody "q3" "no" 10)
                   twoAnsweredAttempt threeQuiz (mkQuestion "q3" "B" hard))
    by solve_accepted.
  assert (Hvalid : storable twoAnsweredAttempt (mkBody "q3" "no" 10))
    by solve_storable.
  assert (Hcount : counting twoAnswered alice twoAnsweredAttempt)
    by solve_counting.
  assert (Hprogress : progress twoAnswered !! ("alice", "quiz1")
                      = Some (newProgress "alice" "quiz1" threeQuiz))
    by (by vm_compute).
  split; [exact Hacc|]. split; [exact Hvalid|]. split; [exact Hcount|].
  split; [exact Hprogress|].
  destruct (completion_counts_the_last_answer twoAnswered alice
              (mkBody "q3" "no" 10) sampleClock (Qc_of_Z 0) twoAnsweredAttempt
              threeQuiz (mkQuestion "q3" "B" hard)
              (newProgress "alice" "quiz1" threeQuiz) Hacc Hvalid Hcount)
    as (p' & Hsaved & Hanswered & _); [done|done|exact Hprogress|].
  exists p'. split; [exact Hsaved|]. rewrite Hanswered. by vm_compute.
Defined.

(** Three answers to the three-question quiz complete Alice's attempt. *)
Lemma attempt_completes_at_the_last_question_witness :
  attempts threeDb !! "att1" = Some (newAttempt (_id alice) "quiz1" threeQuiz)
  ∧ Quiz.totalQuestions threeQuiz ≠ 0
  ∧ ∃ attempt',
      attempts (submitAll threeDb alice sampleClock (Qc_of_Z 0)
                  [ mkBody "q1" "yes" 10; mkBody "q2" "no" 10;
                    mkBody "q3" "no" 10 ]) !! "att1" = Some attempt'
      ∧ length (Attempt.answers attempt') = 3%nat
      ∧ Attempt.isCompleted attempt' = true.
Proof.
  assert (Hattempt : attempts threeDb !! "att1"
                     = Some (newAttempt (_id alice) "quiz1" threeQuiz))
    by (by vm_compute).
  assert (Hquiz : quizzes threeDb !! "quiz1" = Some threeQuiz)
    by (by vm_compute).
  assert (Htotal : Quiz.totalQuestions threeQuiz ≠ 0) by done.
  split; [exact Hattempt|]. split; [exact Htotal|].
  destruct (attempt_completes_at_the_last_question threeDb alice sampleClock
              (Qc_of_Z 0) "att1" "quiz1" threeQuiz
              [ mkBody "q1" "yes" 10; mkBody "q2" "no" 10; mkBody "q3" "no" 10 ]
              eq_refl Hattempt Hquiz Htotal)
    as (attempt' & Hsaved & _ & Hlength & Hcompleted).
  { intros body Hbody.
    repeat (apply elem_of_cons in Hbody as [->|Hbody]);
      [| | |by apply elem_of_nil in Hbody];
      (split; [done|]; split; [done|]; split; [done|];
       vm_compute; by eexists). }
  exists attempt'. split; [exact Hsaved|]. split; [exact Hlength|].
  apply Hcompleted. split; [done|]. cbn. lia.
Defined.

(** Bob joins Carol's class with its code in lower case; joining again is
    refused. *)
Lemma joinClass_enrolls_once_witness :
  NoDup (fst <$> classes sampleClasses)
  ∧ joinClass sampleClasses bob (Some "abc123") joinClock
    = (ClassJoined "class1" "Algebra" "ABC123" "" "carol" 2002,
       snd (joinClass sampleClasses bob (Some "abc123") joinClock))
  ∧ ∃ cls',
      findClassById "class1"
        (snd (joinClass sampleClasses bob (Some "abc123") joinClock))
      = Some ("class1", cls')
      ∧ ClassStats.totalStudents (Class.stats cls') = 2.
Proof.
  assert (Hids : NoDup (fst <$> classes sampleClasses))
    by (apply (bool_decide_unpack _); by vm_compute).
  assert (Hjoin : joinClass sampleClasses bob (Some "abc123") joinClock
                  = (ClassJoined "class1" "Algebra" "ABC123" "" "carol" 2002,
                     snd (joinClass sampleClasses bob (Some "abc123") joinClock)))
    by (by vm_compute).
  split; [exact Hids|]. split; [exact Hjoin|].
  destruct (joinClass_enrolls_once sampleClasses bob (Some "abc123") joinClock
              "class1" "Algebra" "ABC123" "" "carol" 2002 _ Hids Hjoin)
    as (code & cls & cls' & _ & Hfound & _ & _ & _ & Hfound' & Hstudents
        & _ & Htotal & _).
  exists cls'. split; [exact Hfound'|].
  rewrite Htotal, Hstudents, length_app.
  replace cls with sampleClass; [done|].
  assert (Hsample : findClassById "class1" sampleClasses
                    = Some ("class1", sampleClass)) by (by vm_compute).
  congruence.
Defined.

(** Dave leaves Carol's class: the class has no student left. *)
Lemma leaveClass_leaves_witness :
  NoDup (fst <$> classes sampleClasses)
  ∧ classes sampleClasses !! 0%nat = Some ("class1", sampleClass)
  ∧ fst (leaveClass sampleClasses dave "class1")
    = ClassOk "Successfully left the class"
  ∧ ∃ cls',
      findClassById "class1" (snd (leaveClass sampleClasses dave "class1"))
      = Some ("class1", cls')
      ∧ Class.students cls' = [].
Proof.
  assert (Hids : NoDup (fst <$> classes sampleClasses))
    by (apply (bool_decide_unpack _); by vm_compute).
  assert (Hclass : classes sampleClasses !! 0%nat = Some ("class1", sampleClass))
    by done.
  split; [exact Hids|]. split; [exact Hclass|].
  destruct (leaveClass_leaves sampleClasses dave "class1" 0%nat sampleClass
              Hids eq_refl Hclass)
    as (Hok & (cls' & Hfound & Hstudents & _) & _).
  split; [exact Hok|]. exists cls'. split; [exact Hfound|].
  rewrite Hstudents. by vm_compute.
Defined.

(** Carol removes Dave from her class; Bob, a student, may not. *)
Lemma removeStudent_owner_only_witness :
  NoDup (fst <$> classes sampleClasses)
  ∧ classes sampleClasses !! 0%nat = Some ("class1", sampleClass)
  ∧ removeStudent sampleClasses bob "class1" "dave"
    = (ClassFailure 403 "Only instructors can remove students", sampleClasses)
  ∧ fst (removeStudent sampleClasses carol "class1" "dave")
    = ClassOk "Student removed from class successfully".
Proof.
  assert (Hids : NoDup (fst <$> classes sampleClasses))
    by (apply (bool_decide_unpack _); by vm_compute).
  assert (Hclass : classes sampleClasses !! 0%nat = Some ("class1", sampleClass))
    by done.
  assert (Hdave : accounts sampleClasses !! "dave" = Some dave)
    by (by vm_compute).
  assert (Hstored : ∀ a, accounts sampleClasses !! "dave" = Some a →
                         _id (user a) = "dave").
  { intros a Ha. rewrite Hdave in Ha. by injection Ha as <-. }
  split; [exact Hids|]. split; [exact Hclass|]. split.
  - apply (removeStudent_owner_only sampleClasses bob "class1" "dave" 0%nat
             sampleClass Hids Hclass Hstored). done.
  - apply (removeStudent_owner_only sampleClasses carol "class1" "dave" 0%nat
             sampleClass Hids Hclass Hstored); done.
Defined.

(** With 23 right answers out of 40 on topic A the summary reports the
    mastery 57: the percentage is [57.49999999999999] in doubles, and
    57.5 exactly. *)
Lemma calculateTopicMastery_totals_witness :
  ∃ s,
    calculateTopicMastery roundingRecords = [s]
    ∧ TopicSummary.topic s = "A"
    ∧ TopicSummary.totalQuestions s = 40
    ∧ TopicSummary.students s = 2
    ∧ TopicSummary.mastery s = ofZ 57
    ∧ round (mul (div (ofZ 23) (ofZ 40)) (ofZ 100)) = ofZ 58.
Proof.
  destruct (calculateTopicMastery_totals roundingRecords) as (_ & _ & Hs).
  eexists. split; [by vm_compute|].
  match goal with
  | |- TopicSummary.topic ?s = _ ∧ _ =>
      destruct (Hs s) as (Htotal & Hstudents & _ & Hmastery & _)
  end.
  { vm_compute. by left. }
  split; [done|].
  split; [rewrite Htotal; by vm_compute|].
  split; [rewrite Hstudents; by vm_compute|].
  split; [rewrite Hmastery; by vm_compute|by vm_compute].
Defined.

(** Over two records with topic A answered and topic B never answered,
    the overall mastery is a number between 0 and 100. *)
Lemma calculateOverallMastery_range_witness :
  (∀ e, e ∈ topicEntries sampleRecords →
        0 <= TopicMastery.correctAnswers e
          <= TopicMastery.questionsAnswered e)
  ∧ ∃ q, calculateOverallMastery sampleRecords = Finite q
         ∧ (Qc_of_Z 0 <= q)%Qc ∧ (q <= Qc_of_Z 100)%Qc.
Proof.
  assert (Hentries : ∀ e, e ∈ topicEntries sampleRecords →
            0 <= TopicMastery.correctAnswers e
              <= TopicMastery.questionsAnswered e).
  { intros e He. unfold topicEntries, sampleRecords in He. cbn in He.
    repeat (apply elem_of_cons in He as [->|He]);
      [| | |by apply elem_of_nil in He]; cbn; lia. }
  split; [exact Hentries|].
  exact (proj1 (calculateOverallMastery_range sampleRecords Hentries)).
Defined.

End Instances.
